(** * The collision broadphase grid of [physics/matter-js/lib/collision/Grid.js]

    A shallow embedding of the [Grid] module and the proofs of its
    bookkeeping properties: region computation, bucket identifiers, bucket
    membership, reference-counted pairs, extraction of the active pairs and
    clearing.

    Modelling conventions.

    - JavaScript numbers are the finite doubles: a double is the rational
      number ([Q]) that it denotes, and the result of an arithmetic
      operation is the exact result rounded to the nearest double, ties to
      even ([Number.round]).  Cell coordinates, bucket ids, body ids and
      pair counts are doubles with an integer value and are kept as
      integers ([Z]).  [NaN] and the infinities (a division by zero, a
      result of [2 ^ 1024] or more in magnitude) are outside the model, and
      so are loops over cell coordinates of [2 ^ 53] or more: the states
      of normal operation have cell sizes that are not zero ([sized]) and
      regions with exact bucket ids ([rowsWithin]), and the theorems on
      the region computation assume finite quotients ([finiteRegion]).
    - A body is a JavaScript object that the grid only references.  Object
      identity is an address ([ref]); the objects live in a heap
      ([Heap], a total function from addresses to body states).  The grid
      reads [id], [isStatic], [isSleeping] and [bounds] and writes the
      [region] slot.
    - [grid.buckets] and [grid.pairs] are JavaScript objects used as maps:
      they are [gmap]s.  A bucket array is owned by exactly one key of
      [grid.buckets] or one slot of [grid.freeBuckets], so buckets are
      values; a bucket that lives in [grid.buckets] is addressed by its key.
    - A pair record [[bodyA, bodyB, count]] is shared between [grid.pairs]
      and [grid.pairsList]; [grid.pairsList] is therefore modelled as the
      list of the table keys of the records it references.
    - An exception thrown by the code ([RangeError] when the length of an
      empty array is decremented) is the result [None]. *)

From Stdlib Require Import ZArith QArith Qabs Qround Qpower Lia Lqa.
From stdpp Require Import base option list gmap fin_maps.

Local Open Scope Z_scope.

(** ** Numbers *)

(** [a < b] on JavaScript numbers. *)
Definition Qltb (a b : Q) : bool := negb (Qle_bool b a).

(** [a > b] on JavaScript numbers. *)
Definition Qgtb (a b : Q) : bool := Qltb b a.

Module Number.

(** [2 ^ e] *)
Definition pow2 (e : Z) : Q := (2 ^ e)%Q.

(** The exponent of a positive number: [floor (log2 q)]. *)
Definition ilog2 (q : Q) : Z :=
  let e0 := Z.log2 (Qnum q) - Z.log2 (Zpos (Qden q)) in
  if Qle_bool (pow2 e0) q then e0 else e0 - 1.

(** The nearest integer, the even one of two that are equally near. *)
Definition nearestEven (s : Q) : Z :=
  let f := Qfloor s in
  match (s - inject_Z f ?= 1 # 2)%Q with
  | Lt => f
  | Gt => f + 1
  | Eq => if Z.even f then f else f + 1
  end.

(** The double nearest to a positive number: 53 significant bits, and
    the spacing [2 ^ -1074] of the subnormal numbers below [2 ^ -1022]. *)
Definition roundPos (a : Q) : Q :=
  let p := Z.max (ilog2 a) (-1022) - 52 in
  (inject_Z (nearestEven (a / pow2 p)) * pow2 p)%Q.

(** The double nearest to a number, ties to even. *)
Definition round (q : Q) : Q :=
  let q := Qred q in
  match Qnum q with
  | Z0 => 0%Q
  | Zpos _ => roundPos q
  | Zneg _ => (- roundPos (- q))%Q
  end.

(** The largest double. *)
Definition maxValue : Q := inject_Z (2 ^ 1024 - 2 ^ 971).

(** The double is a finite number: a result that rounds to more than the
    largest double is an infinity in the code. *)
Definition finite (q : Q) : Prop := (Qabs q <= maxValue)%Q.

(** [a + b], [a * b] and [a / b] on doubles, for results that are finite
    numbers; the quotient also for a divisor that is not zero ([a / 0] is
    [NaN] or an infinity in the code). *)
Definition add (a b : Q) : Q := round (a + b).
Definition mul (a b : Q) : Q := round (a * b).
Definition div (a b : Q) : Q := round (a / b).

(** The quotient [a / b] of the code is a finite number, the number
    [div a b]. *)
Definition defined (a b : Q) : Prop := ¬ (b == 0)%Q ∧ finite (div a b).

End Number.

(** ** Data *)

Module Vector.
Record t := mk { x : Q; y : Q }.
End Vector.

Module Bounds.
Record t := mk { min : Vector.t; max : Vector.t }.
End Bounds.

Module Region.
Record t := mk { startCol : Z; endCol : Z; startRow : Z; endRow : Z }.

#[global] Instance eq_dec : EqDecision t.
Proof. solve_decision. Defined.
End Region.

(** The address of a body object. *)
Definition ref := nat.

Module Body.
Record t := mk {
  id : Z;
  isStatic : bool;
  isSleeping : bool;
  bounds : Bounds.t;
  region : option Region.t   (* [None]: the slot is undefined *)
}.

(** [body.region = r] *)
Definition set_region (r : Region.t) (body : t) : t :=
  mk (id body) (isStatic body) (isSleeping body) (bounds body) (Some r).
End Body.

(** The body objects, by address. *)
Definition Heap : Type := ref → Body.t.

(** [body.region = r] for the object at address [body]. *)
Definition writeRegion (h : Heap) (body : ref) (r : Region.t) : Heap :=
  λ b, if decide (b = body) then Body.set_region r (h b) else h b.

Module World.
Record t := mk { bounds : Bounds.t }.
End World.

Module Engine.
Record t := mk { world : World.t }.
End Engine.

(** ** Collaborators that are not among the sources *)

Module Pair.
(** The key of a pair record in [grid.pairs]. *)
Definition Id : Type := Z * Z.

(** Modelled from the spec: [Pair.id] (module [Pair] is not among the
    sources).  The key is "an order-independent combination of two object
    identifiers" with [key(a,b) == key(b,a)]: the two ids, the smaller
    one first. *)
Definition id (bodyA bodyB : Body.t) : Id :=
  if Body.id bodyA <? Body.id bodyB
  then (Body.id bodyA, Body.id bodyB)
  else (Body.id bodyB, Body.id bodyA).

(** The record [[bodyA, bodyB, count]] stored in [grid.pairs]. *)
Record t := mk { bodyA : ref; bodyB : ref; count : Z }.

(** [pair[2] += d] *)
Definition add_count (d : Z) (pair : t) : t :=
  mk (bodyA pair) (bodyB pair) (count pair + d).
End Pair.

Module Common.
(** Modelled from the spec: [Common.indexOf] (module [Common] is not among
    the sources).  The index of the first element of the array that is
    the object [needle], [-1] when there is none. *)
Fixpoint indexOf (haystack : list ref) (needle : ref) : Z :=
  match haystack with
  | [] => -1
  | b :: rest =>
      if decide (b = needle) then 0
      else let i := indexOf rest needle in
           if i =? -1 then -1 else i + 1
  end.

(** Modelled from the spec: [Common.keys] (module [Common] is not among
    the sources), with the lookup that the loop over the keys makes for
    each of them; the [for ... in] loop of [Grid.clear] is the same
    enumeration.  The keys of an object used as a map, each with the
    value stored under it; the extraction "iterates every entry", in an
    order that "is not semantically guaranteed". *)
Definition entries {K} `{Countable K} {V} (obj : gmap K V) : list (K * V) :=
  map_to_list obj.
End Common.

(** ** Loops *)

(** A [for] loop whose body may throw. *)
Fixpoint forM {S A : Type} (f : S → A → option S) (s : S) (l : list A)
  : option S :=
  match l with
  | [] => Some s
  | a :: l' => match f s a with
               | Some s' => forM f s' l'
               | None => None
               end
  end.

(** The values of [for (i = lo; i <= hi; i++)]. *)
Definition upto (lo hi : Z) : list Z := seqZ lo (hi - lo + 1).

(** ** The grid *)

Module Grid.

Record t := mk {
  buckets : gmap Z (list ref);
  freeBuckets : list (list ref);
  pairs : gmap Pair.Id Pair.t;
  pairsList : list Pair.Id;
  bucketWidth : Q;
  bucketHeight : Q;
  _union : Region.t;
  _current : Region.t
}.

Definition set_buckets (v : gmap Z (list ref)) (g : t) : t :=
  mk v (freeBuckets g) (pairs g) (pairsList g)
     (bucketWidth g) (bucketHeight g) (_union g) (_current g).
Definition set_freeBuckets (v : list (list ref)) (g : t) : t :=
  mk (buckets g) v (pairs g) (pairsList g)
     (bucketWidth g) (bucketHeight g) (_union g) (_current g).
Definition set_pairs (v : gmap Pair.Id Pair.t) (g : t) : t :=
  mk (buckets g) (freeBuckets g) v (pairsList g)
     (bucketWidth g) (bucketHeight g) (_union g) (_current g).
Definition set_pairsList (v : list Pair.Id) (g : t) : t :=
  mk (buckets g) (freeBuckets g) (pairs g) v
     (bucketWidth g) (bucketHeight g) (_union g) (_current g).
Definition set_union (v : Region.t) (g : t) : t :=
  mk (buckets g) (freeBuckets g) (pairs g) (pairsList g)
     (bucketWidth g) (bucketHeight g) v (_current g).
Definition set_current (v : Region.t) (g : t) : t :=
  mk (buckets g) (freeBuckets g) (pairs g) (pairsList g)
     (bucketWidth g) (bucketHeight g) (_union g) v.

(** [Grid._createRegion] *)
Definition _createRegion (startCol endCol startRow endRow : Z) : Region.t :=
  Region.mk startCol endCol startRow endRow.

(** The options of [Grid.create] that concern the grid itself. *)
Record Options := mkOptions {
  opt_bucketWidth : option Q;
  opt_bucketHeight : option Q
}.

(** [Grid.create]: the defaults, extended with the options. *)
Definition create (options : Options) : t :=
  mk ∅ [] ∅ []
     (default (48 # 1)%Q (opt_bucketWidth options))
     (default (48 # 1)%Q (opt_bucketHeight options))
     (_createRegion 0 0 0 0) (_createRegion 0 0 0 0).

(** [Grid._regionUnion]: overwrites the four fields of [union]. *)
Definition _regionUnion (union regionA regionB : Region.t) : Region.t :=
  Region.mk (Z.min (Region.startCol regionA) (Region.startCol regionB))
            (Z.max (Region.endCol regionA) (Region.endCol regionB))
            (Z.min (Region.startRow regionA) (Region.startRow regionB))
            (Z.max (Region.endRow regionA) (Region.endRow regionB)).

(** [Grid._setRegion]: overwrites the four fields of [region]. *)
Definition _setRegion (region source : Region.t) : Region.t :=
  Region.mk (Region.startCol source) (Region.endCol source)
            (Region.startRow source) (Region.endRow source).

(** [Grid._createRegionFrom] *)
Definition _createRegionFrom (r : Region.t) : Region.t :=
  _createRegion (Region.startCol r) (Region.endCol r)
                (Region.startRow r) (Region.endRow r).

(** [Grid._getRegion]: overwrites the four fields of [region]. *)
Definition _getRegion (grid : t) (region : Region.t) (body : Body.t)
  : Region.t :=
  let bounds := Body.bounds body in
  Region.mk
    (Qfloor (Number.div (Vector.x (Bounds.min bounds)) (bucketWidth grid)))
    (Qfloor (Number.div (Vector.x (Bounds.max bounds)) (bucketWidth grid)))
    (Qfloor (Number.div (Vector.y (Bounds.min bounds)) (bucketHeight grid)))
    (Qfloor (Number.div (Vector.y (Bounds.max bounds)) (bucketHeight grid))).

(** [Grid._isSameRegion]; an argument may be undefined. *)
Definition _isSameRegion (regionA regionB : option Region.t) : bool :=
  match regionA, regionB with
  | Some a, Some b =>
      (Region.startCol a =? Region.startCol b)
      && (Region.endCol a =? Region.endCol b)
      && (Region.startRow a =? Region.startRow b)
      && (Region.endRow a =? Region.endRow b)
  | _, _ => false
  end.

(** [Grid._getBucketId]: the product and the sum are rounded to doubles;
    a double that is computed from integers has an integer value, which
    [Qfloor] reads. *)
Definition _getBucketId (column row : Z) : Z :=
  Qfloor (Number.add (Number.mul (inject_Z column) 1000000000)
            (inject_Z row)).

(** [Grid._createBucket]: the new grid and the bucket registered under
    [bucketId]. *)
Definition _createBucket (grid : t) (bucketId : Z) : t * list ref :=
  match reverse (freeBuckets grid) with
  | bucket :: rest =>
      (* freeBuckets.pop() *)
      (set_buckets (<[bucketId := bucket]> (buckets grid))
         (set_freeBuckets (reverse rest) grid), bucket)
  | [] =>
      (set_buckets (<[bucketId := []]> (buckets grid)) grid, [])
  end.

(** One turn of the loop of [Grid._bucketAddBody]. *)
Definition addPair (h : Heap) (body : ref)
    (pairs : gmap Pair.Id Pair.t) (bodyB : ref) : gmap Pair.Id Pair.t :=
  if (Body.id (h body) =? Body.id (h bodyB))
     || (Body.isStatic (h body) && Body.isStatic (h bodyB))
  then pairs
  else
    let pairId := Pair.id (h body) (h bodyB) in
    match pairs !! pairId with
    | Some record => <[pairId := Pair.add_count 1 record]> pairs
    | None => <[pairId := Pair.mk body bodyB 1]> pairs
    end.

(** [Grid._bucketAddBody]; [bucket] is the array stored under
    [bucketId]. *)
Definition _bucketAddBody (h : Heap) (grid : t) (bucketId : Z)
    (bucket : list ref) (body : ref) : t :=
  (* add new pairs *)
  let pairs' := foldl (addPair h body) (pairs grid) bucket in
  (* add to bodies (after pairs, otherwise pairs with self) *)
  set_buckets (<[bucketId := bucket ++ [body]]> (buckets grid))
    (set_pairs pairs' grid).

(** One turn of the second loop of [Grid._bucketRemoveBody]. *)
Definition removePair (h : Heap) (body : ref)
    (pairs : gmap Pair.Id Pair.t) (bodyB : ref) : gmap Pair.Id Pair.t :=
  let pairId := Pair.id (h body) (h bodyB) in
  match pairs !! pairId with
  | Some record => <[pairId := Pair.add_count (-1) record]> pairs
  | None => pairs
  end.

(** The array after [bucket[index] = bucket[bucket.length - 1];
    bucket.length--], [None] when the second statement throws.  With
    [index = -1] the assignment creates the property ["-1"], which is
    not an element of the array and which the grid never reads. *)
Definition swapRemove (bucket : list ref) (index : Z) : option (list ref) :=
  match last bucket with
  | None => None
  | Some lastBody =>
      let bucket1 :=
        if index =? -1 then bucket
        else <[Z.to_nat index := lastBody]> bucket in
      Some (take (length bucket - 1)%nat bucket1)
  end.

(** [Grid._bucketRemoveBody]; [bucket] is the array stored under
    [bucketId]. *)
Definition _bucketRemoveBody (h : Heap) (grid : t) (bucketId : Z)
    (bucket : list ref) (body : ref) : option t :=
  let index := Common.indexOf bucket body in
  match swapRemove bucket index with
  | None => None
  | Some bucket' =>
      (* update pair counts *)
      let pairs' := foldl (removePair h body) (pairs grid) bucket' in
      Some (set_buckets (<[bucketId := bucket']> (buckets grid))
              (set_pairs pairs' grid))
  end.

(** One turn of the loop of [Grid._createActivePairsList].  The record
    under a key is not affected by the deletion of the earlier keys. *)
Definition extractPair (grid : t) (entry : Pair.Id * Pair.t) : t :=
  let '(pairKey, record) := entry in
  if 0 <? Pair.count record
  then set_pairsList (pairsList grid ++ [pairKey]) grid
  else set_pairs (delete pairKey (pairs grid)) grid.

(** [Grid._createActivePairsList(grid, grid.pairsList)] *)
Definition _createActivePairsList (grid : t) : t :=
  foldl extractPair (set_pairsList [] grid) (Common.entries (pairs grid)).

(** One turn of the loop of [Grid.clear]. *)
Definition clearBucket (grid : t) (entry : Z * list ref) : t :=
  let '(key, bucket) := entry in
  set_buckets (delete key (buckets grid))
    (set_freeBuckets (freeBuckets grid ++ [ [] ]) grid).

(** [Grid.clear] *)
Definition clear (grid : t) : t :=
  let grid1 := foldl clearBucket grid (Common.entries (buckets grid)) in
  set_pairsList [] (set_pairs ∅ grid1).

(** A cell lies inside a region. *)
Definition isInside (col row : Z) (r : Region.t) : bool :=
  (Region.startCol r <=? col) && (col <=? Region.endCol r)
  && (Region.startRow r <=? row) && (row <=? Region.endRow r).

(** The cells visited by the two nested loops over [union]. *)
Definition cells (union : Region.t) : list (Z * Z) :=
  col ← upto (Region.startCol union) (Region.endCol union);
  row ← upto (Region.startRow union) (Region.endRow union);
  [(col, row)].

(** The body of the two nested loops of [Grid.update]; [bodyRegion] is
    [body.region], which does not change during the loops. *)
Definition updateCell (h : Heap) (body : ref) (forceUpdate createRegion : bool)
    (newRegion bodyRegion : Region.t) (grid : t) (cell : Z * Z) : option t :=
  let '(col, row) := cell in
  let bucketId := _getBucketId col row in
  let isInsideNewRegion := isInside col row newRegion in
  let isInsideOldRegion := isInside col row bodyRegion in
  (* remove from old region buckets *)
  match
    (if negb isInsideNewRegion && isInsideOldRegion then
       match buckets grid !! bucketId with
       | Some bucket => _bucketRemoveBody h grid bucketId bucket body
       | None => Some grid
       end
     else Some grid)
  with
  | None => None
  | Some grid1 =>
      (* add to new region buckets *)
      if createRegion || (isInsideNewRegion && negb isInsideOldRegion)
         || forceUpdate
      then
        let '(grid2, bucket) :=
          match buckets grid1 !! bucketId with
          | Some bucket => (grid1, bucket)
          | None => _createBucket grid1 bucketId
          end in
        Some (_bucketAddBody h grid2 bucketId bucket body)
      else Some grid1
  end.

(** The test "don't update out of world bodies". *)
Definition outOfWorld (body : Body.t) (world : World.t) : bool :=
  Qltb (Vector.x (Bounds.max (Body.bounds body)))
       (Vector.x (Bounds.min (World.bounds world)))
  || Qgtb (Vector.x (Bounds.min (Body.bounds body)))
          (Vector.x (Bounds.max (World.bounds world)))
  || Qltb (Vector.y (Bounds.max (Body.bounds body)))
          (Vector.y (Bounds.min (World.bounds world)))
  || Qgtb (Vector.y (Bounds.min (Body.bounds body)))
          (Vector.y (Bounds.max (World.bounds world))).

(** The state threaded through the loop over the bodies: the grid, the
    body objects and [gridChanged]. *)
Definition LoopState : Type := t * Heap * bool.

(** One turn of the loop of [Grid.update] over [bodies]. *)
Definition updateBody (engine : Engine.t) (forceUpdate : bool)
    (st : LoopState) (body : ref) : option LoopState :=
  let '(grid, h, gridChanged) := st in
  let world := Engine.world engine in
  if Body.isSleeping (h body) && negb forceUpdate then Some st
  else if outOfWorld (h body) world then Some st
  else
    (* determine current region coordinates for this body *)
    let grid := set_current (_getRegion grid (_current grid) (h body)) grid in
    let newRegion := _current grid in
    (* if the body has changed grid region *)
    if negb (bool_decide (is_Some (Body.region (h body))))
       || negb (_isSameRegion (Body.region (h body)) (Some newRegion))
       || forceUpdate
    then
      (* determine the union of body's previous and current region *)
      let grid :=
        match Body.region (h body) with
        | Some bodyRegion =>
            if forceUpdate
            then set_union (_setRegion (_union grid) newRegion) grid
            else set_union
                   (_regionUnion (_union grid) newRegion bodyRegion) grid
        | None => set_union (_setRegion (_union grid) newRegion) grid
        end in
      let union := _union grid in
      (* Ensure body has a region assigned. *)
      let createRegion := negb (bool_decide (is_Some (Body.region (h body)))) in
      let '(h, bodyRegion) :=
        match Body.region (h body) with
        | Some bodyRegion => (h, bodyRegion)
        | None =>
            let created := _createRegionFrom newRegion in
            (writeRegion h body created, created)
        end in
      (* update grid buckets affected by region change *)
      match
        forM (updateCell h body forceUpdate createRegion newRegion bodyRegion)
             grid (cells union)
      with
      | None => None
      | Some grid =>
          (* set the new region *)
          let h := writeRegion h body (_setRegion bodyRegion newRegion) in
          (* flag changes so we can update pairs *)
          Some (grid, h, true)
      end
    else Some (grid, h, gridChanged).

(** The loop of [Grid.update] over [bodies]. *)
Definition updateBodies (grid : t) (h : Heap) (bodies : list ref)
    (engine : Engine.t) (forceUpdate : bool) : option LoopState :=
  forM (updateBody engine forceUpdate) (grid, h, false) bodies.

(** [Grid.update]: the grid and the body objects after the call.  The
    metrics of the debug build are not part of the model. *)
Definition update (grid : t) (h : Heap) (bodies : list ref)
    (engine : Engine.t) (forceUpdate : bool) : option (t * Heap) :=
  match updateBodies grid h bodies engine forceUpdate with
  | None => None
  | Some (grid, h, gridChanged) =>
      (* update pairs list only if pairs changed *)
      Some (if gridChanged then _createActivePairsList grid else grid, h)
  end.

End Grid.

(** * Specification *)

(** ** Region computation *)

Module RegionSpec.

(** The spec's [computeRegion(bounds, cellWidth, cellHeight)], in the
    spec's words: [startCol = floor(minX/cellWidth)],
    [endCol = floor(maxX/cellWidth)], and similarly for rows; the division
    is the division of the numbers of the program. *)
Definition computeRegion (bounds : Bounds.t) (cellWidth cellHeight : Q)
  : Region.t :=
  {| Region.startCol :=
       Qfloor (Number.div (Vector.x (Bounds.min bounds)) cellWidth);
     Region.endCol :=
       Qfloor (Number.div (Vector.x (Bounds.max bounds)) cellWidth);
     Region.startRow :=
       Qfloor (Number.div (Vector.y (Bounds.min bounds)) cellHeight);
     Region.endRow :=
       Qfloor (Number.div (Vector.y (Bounds.max bounds)) cellHeight) |}.

(** [n] is the floor of [v / size]: the cell [n] of width [size]
    contains the coordinate [v]. *)
Definition cellOf (n : Z) (v size : Q) : Prop :=
  (inject_Z n * size <= v)%Q ∧ (v < inject_Z (n + 1) * size)%Q.

(** The division of the program gives the exact quotient of [v] and
    [size]: the quotient is a double. *)
Definition exact (v size : Q) : Prop := (Number.div v size == v / size)%Q.

(** [n] is the floor of the exact quotient of [v] and [size], or one
    more: the division of the program rounds the quotient, and a quotient
    just below an integer is rounded up to that integer. *)
Definition nearFloor (n : Z) (v size : Q) : Prop :=
  Qfloor (v / size) <= n <= Qfloor (v / size) + 1.

(** The bounds [{min: {x: x0, y: y0}, max: {x: x1, y: y1}}]. *)
Definition box (x0 y0 x1 y1 : Z) : Bounds.t :=
  Bounds.mk (Vector.mk (inject_Z x0) (inject_Z y0))
            (Vector.mk (inject_Z x1) (inject_Z y1)).

End RegionSpec.

(** ** Bucket identifiers *)

(** The stride of [Grid._getBucketId]. *)
Definition stride : Z := 1000000000.

(** The largest column whose bucket ids are exact: for
    [|column| <= maxColumn] and [|row| < stride] the product and the sum
    of [Grid._getBucketId] are below [2 ^ 53] in magnitude and are not
    rounded. *)
Definition maxColumn : Z := 9007198.

(** The cell sizes of the grid are not zero. *)
Definition sized (g : Grid.t) : Prop :=
  ¬ (Grid.bucketWidth g == 0)%Q ∧ ¬ (Grid.bucketHeight g == 0)%Q.

(** The four quotients of [Grid._getRegion] are finite numbers: the cell
    sizes are not zero and no quotient overflows. *)
Definition finiteRegion (g : Grid.t) (b : Body.t) : Prop :=
  Number.defined (Vector.x (Bounds.min (Body.bounds b))) (Grid.bucketWidth g)
  ∧ Number.defined (Vector.x (Bounds.max (Body.bounds b)))
      (Grid.bucketWidth g)
  ∧ Number.defined (Vector.y (Bounds.min (Body.bounds b)))
      (Grid.bucketHeight g)
  ∧ Number.defined (Vector.y (Bounds.max (Body.bounds b)))
      (Grid.bucketHeight g).

(** The bucket id of the cell is exact, and its row lies in the window of
    the width of the stride that starts at [lo]. *)
Definition cellWithin (lo : Z) (cell : Z * Z) : Prop :=
  lo <= cell.2 < lo + stride
  ∧ Z.abs cell.2 < stride ∧ Z.abs cell.1 <= maxColumn.

(** ** Extraction of the active pairs *)

(** A record that is in at least one bucket. *)
Definition active (entry : Pair.Id * Pair.t) : Prop := 0 < Pair.count entry.2.

#[global] Instance active_dec entry : Decision (active entry).
Proof. unfold active. apply _. Defined.

(** ** Counting *)

(** [1] when the proposition holds, [0] otherwise. *)
Definition ind (P : Prop) `{Decision P} : nat :=
  if decide P then 1%nat else 0%nat.

(** ** The pair table *)

(** The shared-cell-count stored under a key, [0] when there is no
    record. *)
Definition pairCount (pairs : gmap Pair.Id Pair.t) (key : Pair.Id) : Z :=
  match pairs !! key with
  | Some record => Pair.count record
  | None => 0
  end.

(** Both bodies are static. *)
Definition bothStatic (h : Heap) (a b : ref) : bool :=
  Body.isStatic (h a) && Body.isStatic (h b).

(** The bodies for which [Grid._bucketAddBody] counts a shared cell. *)
Definition counted (h : Heap) (a b : ref) : Prop :=
  Body.id (h a) ≠ Body.id (h b) ∧ bothStatic h a b = false.

#[global] Instance counted_dec h a b : Decision (counted h a b).
Proof. unfold counted. apply _. Defined.

(** Distinct body objects have distinct ids. *)
Definition uniqueIds (h : Heap) : Prop :=
  ∀ a b : ref, Body.id (h a) = Body.id (h b) → a = b.

(** Every record is stored under the key of its two members, and its
    members have different ids. *)
Definition pairsWf (h : Heap) (pairs : gmap Pair.Id Pair.t) : Prop :=
  ∀ key record, pairs !! key = Some record →
    key = Pair.id (h (Pair.bodyA record)) (h (Pair.bodyB record))
    ∧ Body.id (h (Pair.bodyA record)) ≠ Body.id (h (Pair.bodyB record)).

(** ** Shared cells *)

(** The bucket registered under a bucket id, empty when there is none. *)
Definition bucketAt (g : Grid.t) (k : Z) : list ref :=
  default [] (Grid.buckets g !! k).

(** Both bodies are in the bucket. *)
Definition both (a b : ref) (bucket : list ref) : Prop :=
  a ∈ bucket ∧ b ∈ bucket.

(** The number of cells whose buckets contain both bodies. *)
Definition sharedIn (buckets : gmap Z (list ref)) (a b : ref) : nat :=
  size (filter (λ e : Z * list ref, both a b e.2) buckets).

Definition sharedCells (g : Grid.t) (a b : ref) : nat :=
  sharedIn (Grid.buckets g) a b.

(** The books of the grid are in order: no bucket holds a body twice, the
    pooled arrays are empty, every pair record sits under the key of its
    members, the count of two bodies that are counted is the number of
    cells they share, and two static bodies have no record. *)
Record BookOk (h : Heap) (g : Grid.t) : Prop := mkBookOk {
  book_nodup : ∀ k bucket, Grid.buckets g !! k = Some bucket → NoDup bucket;
  book_pool : ∀ bucket, bucket ∈ Grid.freeBuckets g → bucket = [];
  book_wf : pairsWf h (Grid.pairs g);
  book_count : ∀ a b, counted h a b →
    pairCount (Grid.pairs g) (Pair.id (h a) (h b))
    = Z.of_nat (sharedCells g a b);
  book_static : ∀ a b, bothStatic h a b = true →
    Grid.pairs g !! Pair.id (h a) (h b) = None
}.

(** ** Bucket operations keep the books *)

(** [body] is one of [a] and [b], and the other one is in the bucket. *)
Definition partnerIn (body a b : ref) (bucket : list ref) : Prop :=
  (a = body ∧ b ∈ bucket) ∨ (b = body ∧ a ∈ bucket).

(** ** The loops over the cells of a region *)

(** The bucket id of a cell. *)
Definition cellId (cell : Z * Z) : Z := Grid._getBucketId cell.1 cell.2.

(** The fields of the grid that the bucket operations leave alone. *)
Definition sameFrame (g g' : Grid.t) : Prop :=
  Grid.pairsList g' = Grid.pairsList g
  ∧ Grid.bucketWidth g' = Grid.bucketWidth g
  ∧ Grid.bucketHeight g' = Grid.bucketHeight g
  ∧ Grid._union g' = Grid._union g
  ∧ Grid._current g' = Grid._current g.

(** The bodies other than [body] are in the same buckets. *)
Definition othersKept (body : ref) (g g' : Grid.t) : Prop :=
  ∀ x k, x ≠ body → x ∈ bucketAt g' k ↔ x ∈ bucketAt g k.

(** The test that guards the removal in a cell. *)
Definition removes (newRegion bodyRegion : Region.t) (cell : Z * Z) : bool :=
  negb (Grid.isInside cell.1 cell.2 newRegion)
  && Grid.isInside cell.1 cell.2 bodyRegion.

(** The test that guards the addition in a cell. *)
Definition adds (forceUpdate createRegion : bool)
    (newRegion bodyRegion : Region.t) (cell : Z * Z) : bool :=
  createRegion
  || (Grid.isInside cell.1 cell.2 newRegion
      && negb (Grid.isInside cell.1 cell.2 bodyRegion))
  || forceUpdate.

(** ** Moving a body between the cells of two regions *)

(** The rows of a region lie in the window of the width of the stride
    that starts at [lo], and the bucket ids of its cells are exact: the
    rows are below the stride and the columns are not beyond [maxColumn]
    in magnitude. *)
Definition rowsWithin (lo : Z) (r : Region.t) : Prop :=
  (lo <= Region.startRow r ∧ Region.endRow r < lo + stride)
  ∧ (- stride < Region.startRow r ∧ Region.endRow r < stride)
  ∧ (- maxColumn <= Region.startCol r ∧ Region.endCol r <= maxColumn).

(** The cell lies inside the region. *)
Definition inside (cell : Z * Z) (r : Region.t) : Prop :=
  Grid.isInside cell.1 cell.2 r = true.

#[global] Instance inside_dec cell r : Decision (inside cell r).
Proof. unfold inside. apply _. Defined.

(** The body is in no bucket. *)
Definition absent (g : Grid.t) (body : ref) : Prop :=
  ∀ k, body ∉ bucketAt g k.

(** ** One body of the update *)

(** The region of a body in the grid. *)
Definition regionOf (g : Grid.t) (b : Body.t) : Region.t :=
  Grid._getRegion g (Grid._current g) b.

(** The body is neither skipped as sleeping nor as out of the world. *)
Definition processed (engine : Engine.t) (forceUpdate : bool) (b : Body.t)
  : bool :=
  negb (Body.isSleeping b && negb forceUpdate)
  && negb (Grid.outOfWorld b (Engine.world engine)).

(** The test "the body has changed grid region". *)
Definition regionChanged (forceUpdate : bool) (old : option Region.t)
    (newRegion : Region.t) : bool :=
  negb (bool_decide (is_Some old))
  || negb (Grid._isSameRegion old (Some newRegion))
  || forceUpdate.

(** The fields of a body that the grid reads and does not write. *)
Definition sameBody (b b' : Body.t) : Prop :=
  Body.id b' = Body.id b
  ∧ Body.isStatic b' = Body.isStatic b
  ∧ Body.isSleeping b' = Body.isSleeping b
  ∧ Body.bounds b' = Body.bounds b.

(** The body is in the buckets of the cells of its recorded region. *)
Definition occupies (h : Heap) (body : ref) (k : Z) : Prop :=
  ∃ r c, Body.region (h body) = Some r ∧ inside c r ∧ cellId c = k.

(** The body is in the buckets of the cells of its recorded region and in
    no other bucket; a body without a region is in no bucket. *)
Definition registered (h : Heap) (g : Grid.t) (body : ref) : Prop :=
  ∀ k, body ∈ bucketAt g k ↔ occupies h body k.

(** Nothing but the scratch regions differs. *)
Definition quiet (g g' : Grid.t) : Prop :=
  Grid.buckets g' = Grid.buckets g
  ∧ Grid.freeBuckets g' = Grid.freeBuckets g
  ∧ Grid.pairs g' = Grid.pairs g
  ∧ Grid.pairsList g' = Grid.pairsList g
  ∧ Grid.bucketWidth g' = Grid.bucketWidth g
  ∧ Grid.bucketHeight g' = Grid.bucketHeight g.

(** ** The loop over the bodies *)

(** The grid and the bodies agree: ids are distinct, the books are in
    order, every body is either in the buckets of its recorded region or
    (after a clear) in no bucket at all, and the recorded regions have
    exact bucket ids and their rows in one window of the width of the
    stride. *)
Record Coherent (lo : Z) (h : Heap) (g : Grid.t) : Prop := mkCoherent {
  coh_ids : uniqueIds h;
  coh_book : BookOk h g;
  coh_registered : ∀ body, registered h g body ∨ absent g body;
  coh_rows : ∀ body r, Body.region (h body) = Some r → rowsWithin lo r
}.

(** The bodies that the update processes are registered: none of them
    lost its buckets in a clear. *)
Definition allRegistered (engine : Engine.t) (g : Grid.t) (h : Heap)
    (bodies : list ref) : Prop :=
  ∀ body, body ∈ bodies → processed engine false (h body) = true →
          registered h g body.

(** The bodies that the forced update processes are in no bucket. *)
Definition allAbsent (engine : Engine.t) (g : Grid.t) (h : Heap)
    (bodies : list ref) : Prop :=
  ∀ body, body ∈ bodies → processed engine true (h body) = true →
          absent g body.

(** The current region of a body that the update processes has exact
    bucket ids and its rows in the window. *)
Definition fits (lo : Z) (engine : Engine.t) (forceUpdate : bool)
    (g : Grid.t) (h : Heap) (body : ref) : Prop :=
  processed engine forceUpdate (h body) = true →
  rowsWithin lo (regionOf g (h body)).

(** The body is not processed by the update of [bodies]. *)
Definition untouched (engine : Engine.t) (forceUpdate : bool) (h : Heap)
    (bodies : list ref) (x : ref) : Prop :=
  x ∈ bodies → processed engine forceUpdate (h x) = false.

(** ** The update *)

(** The list of active pairs and the pair table agree: the list names
    every record of the table once, and every record has a positive
    count. *)
Definition Synced (g : Grid.t) : Prop :=
  NoDup (Grid.pairsList g)
  ∧ (∀ key, key ∈ Grid.pairsList g ↔ is_Some (Grid.pairs g !! key))
  ∧ (∀ key record, Grid.pairs g !! key = Some record → 0 < Pair.count record).

(** The state between two updates. *)
Definition Consistent (lo : Z) (h : Heap) (g : Grid.t) : Prop :=
  Coherent lo h g ∧ Synced g.

(** ** The states of normal operation *)

(** The collaborators change a body between two updates: they move it
    and put it to sleep or wake it; they do not change its id, its static
    flag or the region slot of the grid. *)
Definition external (h h' : Heap) : Prop :=
  ∀ x, Body.id (h' x) = Body.id (h x)
       ∧ Body.isStatic (h' x) = Body.isStatic (h x)
       ∧ Body.region (h' x) = Body.region (h x).

(** The states of normal operation, for bodies of distinct ids whose
    regions have exact bucket ids and their rows in the window that starts
    at [lo]: a new grid with cell sizes that are not zero and bodies
    without a region; changes of the bodies by the collaborators;
    [Grid.update] without [forceUpdate], given bodies that have not lost
    their buckets; [Grid.clear]; and [Grid.update] with [forceUpdate],
    given each body once and only bodies that are in no bucket (as after
    [Grid.clear]). *)
Inductive Tracked (lo : Z) : Grid.t → Heap → Prop :=
| tracked_create options h :
    uniqueIds h → (∀ x, Body.region (h x) = None) →
    sized (Grid.create options) →
    Tracked lo (Grid.create options) h
| tracked_external g h h' :
    Tracked lo g h → external h h' → Tracked lo g h'
| tracked_update g h bodies engine g' h' :
    Tracked lo g h →
    (∀ body, body ∈ bodies → fits lo engine false g h body) →
    allRegistered engine g h bodies →
    Grid.update g h bodies engine false = Some (g', h') →
    Tracked lo g' h'
| tracked_clear g h :
    Tracked lo g h → Tracked lo (Grid.clear g) h
| tracked_forced g h bodies engine g' h' :
    Tracked lo g h →
    (∀ body, body ∈ bodies → fits lo engine true g h body) →
    NoDup bodies →
    allAbsent engine g h bodies →
    Grid.update g h bodies engine true = Some (g', h') →
    Tracked lo g' h'.

(** ** The update in any state *)

(** What a bucket operation does in any state, for the bodies other
    than [body]: it leaves the frame alone, keeps the pair table well
    formed, takes arrays from the pool and adds none, and adds no other
    body to a bucket unless a pooled array already held it. *)
Definition anyStep (h : Heap) (body : ref) (g g' : Grid.t) : Prop :=
  sameFrame g g'
  ∧ (pairsWf h (Grid.pairs g) → pairsWf h (Grid.pairs g'))
  ∧ (∀ bucket, bucket ∈ Grid.freeBuckets g' → bucket ∈ Grid.freeBuckets g)
  ∧ (∀ x, x ≠ body →
       (∀ bucket, bucket ∈ Grid.freeBuckets g → x ∉ bucket) →
       ∀ k, x ∈ bucketAt g' k → x ∈ bucketAt g k).

(** No pooled array holds the body. *)
Definition notPooled (g : Grid.t) (x : ref) : Prop :=
  ∀ bucket, bucket ∈ Grid.freeBuckets g → x ∉ bucket.

(** What the loop over the bodies does in any state. *)
Definition anyTurn (h h' : Heap) (g g' : Grid.t) : Prop :=
  Grid.pairsList g' = Grid.pairsList g
  ∧ Grid.bucketWidth g' = Grid.bucketWidth g
  ∧ Grid.bucketHeight g' = Grid.bucketHeight g
  ∧ (pairsWf h (Grid.pairs g) → pairsWf h' (Grid.pairs g'))
  ∧ (∀ bucket, bucket ∈ Grid.freeBuckets g' → bucket ∈ Grid.freeBuckets g)
  ∧ (∀ x, sameBody (h x) (h' x)).

(** ** A small world *)

Module Demo.

(** The body at address [b], with id [b + 1]. *)
Definition body (b : ref) (isStatic : bool) (bounds : Bounds.t) : Body.t :=
  Body.mk (Z.of_nat b + 1) isStatic false bounds None.

(** Two bodies [0] and [1] with the same bounds, which cover the three
    cells [(0, 0)], [(1, 0)] and [(2, 0)] of the default grid; the other
    bodies are far outside the world. *)
Definition heap : Heap :=
  λ b, match b with
       | 0%nat | 1%nat => body b false (RegionSpec.box 0 0 100 40)
       | _ => body b false (RegionSpec.box (-1000) (-1000) (-900) (-900))
       end.

(** The collaborators move a body. *)
Definition move (h : Heap) (b : ref) (bounds : Bounds.t) : Heap :=
  λ x, if decide (x = b)
       then Body.mk (Body.id (h x)) (Body.isStatic (h x))
                    (Body.isSleeping (h x)) bounds (Body.region (h x))
       else h x.

Definition engine : Engine.t :=
  Engine.mk (World.mk (RegionSpec.box 0 0 800 600)).

Definition grid : Grid.t := Grid.create (Grid.mkOptions None None).

(** The result of a call that returns. *)
Definition result (call : option (Grid.t * Heap)) : Grid.t * Heap :=
  default (grid, heap) call.

(** The first update registers both bodies. *)
Definition first : Grid.t * Heap :=
  result (Grid.update grid heap [0%nat; 1%nat] engine false).

(** Body [0] leaves the cell [(0, 0)]. *)
Definition second : Grid.t * Heap :=
  result (Grid.update first.1
            (move first.2 0%nat (RegionSpec.box 50 0 100 40))
            [0%nat; 1%nat] engine false).

(** Body [0] leaves the row of body [1]. *)
Definition third : Grid.t * Heap :=
  result (Grid.update second.1
            (move second.2 0%nat (RegionSpec.box 50 100 100 140))
            [0%nat; 1%nat] engine false).

(** After the first update, body [0] is updated again with
    [forceUpdate]. *)
Definition forced : Grid.t * Heap :=
  result (Grid.update first.1 first.2 [0%nat] engine true).

(** After the first update the grid is cleared and both bodies are
    updated with [forceUpdate]. *)
Definition rebuilt : Grid.t * Heap :=
  result (Grid.update (Grid.clear first.1) first.2 [0%nat; 1%nat] engine true).

(** After the first update, body [0] leaves the world and body [2]
    enters the cell [(0, 0)]. *)
Definition leaving : Heap :=
  move (move first.2 0%nat (RegionSpec.box (-500) 0 (-400) 40))
       2%nat (RegionSpec.box 0 0 40 40).

Definition gone : Grid.t * Heap :=
  result (Grid.update first.1 leaving [0%nat; 1%nat; 2%nat] engine false).

(** A grid whose pair table holds a record that is in two buckets and a
    record that is in none, and whose list of active pairs is out of
    date. *)
Definition stale : Grid.t :=
  Grid.set_pairsList [(7, 8)]
    (Grid.set_pairs (<[(1, 2) := Pair.mk 0%nat 1%nat 2]>
                       (<[(1, 3) := Pair.mk 0%nat 2%nat 0]> ∅)) grid).

(** After the first update, body [2], which has never been in the world,
    is updated with the others. *)
Definition outsider : Grid.t * Heap :=
  result (Grid.update first.1 first.2 [0%nat; 1%nat; 2%nat] engine false).

(** After the first update, body [0] is moved so that its right edge lies
    on the left edge of the world. *)
Definition touchingHeap : Heap :=
  move first.2 0%nat (RegionSpec.box (-48) 0 0 40).

End Demo.

(** ** Buckets hold a body once *)

(** The states that any use of the grid reaches: [Grid.create], changes
    of the bodies by the collaborators that keep the ids, [Grid.update]
    with or without [forceUpdate], and [Grid.clear]. *)
Inductive Reachable : Grid.t → Heap → Prop :=
| reach_create options h : Reachable (Grid.create options) h
| reach_external g h h' :
    Reachable g h → (∀ x, Body.id (h' x) = Body.id (h x)) → Reachable g h'
| reach_update g h bodies engine forceUpdate g' h' :
    Reachable g h →
    Grid.update g h bodies engine forceUpdate = Some (g', h') →
    Reachable g' h'
| reach_clear g h : Reachable g h → Reachable (Grid.clear g) h.

(** ** Bodies outside the world and bodies that touch its bounds *)

(** The world bounds and the bounds of the body overlap or touch. *)
Definition notSeparated (b : Body.t) (world : World.t) : Prop :=
  (Vector.x (Bounds.min (World.bounds world))
   <= Vector.x (Bounds.max (Body.bounds b)))%Q
  ∧ (Vector.x (Bounds.min (Body.bounds b))
     <= Vector.x (Bounds.max (World.bounds world)))%Q
  ∧ (Vector.y (Bounds.min (World.bounds world))
     <= Vector.y (Bounds.max (Body.bounds b)))%Q
  ∧ (Vector.y (Bounds.min (Body.bounds b))
     <= Vector.y (Bounds.max (World.bounds world)))%Q.

(** ** Regions, points and arrays *)

(** The region has at least one cell. *)
Definition nonEmpty (r : Region.t) : Prop :=
  Region.startCol r <= Region.endCol r ∧ Region.startRow r <= Region.endRow r.

(** The point [(px, py)] lies in the bounds. *)
Definition covers (bounds : Bounds.t) (px py : Q) : Prop :=
  (Vector.x (Bounds.min bounds) <= px)%Q
  ∧ (px <= Vector.x (Bounds.max bounds))%Q
  ∧ (Vector.y (Bounds.min bounds) <= py)%Q
  ∧ (py <= Vector.y (Bounds.max bounds))%Q.

(** The cell of the grid that contains the point [(px, py)]. *)
Definition cellAt (g : Grid.t) (px py : Q) : Z * Z :=
  (Qfloor (Number.div px (Grid.bucketWidth g)),
   Qfloor (Number.div py (Grid.bucketHeight g))).

(** What [Grid.update] does to the bucket map and the pool: no key of the
    map is lost, arrays are taken from the end of the pool only, the
    number of arrays does not shrink, and it grows only when the pool is
    exhausted. *)
Definition conserves (g g' : Grid.t) : Prop :=
  (∀ k, is_Some (Grid.buckets g !! k) → is_Some (Grid.buckets g' !! k))
  ∧ Grid.freeBuckets g' `prefix_of` Grid.freeBuckets g
  ∧ (size (Grid.buckets g) + length (Grid.freeBuckets g)
     ≤ size (Grid.buckets g') + length (Grid.freeBuckets g'))%nat
  ∧ (Grid.freeBuckets g' ≠ [] →
     (size (Grid.buckets g') + length (Grid.freeBuckets g')
      = size (Grid.buckets g) + length (Grid.freeBuckets g))%nat).

(** The body neither enters nor leaves a cell of the bucket [k]: the
    cells with the bucket id [k] are inside the region of its bounds iff
    they are inside its recorded region, and a body without a recorded
    region has no such cell in the region of its bounds. *)
Definition stays (g : Grid.t) (h : Heap) (k : Z) (x : ref) : Prop :=
  ∀ c, cellId c = k →
    match Body.region (h x) with
    | Some r => inside c (regionOf g (h x)) ↔ inside c r
    | None => ¬ inside c (regionOf g (h x))
    end.

(** ** A second small world *)

Module Scene.

(** Two bodies [0] and [1] in the cell [(0, 0)] of the default grid; the
    other bodies are far outside the world. *)
Definition heap : Heap :=
  λ b, match b with
       | 0%nat | 1%nat => Demo.body b false (RegionSpec.box 0 0 40 40)
       | _ => Demo.body b false (RegionSpec.box (-1000) (-1000) (-900) (-900))
       end.

(** Body [0] is registered. *)
Definition registered : Grid.t * Heap :=
  Demo.result (Grid.update Demo.grid heap [0%nat] Demo.engine false).

(** The grid is cleared, and body [1] is registered without
    [forceUpdate]; body [0] keeps its recorded region. *)
Definition reused : Grid.t * Heap :=
  Demo.result (Grid.update (Grid.clear registered.1) registered.2 [1%nat]
                 Demo.engine false).

(** Body [1] moves to the cell [(2, 0)] and leaves the bucket of the cell
    [(0, 0)] empty. *)
Definition emptied : Grid.t * Heap :=
  Demo.result (Grid.update reused.1
                 (Demo.move reused.2 1%nat (RegionSpec.box 100 0 140 40))
                 [1%nat] Demo.engine false).

(** Body [0] moves to the cell [(2, 0)]. *)
Definition moved : Heap :=
  Demo.move emptied.2 0%nat (RegionSpec.box 100 0 140 40).

(** After the first update of the small world, body [0] moves inside its
    cells. *)
Definition jitter : Heap :=
  Demo.move Demo.first.2 0%nat (RegionSpec.box 1 1 100 40).

End Scene.

(** ** Buckets without repetition *)

(** No bucket holds a body twice, and the pooled arrays are empty. *)
Definition tidy (g : Grid.t) : Prop :=
  (∀ k bucket, Grid.buckets g !! k = Some bucket → NoDup bucket)
  ∧ (∀ bucket, bucket ∈ Grid.freeBuckets g → bucket = []).

(** The body is in no bucket but those of the cells of its recorded
    region; it may have lost some or all of them. *)
Definition confined (h : Heap) (g : Grid.t) (body : ref) : Prop :=
  ∀ k, body ∈ bucketAt g k → occupies h body k.

(** The buckets are tidy, every body is confined to the cells of its
    recorded region, and the recorded regions have exact bucket ids and
    rows in one window of the width of the stride. *)
Definition Orderly (lo : Z) (h : Heap) (g : Grid.t) : Prop :=
  tidy g
  ∧ (∀ body, confined h g body)
  ∧ (∀ body r, Body.region (h body) = Some r → rowsWithin lo r).

(** The states that are reached when the region slots are written by the
    grid only, the regions have exact bucket ids and rows in the window
    that starts at [lo], and [Grid.update] with [forceUpdate] is given
    each body once and only bodies that are in no bucket: a new grid
    with cell sizes that are not zero, with bodies that may carry a
    region; changes of the bodies by the
    collaborators, which may change ids, flags and bounds; [Grid.update]
    without [forceUpdate], also of bodies that lost their buckets in a
    clear; [Grid.clear]; and [Grid.update] with [forceUpdate]. *)
Inductive Regular (lo : Z) : Grid.t → Heap → Prop :=
| regular_create options h :
    (∀ x r, Body.region (h x) = Some r → rowsWithin lo r) →
    sized (Grid.create options) →
    Regular lo (Grid.create options) h
| regular_external g h h' :
    Regular lo g h →
    (∀ x, Body.region (h' x) = Body.region (h x)) →
    Regular lo g h'
| regular_update g h bodies engine g' h' :
    Regular lo g h →
    (∀ body, body ∈ bodies → fits lo engine false g h body) →
    Grid.update g h bodies engine false = Some (g', h') →
    Regular lo g' h'
| regular_clear g h :
    Regular lo g h → Regular lo (Grid.clear g) h
| regular_forced g h bodies engine g' h' :
    Regular lo g h →
    (∀ body, body ∈ bodies → fits lo engine true g h body) →
    NoDup bodies →
    allAbsent engine g h bodies →
    Grid.update g h bodies engine true = Some (g', h') →
    Regular lo g' h'.

(** ** Further small worlds *)

Module Cases.

(** Three bodies in the cell [(0, 0)] of the default grid; the other
    bodies are far outside the world. *)
Definition heap : Heap :=
  λ b, match b with
       | 0%nat | 1%nat | 2%nat => Demo.body b false (RegionSpec.box 0 0 40 40)
       | _ => Demo.body b false (RegionSpec.box (-1000) (-1000) (-900) (-900))
       end.

(** Body [0] is registered. *)
Definition registered : Grid.t * Heap :=
  Demo.result (Grid.update Demo.grid heap [0%nat] Demo.engine false).

(** The grid is cleared and rebuilt with the bodies [1] and [2] only;
    body [0] keeps its recorded region and is in no bucket. *)
Definition rebuilt : Grid.t * Heap :=
  Demo.result (Grid.update (Grid.clear registered.1) registered.2
                 [1%nat; 2%nat] Demo.engine true).

(** Body [0] moves to the cell [(2, 0)] and is updated without
    [forceUpdate]. *)
Definition dropped : Grid.t * Heap :=
  Demo.result (Grid.update rebuilt.1
                 (Demo.move rebuilt.2 0%nat (RegionSpec.box 100 0 140 40))
                 [0%nat] Demo.engine false).

(** The first update of the small world, with [forceUpdate] and with
    body [0] twice in the array of bodies. *)
Definition twice : Grid.t * Heap :=
  Demo.result (Grid.update Demo.grid Demo.heap [0%nat; 0%nat; 1%nat]
                 Demo.engine true).

(** A world that is wide and high enough for cells whose bucket ids are
    rounded or coincide. *)
Definition farEngine : Engine.t :=
  Engine.mk (World.mk (RegionSpec.box 0 (-100) 500000000 48000000000)).

(** Two bodies in the column [9007200] and the rows [0] and [1] of the
    default grid. *)
Definition farHeap : Heap :=
  λ b, match b with
       | 0%nat | 1%nat =>
           Demo.body b false (RegionSpec.box 432345605 0 432345610 50)
       | _ => Demo.body b false (RegionSpec.box (-1000) (-1000) (-900) (-900))
       end.

Definition far : Grid.t * Heap :=
  Demo.result (Grid.update Demo.grid farHeap [0%nat; 1%nat] farEngine false).

(** Body [0] in the cell [(0, 999999999)] and body [1] in the cell
    [(1, -1)] of the default grid. *)
Definition wrapHeap : Heap :=
  λ b, match b with
       | 0%nat =>
           Demo.body b false (RegionSpec.box 0 47999999960 10 47999999970)
       | 1%nat => Demo.body b false (RegionSpec.box 50 (-10) 60 (-5))
       | _ => Demo.body b false (RegionSpec.box (-1000) (-1000) (-900) (-900))
       end.

Definition wrap : Grid.t * Heap :=
  Demo.result (Grid.update Demo.grid wrapHeap [0%nat; 1%nat] farEngine false).

(** Body [0] covers the columns [0] and [1] and the rows [-1] to
    [999999999] of the default grid. *)
Definition tallHeap : Heap :=
  λ b, match b with
       | 0%nat => Demo.body b false (RegionSpec.box 0 (-10) 50 47999999960)
       | _ => Demo.body b false (RegionSpec.box (-1000) (-1000) (-900) (-900))
       end.

(** The small world with a third body that has the id of body [0] and
    the same bounds. *)
Definition sameIdHeap : Heap :=
  λ b, match b with
       | 2%nat => Demo.body 0%nat false (RegionSpec.box 0 0 100 40)
       | _ => Demo.heap b
       end.

Definition sameId : Grid.t * Heap :=
  Demo.result (Grid.update Demo.grid sameIdHeap [0%nat; 1%nat; 2%nat]
                 Demo.engine false).

(** The small world with the bodies [0] and [1] static. *)
Definition staticHeap : Heap :=
  λ b, match b with
       | 0%nat | 1%nat => Demo.body b true (RegionSpec.box 0 0 100 40)
       | _ => Demo.heap b
       end.

Definition static : Grid.t * Heap :=
  Demo.result (Grid.update Demo.grid staticHeap [0%nat; 1%nat]
                 Demo.engine false).

(** The collaborators make a body non-static. *)
Definition release (h : Heap) (b : ref) : Heap :=
  λ x, if decide (x = b)
       then Body.mk (Body.id (h x)) false (Body.isSleeping (h x))
                    (Body.bounds (h x)) (Body.region (h x))
       else h x.

(** After the first update of the small world the region slot of body
    [0] is overwritten, and the bodies are updated again. *)
Definition rewritten : Grid.t * Heap :=
  Demo.result (Grid.update Demo.first.1
                 (writeRegion Demo.first.2 0%nat (Region.mk 5 5 0 0))
                 [0%nat; 1%nat] Demo.engine false).

(** The small world with body [1] asleep. *)
Definition sleepyHeap : Heap :=
  λ b, match b with
       | 1%nat => Body.mk 2 false true (RegionSpec.box 0 0 100 40) None
       | _ => Demo.heap b
       end.

(** The first update skips body [1]. *)
Definition asleep : Grid.t * Heap :=
  Demo.result (Grid.update Demo.grid sleepyHeap [0%nat; 1%nat]
                 Demo.engine false).

(** The collaborators wake a body. *)
Definition wake (h : Heap) (b : ref) : Heap :=
  λ x, if decide (x = b)
       then Body.mk (Body.id (h x)) (Body.isStatic (h x)) false
                    (Body.bounds (h x)) (Body.region (h x))
       else h x.

(** Body [1] is awake in the second update. *)
Definition awake : Grid.t * Heap :=
  Demo.result (Grid.update asleep.1 (wake asleep.2 1%nat) [0%nat; 1%nat]
                 Demo.engine false).

(** A world in which body [0] is outside and body [1] is in the cell
    [(1, 0)]. *)
Definition enteringHeap : Heap :=
  λ b, match b with
       | 0%nat => Demo.body b false (RegionSpec.box (-500) 0 (-460) 40)
       | 1%nat => Demo.body b false (RegionSpec.box 50 0 90 40)
       | _ => Demo.body b false (RegionSpec.box (-1000) (-1000) (-900) (-900))
       end.

(** Body [1] is registered, body [0] is skipped. *)
Definition outside : Grid.t * Heap :=
  Demo.result (Grid.update Demo.grid enteringHeap [0%nat; 1%nat]
                 Demo.engine false).

(** The grid is cleared; body [0] enters the world in the cell [(1, 0)]
    and body [1], which kept its recorded region, moves to the cell
    [(3, 0)]. *)
Definition enteredHeap : Heap :=
  Demo.move (Demo.move outside.2 0%nat (RegionSpec.box 50 0 90 40))
            1%nat (RegionSpec.box 150 0 190 40).

Definition entered : Grid.t * Heap :=
  Demo.result (Grid.update (Grid.clear outside.1) enteredHeap
                 [0%nat; 1%nat] Demo.engine false).

(** After body [0] of the small world has left the world, it comes back
    into the cells [(1, 0)] and [(2, 0)]. *)
Definition backHeap : Heap :=
  Demo.move Demo.gone.2 0%nat (RegionSpec.box 50 0 100 40).

Definition back : Grid.t * Heap :=
  Demo.result (Grid.update Demo.gone.1 backHeap [0%nat; 1%nat; 2%nat]
                 Demo.engine false).

End Cases.

(** * Proofs *)

(** ** Numbers *)

Section NumberFacts.

Import Number.

Local Open Scope Q_scope.

Lemma pow2_pos (e : Z) : 0 < pow2 e.
Proof. apply Qpower_0_lt. reflexivity. Qed.

Lemma pow2_nonzero (e : Z) : ¬ pow2 e == 0.
Proof. intros H. pose proof (pow2_pos e) as Hpos. rewrite H in Hpos. by apply Qlt_irrefl in Hpos. Qed.

Lemma pow2_le (x y : Z) : (x <= y)%Z → pow2 x <= pow2 y.
Proof. intros Hle. apply Qpower_le_compat_l; [done|discriminate]. Qed.

Lemma pow2_lt (x y : Z) : (x < y)%Z → pow2 x < pow2 y.
Proof. intros Hlt. apply Qpower_lt_compat_l; [done|reflexivity]. Qed.

Lemma pow2_lt_inv (x y : Z) : pow2 x < pow2 y → (x < y)%Z.
Proof. intros Hlt. by apply (Qpower_lt_compat_l_inv 2); [|reflexivity]. Qed.

Lemma pow2_plus (x y : Z) : pow2 (x + y) == pow2 x * pow2 y.
Proof. apply Qpower_plus. discriminate. Qed.

Lemma pow2_Z (n : Z) : (0 <= n)%Z → pow2 n == inject_Z (2 ^ n).
Proof. intros Hn. unfold pow2. by rewrite (Zpower_Qpower 2 n Hn). Qed.

(** A power of two is a multiple of every smaller power of two. *)
Lemma pow2_multiple (p x : Z) :
  (p <= x)%Z → pow2 x == inject_Z (2 ^ (x - p)) * pow2 p.
Proof.
  intros Hle. rewrite <- pow2_Z by lia. rewrite <- pow2_plus.
  by replace (x - p + p)%Z with x by lia.
Qed.

(** The exponent: [2 ^ ilog2 q <= q < 2 ^ (ilog2 q + 1)]. *)
Lemma ilog2_spec (q : Q) :
  0 < q → pow2 (ilog2 q) <= q ∧ q < pow2 (ilog2 q + 1).
Proof.
  intros Hpos. destruct q as [n d]. unfold ilog2. cbn [Qnum Qden].
  assert (Hn : (0 < n)%Z).
  { unfold Qlt in Hpos. cbn in Hpos. lia. }
  set (ln := Z.log2 n). set (ld := Z.log2 (Z.pos d)).
  destruct (Z.log2_spec n Hn) as [Hn0 Hn1]. fold ln in Hn0, Hn1.
  destruct (Z.log2_spec (Z.pos d) eq_refl) as [Hd0 Hd1]. fold ld in Hd0, Hd1.
  assert (Hln : (0 <= ln)%Z) by apply Z.log2_nonneg.
  assert (Hld : (0 <= ld)%Z) by apply Z.log2_nonneg.
  assert (Hq : n # d == inject_Z n / inject_Z (Z.pos d)) by apply Qmake_Qdiv.
  assert (Hdpos : 0 < inject_Z (Z.pos d)) by (unfold Qlt; cbn; lia).
  (* 2^(ln - ld - 1) < q < 2^(ln - ld + 1) *)
  assert (Hlow : pow2 (ln - ld - 1) < n # d).
  { rewrite Hq. apply Qlt_shift_div_l; [done|].
    apply (Qlt_le_trans _ (pow2 (ln - ld - 1) * pow2 (ld + 1))).
    2: { rewrite <- pow2_plus. replace (ln - ld - 1 + (ld + 1))%Z with ln by lia.
         rewrite pow2_Z by done. rewrite <- Zle_Qle. done. }
    rewrite (pow2_Z (ld + 1)) by lia.
    assert (inject_Z (Z.pos d) < inject_Z (2 ^ (ld + 1))) as Hlt
      by (rewrite <- Zlt_Qlt; replace (ld + 1)%Z with (Z.succ ld) by lia; done).
    rewrite !(Qmult_comm (pow2 (ln - ld - 1))).
    apply Qmult_lt_compat_r; [apply pow2_pos|done]. }
  assert (Hhigh : n # d < pow2 (ln - ld + 1)).
  { rewrite Hq. apply Qlt_shift_div_r; [done|].
    apply (Qlt_le_trans _ (pow2 (ln - ld + 1) * pow2 ld)).
    - rewrite <- pow2_plus. replace (ln - ld + 1 + ld)%Z with (ln + 1)%Z by lia.
      rewrite pow2_Z by lia. rewrite <- Zlt_Qlt.
      replace (ln + 1)%Z with (Z.succ ln) by lia. done.
    - rewrite !(Qmult_comm (pow2 (ln - ld + 1))).
      apply Qmult_le_compat_r; [|apply Qlt_le_weak, pow2_pos].
      rewrite pow2_Z by done. by rewrite <- Zle_Qle. }
  destruct (Qle_bool (pow2 (ln - ld)) (n # d)) eqn:Hcmp.
  - apply Qle_bool_iff in Hcmp. done.
  - assert (Hlt : n # d < pow2 (ln - ld)).
    { apply Qnot_le_lt. intros Hle. apply Qle_bool_iff in Hle. congruence. }
    split; [by apply Qlt_le_weak|].
    by replace (ln - ld - 1 + 1)%Z with (ln - ld)%Z by lia.
Qed.

Lemma ilog2_le (a b : Q) : 0 < a → a <= b → (ilog2 a <= ilog2 b)%Z.
Proof.
  intros Ha Hab.
  assert (Hb : 0 < b) by (by eapply Qlt_le_trans).
  destruct (ilog2_spec a Ha) as [Ha0 _], (ilog2_spec b Hb) as [_ Hb1].
  assert (pow2 (ilog2 a) < pow2 (ilog2 b + 1)) as Hlt.
  { eapply Qle_lt_trans; [exact Ha0|]. by eapply Qle_lt_trans. }
  apply pow2_lt_inv in Hlt. lia.
Qed.

(** Rounding to the nearest integer. *)
Lemma nearestEven_bounds (s : Q) :
  (Qfloor s <= nearestEven s <= Qfloor s + 1)%Z.
Proof.
  unfold nearestEven. destruct (_ ?= _); [destruct (Z.even _)|..]; lia.
Qed.

Lemma nearestEven_Z (n : Z) : nearestEven (inject_Z n) = n.
Proof.
  unfold nearestEven. rewrite Qfloor_Z.
  assert (inject_Z n - inject_Z n == 0) as Hz by ring.
  by rewrite Hz.
Qed.

Lemma nearestEven_comp (s t : Q) : s == t → nearestEven s = nearestEven t.
Proof.
  intros Heq. unfold nearestEven. rewrite (Qfloor_comp s t Heq).
  by rewrite Heq.
Qed.

Lemma nearestEven_le (s t : Q) : s <= t → (nearestEven s <= nearestEven t)%Z.
Proof.
  intros Hle. pose proof (Qfloor_resp_le s t Hle) as Hfloor.
  pose proof (nearestEven_bounds s) as Hs.
  pose proof (nearestEven_bounds t) as Ht.
  destruct (Z.eq_dec (Qfloor s) (Qfloor t)) as [Heq|Hne]; [|lia].
  unfold nearestEven. rewrite <- Heq.
  destruct (Qcompare_spec (s - inject_Z (Qfloor s)) (1 # 2)) as [Hs1|Hs1|Hs1],
           (Qcompare_spec (t - inject_Z (Qfloor s)) (1 # 2)) as [Ht1|Ht1|Ht1];
    try (destruct (Z.even _)); try lia; exfalso; lra.
Qed.

Lemma roundAt_le (p : Z) (a b : Q) :
  a <= b →
  inject_Z (nearestEven (a / pow2 p)) * pow2 p
  <= inject_Z (nearestEven (b / pow2 p)) * pow2 p.
Proof.
  intros Hle. pose proof (pow2_pos p) as Hp.
  apply Qmult_le_compat_r; [|by apply Qlt_le_weak].
  rewrite <- Zle_Qle. apply nearestEven_le.
  unfold Qdiv. apply Qmult_le_compat_r; [done|].
  apply Qlt_le_weak. by apply Qinv_lt_0_compat.
Qed.

Lemma roundAt_fix (p k : Z) :
  inject_Z (nearestEven (inject_Z k * pow2 p / pow2 p)) * pow2 p
  == inject_Z k * pow2 p.
Proof.
  rewrite (nearestEven_comp _ (inject_Z k)), nearestEven_Z; [done|].
  apply Qdiv_mult_l. apply pow2_nonzero.
Qed.

Lemma roundPos_nonneg (a : Q) : 0 < a → 0 <= roundPos a.
Proof.
  intros Ha. unfold roundPos.
  set (p := (Z.max (ilog2 a) (-1022) - 52)%Z).
  pose proof (pow2_pos p) as Hp.
  apply Qmult_le_0_compat; [|by apply Qlt_le_weak].
  change 0 with (inject_Z 0). rewrite <- Zle_Qle.
  pose proof (nearestEven_bounds (a / pow2 p)) as [Hlow _].
  assert (0 <= Qfloor (a / pow2 p))%Z; [|lia].
  change 0%Z with (Qfloor 0). apply Qfloor_resp_le.
  apply Qle_shift_div_l; [done|]. lra.
Qed.

Lemma roundPos_le (a b : Q) : 0 < a → a <= b → roundPos a <= roundPos b.
Proof.
  intros Ha Hab.
  assert (Hb : 0 < b) by lra.
  pose proof (ilog2_le a b Ha Hab) as Hlog.
  destruct (ilog2_spec a Ha) as [_ Ha1], (ilog2_spec b Hb) as [Hb0 _].
  unfold roundPos.
  set (ea := Z.max (ilog2 a) (-1022)). set (eb := Z.max (ilog2 b) (-1022)).
  destruct (Z.eq_dec ea eb) as [Heq|Hne].
  { rewrite <- Heq. by apply roundAt_le. }
  assert (Hlt : (ea + 1 <= eb)%Z) by lia.
  assert (Heb : eb = ilog2 b) by lia.
  (* [a < 2 ^ (ea + 1) <= 2 ^ eb <= b], and both powers are on the grids *)
  apply (Qle_trans _ (pow2 (ea + 1))).
  - rewrite (pow2_multiple (ea - 52) (ea + 1)) by lia.
    rewrite <- (roundAt_fix (ea - 52) (2 ^ (ea + 1 - (ea - 52)))).
    apply roundAt_le.
    rewrite <- (pow2_multiple (ea - 52) (ea + 1)) by lia.
    apply Qlt_le_weak. eapply Qlt_le_trans; [exact Ha1|].
    apply pow2_le. lia.
  - apply (Qle_trans _ (pow2 eb)); [apply pow2_le; lia|].
    rewrite (pow2_multiple (eb - 52) eb) at 1 by lia.
    rewrite <- (roundAt_fix (eb - 52) (2 ^ (eb - (eb - 52)))).
    apply roundAt_le.
    rewrite <- (pow2_multiple (eb - 52) eb) by lia.
    by rewrite Heb.
Qed.

(** The sign of a number, read off its reduced form. *)
Lemma Qred_sign (q : Q) :
  match Qnum (Qred q) with
  | Z0 => q == 0
  | Zpos _ => 0 < q
  | Zneg _ => q < 0
  end.
Proof.
  pose proof (Qred_correct q) as Hred.
  destruct (Qred q) as [n d] eqn:Hq. cbn [Qnum].
  destruct n; rewrite <- Hred; unfold Qeq, Qlt; cbn; lia.
Qed.

Lemma round_comp (a b : Q) : a == b → round a = round b.
Proof. intros Heq. unfold round. by rewrite (Qred_complete a b Heq). Qed.

(** Rounding is monotone. *)
Lemma round_le (a b : Q) : a <= b → round a <= round b.
Proof.
  intros Hab. unfold round.
  pose proof (Qred_sign a) as Hsa. pose proof (Qred_sign b) as Hsb.
  pose proof (Qred_correct a) as Hra. pose proof (Qred_correct b) as Hrb.
  destruct (Qnum (Qred a)), (Qnum (Qred b)); try lra.
  - apply roundPos_nonneg. lra.
  - apply roundPos_le; lra.
  - pose proof (roundPos_nonneg (- Qred a)). lra.
  - pose proof (roundPos_nonneg (- Qred a)).
    pose proof (roundPos_nonneg (Qred b)). lra.
  - assert (roundPos (- Qred b) <= roundPos (- Qred a)); [|lra].
    apply roundPos_le; lra.
Qed.

Lemma Qred_inject_Z (z : Z) : Qred (inject_Z z) = inject_Z z.
Proof.
  unfold inject_Z, Qred.
  pose proof (Z.ggcd_gcd z 1) as Hg.
  pose proof (Z.ggcd_correct_divisors z 1) as Hd.
  destruct (Z.ggcd z 1) as [g [qq rr]]. cbn [fst snd] in *.
  rewrite Z.gcd_1_r in Hg. subst g. destruct Hd as [-> Hr].
  assert (rr = 1%Z) as -> by lia. f_equal. lia.
Qed.

(** Integers below [2 ^ 53] in magnitude are doubles. *)
Lemma roundPos_Z (z : Z) :
  (0 < z < 2 ^ 53)%Z → roundPos (inject_Z z) == inject_Z z.
Proof.
  intros [Hpos Hsmall].
  assert (Hq : 0 < inject_Z z) by (change 0 with (inject_Z 0); by rewrite <- Zlt_Qlt).
  destruct (ilog2_spec (inject_Z z) Hq) as [Hlow Hhigh].
  set (e := ilog2 (inject_Z z)) in *.
  assert (He : (0 <= e <= 52)%Z).
  { split.
    - assert (pow2 0 < pow2 (e + 1)) as Hlt.
      { eapply Qle_lt_trans; [|exact Hhigh].
        change (pow2 0) with (inject_Z 1). rewrite <- Zle_Qle. lia. }
      apply pow2_lt_inv in Hlt. lia.
    - assert (pow2 e < pow2 53) as Hlt.
      { eapply Qle_lt_trans; [exact Hlow|].
        rewrite (pow2_Z 53) by lia. by rewrite <- Zlt_Qlt. }
      apply pow2_lt_inv in Hlt. lia. }
  unfold roundPos. fold e. rewrite Z.max_l by lia.
  set (p := (e - 52)%Z).
  assert (Hgrid : inject_Z z == inject_Z (z * 2 ^ (- p)) * pow2 p).
  { rewrite inject_Z_mult, <- (pow2_Z (- p)) by lia.
    rewrite <- Qmult_assoc, <- pow2_plus.
    replace (- p + p)%Z with 0%Z by lia. change (pow2 0) with 1. ring. }
  rewrite (nearestEven_comp _ (inject_Z (z * 2 ^ (- p)) * pow2 p / pow2 p)).
  - rewrite roundAt_fix. by rewrite <- Hgrid.
  - by rewrite <- Hgrid.
Qed.

Lemma round_Z (z : Z) :
  (Z.abs z < 2 ^ 53)%Z → round (inject_Z z) == inject_Z z.
Proof.
  intros Hsmall. unfold round. rewrite Qred_inject_Z.
  destruct z as [|n|n]; cbn [Qnum inject_Z].
  - done.
  - apply (roundPos_Z (Z.pos n)). lia.
  - change (- (Z.neg n # 1)) with (inject_Z (Z.pos n)).
    rewrite (roundPos_Z (Z.pos n)) by lia. done.
Qed.

End NumberFacts.

(** ** Region computation *)

Lemma Qfloor_cellOf (v size : Q) :
  (0 < size)%Q → RegionSpec.cellOf (Qfloor (v / size)) v size.
Proof.
  intros Hpos.
  assert (Hnz : ¬ (size == 0)%Q).
  { intros E. rewrite E in Hpos. by apply Qlt_irrefl in Hpos. }
  split.
  - rewrite <- (Qmult_div_r v size Hnz) at 2.
    rewrite (Qmult_comm size).
    apply Qmult_le_compat_r; [apply Qfloor_le | by apply Qlt_le_weak].
  - rewrite <- (Qmult_div_r v size Hnz) at 1.
    rewrite (Qmult_comm size).
    apply Qmult_lt_compat_r; [done | apply Qlt_floor].
Qed.

Lemma cellOf_unique (n m : Z) (v size : Q) :
  (0 < size)%Q → RegionSpec.cellOf n v size → RegionSpec.cellOf m v size → n = m.
Proof.
  intros Hpos [Hn1 Hn2] [Hm1 Hm2].
  assert (Hlt : ∀ a b : Z,
    (inject_Z a * size < inject_Z (b + 1) * size)%Q → (a < b + 1)%Z).
  { intros a b Hab. apply Qmult_lt_r in Hab; [|done].
    by rewrite <- Zlt_Qlt in Hab. }
  assert (n < m + 1)%Z by (apply Hlt; eapply Qle_lt_trans; eauto).
  assert (m < n + 1)%Z by (apply Hlt; eapply Qle_lt_trans; eauto).
  lia.
Qed.

(** The floor of an exact quotient is the index of the cell that
    contains the coordinate, and no other integer is. *)
Lemma cellOf_exact (v size : Q) (n : Z) :
  (0 < size)%Q → RegionSpec.exact v size →
  RegionSpec.cellOf n v size ↔ n = Qfloor (Number.div v size).
Proof.
  intros Hpos Hexact. rewrite (Qfloor_comp _ _ Hexact). split.
  - intros Hn. eapply cellOf_unique; eauto. by apply Qfloor_cellOf.
  - intros ->. by apply Qfloor_cellOf.
Qed.

(** Rounding moves the floor of a number by at most one, upwards. *)
Lemma Qfloor_round (q : Q) :
  Z.abs (Qfloor q) < 2 ^ 53 - 1 →
  Qfloor q <= Qfloor (Number.round q) <= Qfloor q + 1.
Proof.
  intros Hsmall. split.
  - rewrite <- (Qfloor_Z (Qfloor q)) at 1. apply Qfloor_resp_le.
    rewrite <- (round_Z (Qfloor q)) by lia.
    apply round_le. apply Qfloor_le.
  - rewrite <- (Qfloor_Z (Qfloor q + 1)). apply Qfloor_resp_le.
    rewrite <- (round_Z (Qfloor q + 1)) by lia.
    apply round_le. apply Qlt_le_weak. apply Qlt_floor.
Qed.

(** C4. [Grid._getRegion] is the pure floor-division function of the bounds
    and the cell size, in the numbers of the program: for cell sizes that
    are not zero and quotients that are finite it is the spec's
    [computeRegion], whatever the scratch region and the rest of the grid
    hold; each of the four results is the floor of the exact quotient or,
    when the division rounds the quotient up to an integer, one more; for a
    positive cell size and a quotient that the division gives exactly,
    the result is the index of the cell that contains the coordinate, and
    no other integer is; bounds [{minX:0, maxX:47, minY:0, maxY:47}] with
    cells of 48 x 48 give the region [{0, 0, 0, 0}], and [{minX:47,
    maxX:49}] gives [endCol = 1]. *)
Theorem getRegion_floor_division :
  (∀ (grid : Grid.t) (region : Region.t) (body : Body.t),
     finiteRegion grid body →
     let r := Grid._getRegion grid region body in
     let b := Body.bounds body in
     let w := Grid.bucketWidth grid in
     let ht := Grid.bucketHeight grid in
     r = RegionSpec.computeRegion b w ht
     ∧ (Z.abs (Qfloor (Vector.x (Bounds.min b) / w)) < 2 ^ 53 - 1 →
        RegionSpec.nearFloor (Region.startCol r) (Vector.x (Bounds.min b)) w)
     ∧ (Z.abs (Qfloor (Vector.x (Bounds.max b) / w)) < 2 ^ 53 - 1 →
        RegionSpec.nearFloor (Region.endCol r) (Vector.x (Bounds.max b)) w)
     ∧ (Z.abs (Qfloor (Vector.y (Bounds.min b) / ht)) < 2 ^ 53 - 1 →
        RegionSpec.nearFloor (Region.startRow r) (Vector.y (Bounds.min b)) ht)
     ∧ (Z.abs (Qfloor (Vector.y (Bounds.max b) / ht)) < 2 ^ 53 - 1 →
        RegionSpec.nearFloor (Region.endRow r) (Vector.y (Bounds.max b)) ht))
  ∧ (∀ (grid : Grid.t) (region : Region.t) (body : Body.t),
       finiteRegion grid body →
       (0 < Grid.bucketWidth grid)%Q → (0 < Grid.bucketHeight grid)%Q →
       let r := Grid._getRegion grid region body in
       let b := Body.bounds body in
       let w := Grid.bucketWidth grid in
       let ht := Grid.bucketHeight grid in
       (RegionSpec.exact (Vector.x (Bounds.min b)) w →
        ∀ n, RegionSpec.cellOf n (Vector.x (Bounds.min b)) w
             ↔ n = Region.startCol r)
       ∧ (RegionSpec.exact (Vector.x (Bounds.max b)) w →
          ∀ n, RegionSpec.cellOf n (Vector.x (Bounds.max b)) w
               ↔ n = Region.endCol r)
       ∧ (RegionSpec.exact (Vector.y (Bounds.min b)) ht →
          ∀ n, RegionSpec.cellOf n (Vector.y (Bounds.min b)) ht
               ↔ n = Region.startRow r)
       ∧ (RegionSpec.exact (Vector.y (Bounds.max b)) ht →
          ∀ n, RegionSpec.cellOf n (Vector.y (Bounds.max b)) ht
               ↔ n = Region.endRow r))
  ∧ (∀ (region : Region.t) (body : Body.t),
       Body.bounds body = RegionSpec.box 0 0 47 47 →
       Grid._getRegion (Grid.create (Grid.mkOptions None None)) region body
       = Region.mk 0 0 0 0)
  ∧ (∀ (region : Region.t) (body : Body.t) (y0 y1 : Z),
       Body.bounds body = RegionSpec.box 47 y0 49 y1 →
       Region.endCol
         (Grid._getRegion (Grid.create (Grid.mkOptions None None)) region body)
       = 1).
Proof.
  split; [|split].
  - intros grid region body _ r b w ht. split; [done|].
    split; [|split; [|split]]; intros Hsmall; by apply Qfloor_round.
  - intros grid region body _ Hw Hh r b w ht.
    split; [|split; [|split]]; intros Hexact k; by apply cellOf_exact.
  - split.
    + intros region body Hb. unfold Grid._getRegion. rewrite Hb.
      vm_compute. reflexivity.
    + intros region body y0 y1 Hb. unfold Grid._getRegion. rewrite Hb.
      cbn [Region.endCol RegionSpec.box Bounds.max Vector.x].
      vm_compute. reflexivity.
Qed.

(** The region of a body with bounds [{0, 0, 24, 24}] in the default
    grid: the quotients are finite, the quotient [24 / 48] is exact, and
    [0] is the cell that contains the coordinate [24]. *)
Lemma getRegion_floor_division_witness :
  let grid := Grid.create (Grid.mkOptions None None) in
  let body := Body.mk 1 false false (RegionSpec.box 0 0 24 24) None in
  finiteRegion grid body
  ∧ (0 < Grid.bucketWidth grid)%Q ∧ (0 < Grid.bucketHeight grid)%Q
  ∧ RegionSpec.exact (24 # 1) (48 # 1)
  ∧ Grid._getRegion grid (Grid._current grid) body = Region.mk 0 0 0 0
  ∧ RegionSpec.cellOf 0 (24 # 1) (48 # 1)
  ∧ RegionSpec.nearFloor 0 (24 # 1) (48 # 1).
Proof.
  intros grid body.
  assert (Hfinite : finiteRegion grid body).
  { repeat split; try (by intros ?); by vm_compute. }
  assert (Hw : (0 < Grid.bucketWidth grid)%Q) by reflexivity.
  assert (Hh : (0 < Grid.bucketHeight grid)%Q) by reflexivity.
  assert (Hexact : RegionSpec.exact (24 # 1) (48 # 1))
    by (vm_compute; reflexivity).
  assert (Hregion : Grid._getRegion grid (Grid._current grid) body
                    = Region.mk 0 0 0 0) by (vm_compute; reflexivity).
  split; [exact Hfinite|].
  split; [exact Hw|]. split; [exact Hh|]. split; [exact Hexact|].
  split; [exact Hregion|].
  destruct getRegion_floor_division as (Hnear & Hfloor & _).
  split.
  - destruct (Hfloor grid (Grid._current grid) body Hfinite Hw Hh)
      as (_ & Hend & _).
    apply (Hend Hexact 0). rewrite Hregion. reflexivity.
  - destruct (Hnear grid (Grid._current grid) body Hfinite)
      as (_ & _ & Hend & _).
    rewrite Hregion in Hend. apply Hend. by vm_compute.
Defined.

(** The quotient is rounded before the floor is taken: with cells of the
    width [0.1] (the double nearest to it) the coordinate [0.5] lies in
    the column [5], while the floor of the exact quotient is [4]. *)
Lemma getRegion_rounds_the_quotient :
  let tenth := Number.round (1 # 10) in
  let grid := Grid.create (Grid.mkOptions (Some tenth) None) in
  let body := Body.mk 1 false false
                (Bounds.mk (Vector.mk (1 # 2) 0) (Vector.mk (1 # 2) 0)) None in
  (tenth == 3602879701896397 # 36028797018963968)%Q
  ∧ Region.startCol (Grid._getRegion grid (Grid._current grid) body) = 5
  ∧ Qfloor ((1 # 2) / tenth) = 4.
Proof. vm_compute. repeat split; reflexivity. Qed.

(** ** Bucket identifiers *)

(** The bucket id of a cell with a column of at most [maxColumn] and a
    row below the stride in magnitude is computed without rounding. *)
Lemma getBucketId_exact (column row : Z) :
  Z.abs column <= maxColumn → Z.abs row < stride →
  Grid._getBucketId column row = column * stride + row.
Proof.
  unfold maxColumn, stride. intros Hcol Hrow.
  unfold Grid._getBucketId, Number.add, Number.mul.
  assert (Hmul : (Number.round (inject_Z column * 1000000000)
                  == inject_Z (column * 1000000000))%Q).
  { rewrite (round_comp _ (inject_Z (column * 1000000000))).
    - apply round_Z. lia.
    - by rewrite inject_Z_mult. }
  rewrite (round_comp _ (inject_Z (column * 1000000000 + row))).
  - rewrite (Qfloor_comp _ (inject_Z (column * 1000000000 + row))).
    + apply Qfloor_Z.
    + apply round_Z. lia.
  - by rewrite Hmul, inject_Z_plus.
Qed.

(** Two cells with exact bucket ids whose rows differ by less than the
    stride and that get the same bucket id are the same cell. *)
Lemma getBucketId_inj (col1 row1 col2 row2 : Z) :
  Z.abs col1 <= maxColumn → Z.abs col2 <= maxColumn →
  Z.abs row1 < stride → Z.abs row2 < stride →
  Z.abs (row1 - row2) < stride →
  Grid._getBucketId col1 row1 = Grid._getBucketId col2 row2 →
  col1 = col2 ∧ row1 = row2.
Proof.
  intros Hc1 Hc2 Hr1 Hr2 Hrows.
  rewrite !getBucketId_exact by done. unfold stride in *. lia.
Qed.

(** C9, as stated, fails, in two ways.  The cells [(0, 999999999)] and
    [(1, -1)] have coordinates below the stride in magnitude, are distinct
    and get the same bucket id: a row of the other sign reaches into the
    next column.  The cells [(9007200, 0)] and [(9007200, 1)] get the same
    bucket id too: the id is a double, and above [2 ^ 53] the sum is
    rounded.  The column [9007199] is the first one with such a collision,
    of the rows [254740992] and [254740993]. *)
Lemma getBucketId_collision :
  (let '(col1, row1, col2, row2) := (0, 999999999, 1, -1) in
   Z.abs col1 < 1000000000 ∧ Z.abs row1 < 1000000000
   ∧ Z.abs col2 < 1000000000 ∧ Z.abs row2 < 1000000000
   ∧ (col1, row1) ≠ (col2, row2)
   ∧ Grid._getBucketId col1 row1 = Grid._getBucketId col2 row2)
  ∧ (let '(col1, row1, col2, row2) := (9007200, 0, 9007200, 1) in
     Z.abs col1 < 1000000000 ∧ Z.abs row1 < 1000000000
     ∧ Z.abs col2 < 1000000000 ∧ Z.abs row2 < 1000000000
     ∧ (col1, row1) ≠ (col2, row2)
     ∧ Grid._getBucketId col1 row1 = Grid._getBucketId col2 row2)
  ∧ Grid._getBucketId 9007199 254740992
    = Grid._getBucketId 9007199 254740993.
Proof.
  split; [|split].
  - repeat split; try done; by vm_compute.
  - repeat split; try done; by vm_compute.
  - by vm_compute.
Qed.

(** C9, amended. The cell identifier [column * 1000000000 + row] is
    injective on the cells with [|column| <= 9007198] and
    [|row| < 1000000000] whose rows differ by less than the stride, in
    particular on those with [0 <= row < 1000000000]: two distinct such
    cells get distinct bucket ids. *)
Theorem getBucketId_injective_within_stride (col1 row1 col2 row2 : Z) :
  Z.abs col1 <= 9007198 → Z.abs col2 <= 9007198 →
  Z.abs row1 < 1000000000 → Z.abs row2 < 1000000000 →
  Z.abs (row1 - row2) < 1000000000 →
  (col1, row1) ≠ (col2, row2) →
  Grid._getBucketId col1 row1 ≠ Grid._getBucketId col2 row2.
Proof.
  intros Hc1 Hc2 Hr1 Hr2 Hrows Hne Heq. apply Hne.
  destruct (getBucketId_inj col1 row1 col2 row2) as [-> ->]; done.
Qed.

Lemma getBucketId_injective_within_stride_witness :
  Grid._getBucketId 9007198 999999999 ≠ Grid._getBucketId 9007198 0
  ∧ Grid._getBucketId 0 999999999 ≠ Grid._getBucketId 1 0.
Proof.
  split; apply getBucketId_injective_within_stride;
    try (by vm_compute); discriminate.
Defined.

(** ** Extraction of the active pairs *)

Section Extraction.

(** The loop of the extraction over a list of entries with distinct
    keys: the records with a positive count are appended, the others are
    deleted from the table. *)
Lemma foldl_extractPair (entries : list (Pair.Id * Pair.t)) (grid : Grid.t) :
  let grid' := foldl Grid.extractPair grid entries in
  Grid.pairsList grid' = Grid.pairsList grid ++ (filter active entries).*1
  ∧ (∀ k, Grid.pairs grid' !! k
          = if decide (k ∈ (filter (λ e, ¬ active e) entries).*1)
            then None else Grid.pairs grid !! k)
  ∧ Grid.buckets grid' = Grid.buckets grid
  ∧ Grid.freeBuckets grid' = Grid.freeBuckets grid
  ∧ Grid.bucketWidth grid' = Grid.bucketWidth grid
  ∧ Grid.bucketHeight grid' = Grid.bucketHeight grid
  ∧ Grid._union grid' = Grid._union grid
  ∧ Grid._current grid' = Grid._current grid.
Proof.
  revert grid. induction entries as [|[key record] entries IH]; intros grid.
  - cbn. rewrite app_nil_r. repeat split; done.
  - cbn zeta. cbn [foldl].
    specialize (IH (Grid.extractPair grid (key, record))).
    cbn zeta in IH.
    destruct IH as (Hlist & Hpairs & Hb & Hf & Hw & Hh & Hu & Hc).
    rewrite Hlist, Hb, Hf, Hw, Hh, Hu, Hc. clear Hlist Hb Hf Hw Hh Hu Hc.
    unfold Grid.extractPair in *.
    rewrite filter_cons. rewrite (filter_cons (λ e, ¬ active e)).
    destruct (Z.ltb_spec 0 (Pair.count record)) as [Hpos|Hneg].
    + assert (Hact : active (key, record)) by done.
      rewrite (decide_True (P := active (key, record))) by done.
      rewrite (decide_False (P := ¬ active (key, record))) by tauto.
      simpl. rewrite <- app_assoc. repeat split; try done.
    + assert (Hact : ¬ active (key, record)) by (unfold active; simpl; lia).
      rewrite (decide_False (P := active (key, record))) by done.
      rewrite (decide_True (P := ¬ active (key, record))) by done.
      simpl. repeat split; try done.
      intros k. rewrite Hpairs. simpl.
      destruct (decide (k = key)) as [->|Hne].
      * rewrite lookup_delete_eq.
        rewrite (decide_True (P := key ∈ key :: _)) by (apply elem_of_cons; by left).
        by case_decide.
      * rewrite lookup_delete_ne by done.
        destruct (decide (k ∈ _)) as [Hin|Hnin].
        -- rewrite decide_True; [done|]. apply elem_of_cons. by right.
        -- rewrite decide_False; [done|]. rewrite elem_of_cons. tauto.
Qed.

(** What [Grid._createActivePairsList] computes. *)
Lemma createActivePairsList_spec (grid : Grid.t) :
  let grid' := Grid._createActivePairsList grid in
  Grid.pairsList grid'
    = (filter active (map_to_list (Grid.pairs grid))).*1
  ∧ Grid.pairs grid' = filter active (Grid.pairs grid)
  ∧ Grid.buckets grid' = Grid.buckets grid
  ∧ Grid.freeBuckets grid' = Grid.freeBuckets grid
  ∧ Grid.bucketWidth grid' = Grid.bucketWidth grid
  ∧ Grid.bucketHeight grid' = Grid.bucketHeight grid
  ∧ Grid._union grid' = Grid._union grid
  ∧ Grid._current grid' = Grid._current grid.
Proof.
  unfold Grid._createActivePairsList, Common.entries.
  destruct (foldl_extractPair (map_to_list (Grid.pairs grid))
              (Grid.set_pairsList [] grid))
    as (Hlist & Hpairs & Hrest).
  split; [by rewrite Hlist|]. split; [|exact Hrest].
  apply map_eq. intros k. rewrite Hpairs. simpl.
  destruct (Grid.pairs grid !! k) as [record|] eqn:Hk.
  - case_decide as Hin.
    + apply list_elem_of_fmap in Hin as ([k' record'] & -> & Hin).
      apply list_elem_of_filter in Hin as [Hna Hin].
      apply elem_of_map_to_list in Hin. simpl in *.
      symmetry. apply map_lookup_filter_None. right.
      intros record'' Hk'' Hact. simplify_eq. done.
    + symmetry. destruct (decide (active (k, record))) as [Hact|Hna].
      * by apply map_lookup_filter_Some.
      * exfalso. apply Hin. apply list_elem_of_fmap.
        exists (k, record). split; [done|].
        apply list_elem_of_filter. split; [done|].
        by apply elem_of_map_to_list.
  - assert (filter active (Grid.pairs grid) !! k = None) as ->.
    { apply map_lookup_filter_None. by left. }
    by case_decide.
Qed.

End Extraction.

(** C5. The extraction of the active pairs truncates the output sequence
    and visits every entry of the pair table once: an entry is appended to
    the output iff its shared-cell-count is positive and deleted from the
    table iff its count is [<= 0]; nothing else gets into the output, so the
    output lists the records with a positive count, each once, and after
    the extraction the table holds exactly those records. *)
Theorem createActivePairsList_extracts (grid : Grid.t) :
  let grid' := Grid._createActivePairsList grid in
  (∀ key record, Grid.pairs grid !! key = Some record →
     (key ∈ Grid.pairsList grid' ↔ 0 < Pair.count record)
     ∧ (Grid.pairs grid' !! key = None ↔ Pair.count record <= 0)
     ∧ (0 < Pair.count record → Grid.pairs grid' !! key = Some record))
  ∧ (∀ key, key ∈ Grid.pairsList grid' → is_Some (Grid.pairs grid !! key))
  ∧ NoDup (Grid.pairsList grid')
  ∧ Grid.pairs grid' = filter (λ e, 0 < Pair.count e.2) (Grid.pairs grid)
  ∧ Grid.buckets grid' = Grid.buckets grid
  ∧ Grid.freeBuckets grid' = Grid.freeBuckets grid.
Proof.
  intros grid'.
  destruct (createActivePairsList_spec grid)
    as (Hlist & Hpairs & Hb & Hf & _).
  fold grid' in Hlist, Hpairs, Hb, Hf.
  assert (Hin : ∀ key, key ∈ Grid.pairsList grid' ↔
            ∃ record, Grid.pairs grid !! key = Some record
                      ∧ 0 < Pair.count record).
  { intros key. rewrite Hlist. rewrite list_elem_of_fmap. split.
    - intros ([k record] & -> & Hin).
      apply list_elem_of_filter in Hin as [Hact Hin].
      apply elem_of_map_to_list in Hin. by exists record.
    - intros (record & Hk & Hpos). exists (key, record). split; [done|].
      apply list_elem_of_filter. split; [done|].
      by apply elem_of_map_to_list. }
  split; [|split; [|split; [|split; [|split]]]]; try done.
  - intros key record Hk. split; [|split].
    + rewrite Hin. split.
      * intros (record' & Hk' & Hpos). by simplify_eq.
      * intros Hpos. by exists record.
    + rewrite Hpairs. rewrite map_lookup_filter_None. split.
      * intros [Hnone|Hna]; [by simplify_eq|].
        specialize (Hna record Hk). unfold active in Hna. simpl in Hna. lia.
      * intros Hneg. right. intros record' Hk'. simplify_eq.
        unfold active. simpl. lia.
    + intros Hpos. rewrite Hpairs. by apply map_lookup_filter_Some.
  - intros key Hkey. apply Hin in Hkey as (record & Hk & _). by exists record.
  - rewrite Hlist. apply NoDup_fmap_fst.
    + intros k r1 r2 H1 H2.
      apply list_elem_of_filter in H1 as [_ H1].
      apply list_elem_of_filter in H2 as [_ H2].
      apply elem_of_map_to_list in H1. apply elem_of_map_to_list in H2.
      by simplify_eq.
    + apply NoDup_filter. apply NoDup_map_to_list.
Qed.

(** The record with count [2] is listed and kept, the record with count
    [0] is not listed and is deleted, and the key that the list held
    before is gone. *)
Lemma createActivePairsList_extracts_witness :
  let grid' := Grid._createActivePairsList Demo.stale in
  ((1, 2) ∈ Grid.pairsList grid'
   ∧ Grid.pairs grid' !! (1, 2) = Some (Pair.mk 0%nat 1%nat 2))
  ∧ (((1, 3) ∉ Grid.pairsList grid') ∧ Grid.pairs grid' !! (1, 3) = None)
  ∧ ((7, 8) ∉ Grid.pairsList grid').
Proof.
  intros grid'.
  pose proof (createActivePairsList_extracts Demo.stale) as Hex.
  cbv zeta in Hex. fold grid' in Hex. destruct Hex as (Hentry & Honly & _).
  assert (Hkept : Grid.pairs Demo.stale !! (1, 2)
                  = Some (Pair.mk 0%nat 1%nat 2)) by (vm_compute; reflexivity).
  assert (Hdead : Grid.pairs Demo.stale !! (1, 3)
                  = Some (Pair.mk 0%nat 2%nat 0)) by (vm_compute; reflexivity).
  destruct (Hentry _ _ Hkept) as (Hlisted & _ & Hstays).
  destruct (Hentry _ _ Hdead) as (Hunlisted & Hdeleted & _).
  split; [|split].
  - split; [apply Hlisted|apply Hstays]; simpl; lia.
  - split; [|apply Hdeleted; simpl; lia].
    intros Hin. apply Hunlisted in Hin. simpl in Hin. lia.
  - intros Hin. apply Honly in Hin as [record Hrecord].
    vm_compute in Hrecord. discriminate.
Defined.

(** ** Clearing and the free pool *)

Section Clear.

(** The loop of [Grid.clear] over a list of entries: every entry pushes
    one truncated array and deletes its key. *)
Lemma foldl_clearBucket (entries : list (Z * list ref)) (grid : Grid.t) :
  Grid.freeBuckets (foldl Grid.clearBucket grid entries)
    = Grid.freeBuckets grid ++ replicate (length entries) []
  ∧ (∀ k, Grid.buckets (foldl Grid.clearBucket grid entries) !! k
          = if decide (k ∈ entries.*1) then None
            else Grid.buckets grid !! k)
  ∧ Grid.bucketWidth (foldl Grid.clearBucket grid entries)
      = Grid.bucketWidth grid
  ∧ Grid.bucketHeight (foldl Grid.clearBucket grid entries)
      = Grid.bucketHeight grid.
Proof.
  revert grid. induction entries as [|[key bucket] entries IH]; intros grid.
  - cbn. rewrite app_nil_r. repeat split; done.
  - cbn [foldl].
    destruct (IH (Grid.clearBucket grid (key, bucket)))
      as (Hfree & Hbuckets & Hw & Hh).
    rewrite Hfree, Hw, Hh. clear Hfree Hw Hh. cbn.
    rewrite <- app_assoc. repeat split; try done.
    intros k. rewrite Hbuckets. cbn.
    destruct (decide (k = key)) as [->|Hne].
    + rewrite lookup_delete_eq.
      rewrite (decide_True (P := key ∈ key :: _))
        by (apply elem_of_cons; by left).
      by case_decide.
    + rewrite lookup_delete_ne by done.
      destruct (decide (k ∈ _)) as [Hin|Hnin].
      * rewrite decide_True; [done|]. apply elem_of_cons. by right.
      * rewrite decide_False; [done|]. rewrite elem_of_cons. tauto.
Qed.

(** What [Grid.clear] leaves. *)
Lemma clear_spec (grid : Grid.t) :
  Grid.buckets (Grid.clear grid) = ∅
  ∧ Grid.freeBuckets (Grid.clear grid)
      = Grid.freeBuckets grid ++ replicate (size (Grid.buckets grid)) []
  ∧ Grid.pairs (Grid.clear grid) = ∅
  ∧ Grid.pairsList (Grid.clear grid) = []
  ∧ Grid.bucketWidth (Grid.clear grid) = Grid.bucketWidth grid
  ∧ Grid.bucketHeight (Grid.clear grid) = Grid.bucketHeight grid.
Proof.
  unfold Grid.clear, Common.entries.
  destruct (foldl_clearBucket (map_to_list (Grid.buckets grid)) grid)
    as (Hfree & Hbuckets & Hw & Hh).
  cbn. rewrite Hfree, Hw, Hh, length_map_to_list.
  repeat split; try done.
  apply map_eq. intros k. rewrite Hbuckets, lookup_empty.
  case_decide as Hk; [done|].
  destruct (Grid.buckets grid !! k) as [bucket|] eqn:Hlook; [|done].
  exfalso. apply Hk. apply list_elem_of_fmap. exists (k, bucket).
  split; [done|]. by apply elem_of_map_to_list.
Qed.

(** [Grid._createBucket] with a non-empty pool pops its last array. *)
Lemma createBucket_pop (grid : Grid.t) (bucketId : Z)
    (pool : list (list ref)) (bucket : list ref) :
  Grid.freeBuckets grid = pool ++ [bucket] →
  Grid._createBucket grid bucketId
  = (Grid.set_buckets (<[bucketId := bucket]> (Grid.buckets grid))
       (Grid.set_freeBuckets pool grid), bucket).
Proof.
  intros Hpool. unfold Grid._createBucket.
  rewrite Hpool, reverse_app, reverse_singleton. cbn [app].
  by rewrite reverse_involutive.
Qed.

(** [Grid._createBucket] with an empty pool allocates. *)
Lemma createBucket_alloc (grid : Grid.t) (bucketId : Z) :
  Grid.freeBuckets grid = [] →
  Grid._createBucket grid bucketId
  = (Grid.set_buckets (<[bucketId := []]> (Grid.buckets grid)) grid, []).
Proof. intros Hpool. unfold Grid._createBucket. by rewrite Hpool. Qed.

End Clear.

(** C6. After [Grid.clear] the extraction of the active pairs yields the
    empty sequence, the cell-to-bucket mapping is empty, and every bucket
    that was in the mapping has been truncated to length 0 and pushed onto
    the free pool (one empty array per key, after the arrays the pool
    already had); a bucket creation pops the last array of a non-empty pool
    and registers it, and allocates only when the pool is empty; so the
    first creation after clearing a grid that had buckets reuses one of the
    truncated arrays. *)
Theorem clear_recycles_buckets (grid : Grid.t) :
  let grid' := Grid.clear grid in
  Grid.pairsList grid' = []
  ∧ Grid.pairsList (Grid._createActivePairsList grid') = []
  ∧ Grid.pairs grid' = ∅
  ∧ Grid.buckets grid' = ∅
  ∧ Grid.freeBuckets grid'
      = Grid.freeBuckets grid ++ replicate (size (Grid.buckets grid)) []
  ∧ (∀ (g : Grid.t) (bucketId : Z) pool bucket,
       Grid.freeBuckets g = pool ++ [bucket] →
       Grid._createBucket g bucketId
       = (Grid.set_buckets (<[bucketId := bucket]> (Grid.buckets g))
            (Grid.set_freeBuckets pool g), bucket))
  ∧ (∀ (g : Grid.t) (bucketId : Z),
       Grid.freeBuckets g = [] →
       Grid._createBucket g bucketId
       = (Grid.set_buckets (<[bucketId := []]> (Grid.buckets g)) g, []))
  ∧ (∀ bucketId : Z, Grid.buckets grid ≠ ∅ →
       let '(grid'', bucket) := Grid._createBucket grid' bucketId in
       bucket = []
       ∧ Grid.buckets grid'' = {[ bucketId := [] ]}
       ∧ Grid.freeBuckets grid''
           = Grid.freeBuckets grid
             ++ replicate (size (Grid.buckets grid) - 1)%nat []).
Proof.
  intros grid'.
  destruct (clear_spec grid) as (Hb & Hf & Hp & Hl & _).
  fold grid' in Hb, Hf, Hp, Hl. clearbody grid'.
  split; [done|]. split.
  { destruct (createActivePairsList_spec grid') as (-> & _).
    by rewrite Hp, map_to_list_empty. }
  split; [done|]. split; [done|]. split; [done|].
  split; [intros; by apply createBucket_pop|].
  split; [intros; by apply createBucket_alloc|].
  intros bucketId Hne.
  apply map_size_non_empty_iff in Hne.
  destruct (size (Grid.buckets grid)) as [|n] eqn:Hsize; [done|].
  assert (Hpool : Grid.freeBuckets grid'
                  = (Grid.freeBuckets grid ++ replicate n []) ++ [ [] ]).
  { rewrite Hf. rewrite <- app_assoc. f_equal.
    change [ [] ] with (replicate 1 (@nil ref)).
    rewrite <- replicate_add. f_equal. lia. }
  rewrite (createBucket_pop _ _ _ _ Hpool). cbn.
  rewrite Hb. replace (n - 0)%nat with n by lia. done.
Qed.

(** A grid with two occupied cells: clearing it leaves two empty arrays in
    the pool, and the next bucket is the second of them. *)
Lemma clear_recycles_buckets_witness :
  let grid :=
    Grid.set_buckets {[ 0 := [1%nat; 2%nat]; 1 := [2%nat] ]}
      (Grid.create (Grid.mkOptions None None)) in
  Grid.freeBuckets (Grid.clear grid) = [ [] ] ++ [ [] ]
  ∧ Grid._createBucket (Grid.clear grid) 7
    = (Grid.set_buckets (<[7 := []]> (Grid.buckets (Grid.clear grid)))
         (Grid.set_freeBuckets [ [] ] (Grid.clear grid)), []).
Proof.
  intros grid.
  assert (Hpool : Grid.freeBuckets (Grid.clear grid) = [ [] ] ++ [ [] ])
    by (vm_compute; reflexivity).
  split; [exact Hpool|].
  destruct (clear_recycles_buckets grid) as (_ & _ & _ & _ & _ & Hpop & _).
  exact (Hpop (Grid.clear grid) 7 [ [] ] [] Hpool).
Defined.

(** ** Buckets as arrays *)

Section BucketArrays.

Implicit Types (bucket : list ref) (body : ref).

Lemma indexOf_absent bucket body :
  body ∉ bucket → Common.indexOf bucket body = -1.
Proof.
  induction bucket as [|b bucket IH]; [done|].
  intros Hnotin. apply not_elem_of_cons in Hnotin as [Hne Hnotin].
  cbn. rewrite decide_False by done. by rewrite IH.
Qed.

Lemma indexOf_first before after body :
  body ∉ before →
  Common.indexOf (before ++ body :: after) body = Z.of_nat (length before).
Proof.
  induction before as [|b before IH]; intros Hnotin.
  - cbn. by rewrite decide_True.
  - apply not_elem_of_cons in Hnotin as [Hne Hnotin].
    cbn [app Common.indexOf]. rewrite decide_False by done.
    rewrite IH by done.
    destruct (Z.eqb_spec (Z.of_nat (length before)) (-1)); [lia|].
    cbn [length]. lia.
Qed.

(** Removing a body that is in the bucket: the array keeps the other
    bodies, each once. *)
Lemma swapRemove_present bucket body :
  NoDup bucket → body ∈ bucket →
  ∃ bucket', Grid.swapRemove bucket (Common.indexOf bucket body)
             = Some bucket'
             ∧ bucket ≡ₚ body :: bucket'.
Proof.
  intros Hnodup Hin.
  apply list_elem_of_split_l in Hin as (before & after & -> & Hnotin).
  rewrite indexOf_first by done.
  unfold Grid.swapRemove.
  destruct (Z.eqb_spec (Z.of_nat (length before)) (-1)); [lia|].
  rewrite Nat2Z.id.
  destruct (last after) as [z|] eqn:Hlast.
  - apply last_Some in Hlast as [after' ->].
    assert (Hshape : ∀ y : ref, before ++ y :: after' ++ [z]
                                = (before ++ y :: after') ++ [z])
      by (intros y; by rewrite <- app_assoc).
    assert (Hlast : last (before ++ body :: after' ++ [z]) = Some z)
      by (by rewrite Hshape, last_snoc).
    rewrite Hlast.
    exists (before ++ z :: after'). split.
    + f_equal.
      replace (length before) with (length before + 0)%nat at 1 by lia.
      rewrite insert_app_r.
      change (<[0%nat:=z]> (body :: after' ++ [z])) with (z :: after' ++ [z]).
      rewrite (Hshape body), (Hshape z).
      apply take_app_length'.
      rewrite !length_app. cbn [length]. lia.
    + etrans; [symmetry; apply Permutation_middle|].
      apply perm_skip. apply Permutation_app_head.
      symmetry. apply Permutation_cons_append.
  - apply last_None in Hlast as ->.
    rewrite last_snoc. exists before. split.
    + f_equal.
      replace (length before) with (length before + 0)%nat at 1 by lia.
      rewrite insert_app_r. cbn.
      apply take_app_length'. rewrite length_app. cbn [length]. lia.
    + by rewrite <- Permutation_middle, app_nil_r.
Qed.

(** Decrementing the length of an empty array throws. *)
Lemma swapRemove_empty index : Grid.swapRemove [] index = None.
Proof. done. Qed.

(** Removing a body that is not in a non-empty bucket drops the last
    element of the array. *)
Lemma swapRemove_absent bucket lastBody body :
  body ∉ bucket ++ [lastBody] →
  Grid.swapRemove (bucket ++ [lastBody])
    (Common.indexOf (bucket ++ [lastBody]) body) = Some bucket.
Proof.
  intros Hnotin. rewrite indexOf_absent by done.
  unfold Grid.swapRemove. rewrite last_snoc. cbn.
  f_equal. apply take_app_length'. rewrite length_app. cbn. lia.
Qed.

End BucketArrays.

(** ** Counting *)

Lemma ind_true (P : Prop) `{Decision P} : P → ind P = 1%nat.
Proof. intros. unfold ind. by rewrite decide_True. Qed.

Lemma ind_false (P : Prop) `{Decision P} : ¬ P → ind P = 0%nat.
Proof. intros. unfold ind. by rewrite decide_False. Qed.

Lemma ind_iff (P Q : Prop) `{Decision P, Decision Q} : (P ↔ Q) → ind P = ind Q.
Proof. intros HPQ. unfold ind. repeat case_decide; tauto. Qed.

Section Counting.
Context {A : Type}.
Implicit Types (l : list A).

Lemma length_filter_none (P : A → Prop) `{∀ x, Decision (P x)} l :
  (∀ x, x ∈ l → ¬ P x) → length (filter P l) = 0%nat.
Proof.
  induction l as [|x l IH]; [done|]. intros Hall.
  rewrite filter_cons_False by (apply Hall; apply elem_of_cons; by left).
  apply IH. intros y Hy. apply Hall. apply elem_of_cons. by right.
Qed.

(** In an array without repetition at most one element satisfies a
    predicate that singles out [y]. *)
Lemma length_filter_single (P : A → Prop) `{∀ x, Decision (P x)}
    `{EqDecision A} l (y : A) :
  NoDup l → (∀ x, x ∈ l → P x ↔ x = y) →
  length (filter P l) = ind (y ∈ l).
Proof.
  induction l as [|x l IH]; intros Hnodup HP.
  - cbn. by rewrite ind_false by apply not_elem_of_nil.
  - apply NoDup_cons in Hnodup as [Hx Hnodup].
    assert (HP' : ∀ z, z ∈ l → P z ↔ z = y).
    { intros z Hz. apply HP. apply elem_of_cons. by right. }
    destruct (decide (x = y)) as [->|Hne].
    + rewrite filter_cons_True
        by (apply HP; [apply elem_of_cons; by left | done]).
      cbn [length]. rewrite IH by done.
      rewrite (ind_false (y ∈ l)) by done.
      rewrite ind_true; [done|]. apply elem_of_cons. by left.
    + rewrite filter_cons_False.
      2:{ intros HPx. apply Hne. apply HP; [|done].
          apply elem_of_cons. by left. }
      rewrite IH by done. apply ind_iff. rewrite elem_of_cons.
      split; [by right|]. intros [->|]; done.
Qed.

End Counting.

Section MapCounting.
Context {V : Type} (P : Z * V → Prop) `{∀ e, Decision (P e)}.
Implicit Types (m : gmap Z V).

(** Storing a value under a key changes the number of entries that
    satisfy [P] by the entry that is replaced and the entry that
    replaces it. *)
Lemma size_filter_insert m (k : Z) (v : V) :
  (size (filter P (<[k := v]> m))
   + match m !! k with Some old => ind (P (k, old)) | None => 0 end
   = size (filter P m) + ind (P (k, v)))%nat.
Proof.
  rewrite map_filter_insert.
  assert (Hlook : filter P m !! k
                  = match m !! k with
                    | Some old => if decide (P (k, old)) then Some old else None
                    | None => None
                    end).
  { destruct (m !! k) as [old|] eqn:Hk.
    - case_decide.
      + by apply map_lookup_filter_Some.
      + apply map_lookup_filter_None. right. intros old' ?. by simplify_eq.
    - apply map_lookup_filter_None. by left. }
  unfold ind at 2. destruct (decide (P (k, v))) as [HPv|HPv].
  - rewrite map_size_insert, Hlook.
    destruct (m !! k) as [old|]; [|unfold id; lia].
    unfold ind. case_decide; unfold id; lia.
  - rewrite map_filter_delete, map_size_delete, Hlook.
    destruct (m !! k) as [old|] eqn:Hk; [|unfold id; lia].
    unfold ind. case_decide as HPold; unfold id; [|lia].
    assert (size (filter P m) ≠ 0)%nat; [|lia].
    apply map_size_non_empty_iff. intros Hempty.
    assert (filter P m !! k = Some old) as Hsome
      by (by apply map_lookup_filter_Some).
    rewrite Hempty in Hsome. by rewrite lookup_empty in Hsome.
Qed.

End MapCounting.

(** ** The pair table *)

Section PairTable.

Implicit Types (h : Heap) (pairs : gmap Pair.Id Pair.t) (key : Pair.Id).

Lemma Pair_id_sym (x y : Body.t) : Pair.id x y = Pair.id y x.
Proof.
  unfold Pair.id.
  destruct (Z.ltb_spec (Body.id x) (Body.id y)),
           (Z.ltb_spec (Body.id y) (Body.id x)); try done; try lia.
  f_equal; lia.
Qed.

Lemma Pair_id_eq (x y u v : Body.t) :
  Pair.id x y = Pair.id u v →
  (Body.id x = Body.id u ∧ Body.id y = Body.id v)
  ∨ (Body.id x = Body.id v ∧ Body.id y = Body.id u).
Proof.
  unfold Pair.id.
  destruct (Z.ltb_spec (Body.id x) (Body.id y)),
           (Z.ltb_spec (Body.id u) (Body.id v));
    intros [= H1 H2]; lia.
Qed.

(** With distinct ids the key determines the unordered pair. *)
Lemma Pair_id_inj h (a b c d : ref) :
  uniqueIds h → Pair.id (h a) (h b) = Pair.id (h c) (h d) →
  (a = c ∧ b = d) ∨ (a = d ∧ b = c).
Proof.
  intros Hids Heq.
  destruct (Pair_id_eq _ _ _ _ Heq) as [[H1 H2]|[H1 H2]];
    [left|right]; split; by apply Hids.
Qed.

Lemma counted_sym h a b : counted h a b → counted h b a.
Proof.
  unfold counted, bothStatic. intros [Hne Hst]. split; [done|].
  by rewrite andb_comm.
Qed.

(** One turn of the loop of [Grid._bucketAddBody], key by key. *)
Lemma addPair_lookup h (body x : ref) pairs key :
  Grid.addPair h body pairs x !! key
  = if decide (counted h body x ∧ Pair.id (h body) (h x) = key)
    then Some (match pairs !! key with
               | Some record => Pair.add_count 1 record
               | None => Pair.mk body x 1
               end)
    else pairs !! key.
Proof.
  unfold Grid.addPair.
  destruct ((Body.id (h body) =? Body.id (h x))
            || Body.isStatic (h body) && Body.isStatic (h x)) eqn:Hskip.
  - rewrite decide_False; [done|]. intros [[Hne Hst] _].
    unfold bothStatic in Hst. rewrite Hst, orb_false_r in Hskip.
    by apply Z.eqb_eq in Hskip.
  - apply orb_false_elim in Hskip as [Hne Hst].
    apply Z.eqb_neq in Hne.
    destruct (decide (Pair.id (h body) (h x) = key)) as [<-|Hkey].
    + rewrite decide_True by done.
      destruct (pairs !! Pair.id (h body) (h x)); by rewrite lookup_insert_eq.
    + rewrite decide_False by tauto.
      destruct (pairs !! Pair.id (h body) (h x)); by rewrite lookup_insert_ne.
Qed.

(** The loop of [Grid._bucketAddBody] adds to the count of a key the
    number of bodies of the bucket that are counted under this key. *)
Lemma foldl_addPair_count h (body : ref) (bucket : list ref) pairs key :
  pairCount (foldl (Grid.addPair h body) pairs bucket) key
  = pairCount pairs key
    + Z.of_nat (length (filter
        (λ x, counted h body x ∧ Pair.id (h body) (h x) = key) bucket)).
Proof.
  revert pairs. induction bucket as [|x bucket IH]; intros pairs.
  - cbn. lia.
  - cbn [foldl]. rewrite IH. rewrite filter_cons.
    unfold pairCount at 1. rewrite addPair_lookup.
    destruct (decide (counted h body x ∧ Pair.id (h body) (h x) = key)).
    + cbn [length]. unfold pairCount.
      destruct (pairs !! key); cbn; lia.
    + unfold pairCount. lia.
Qed.

(** A key under which no body of the bucket is counted keeps its
    record. *)
Lemma foldl_addPair_other h (body : ref) (bucket : list ref) pairs key :
  (∀ x, x ∈ bucket →
        ¬ (counted h body x ∧ Pair.id (h body) (h x) = key)) →
  foldl (Grid.addPair h body) pairs bucket !! key = pairs !! key.
Proof.
  revert pairs. induction bucket as [|x bucket IH]; intros pairs Hno.
  - done.
  - cbn [foldl]. rewrite IH.
    + rewrite addPair_lookup. rewrite decide_False; [done|].
      apply Hno. apply elem_of_cons. by left.
    + intros y Hy. apply Hno. apply elem_of_cons. by right.
Qed.

Lemma foldl_addPair_wf h (body : ref) (bucket : list ref) pairs :
  pairsWf h pairs → pairsWf h (foldl (Grid.addPair h body) pairs bucket).
Proof.
  revert pairs. induction bucket as [|x bucket IH]; intros pairs Hwf.
  - done.
  - cbn [foldl]. apply IH. intros key record.
    rewrite addPair_lookup. case_decide as Hhit; [|by apply Hwf].
    destruct Hhit as [[Hne _] <-].
    destruct (pairs !! Pair.id (h body) (h x)) as [old|] eqn:Hold.
    + intros [= <-]. cbn. by apply Hwf in Hold.
    + intros [= <-]. done.
Qed.

(** One turn of the second loop of [Grid._bucketRemoveBody], key by
    key. *)
Lemma removePair_lookup h (body x : ref) pairs key :
  Grid.removePair h body pairs x !! key
  = if decide (Pair.id (h body) (h x) = key)
    then Pair.add_count (-1) <$> pairs !! key
    else pairs !! key.
Proof.
  unfold Grid.removePair.
  destruct (decide (Pair.id (h body) (h x) = key)) as [<-|Hkey].
  - destruct (pairs !! Pair.id (h body) (h x)) eqn:Hold.
    + by rewrite lookup_insert_eq.
    + by rewrite Hold.
  - destruct (pairs !! Pair.id (h body) (h x)); [|done].
    by rewrite lookup_insert_ne.
Qed.

(** The second loop of [Grid._bucketRemoveBody] takes from the count of
    a record the number of bodies of the bucket that have this key with
    the removed body; it creates and deletes no record. *)
Lemma foldl_removePair_lookup h (body : ref) (bucket : list ref) pairs key :
  foldl (Grid.removePair h body) pairs bucket !! key
  = Pair.add_count
      (- Z.of_nat (length (filter
           (λ x, Pair.id (h body) (h x) = key) bucket)))
    <$> pairs !! key.
Proof.
  revert pairs. induction bucket as [|x bucket IH]; intros pairs.
  - cbn. destruct (pairs !! key) as [[a b n]|]; [|done].
    cbn. unfold Pair.add_count. cbn. do 2 f_equal. lia.
  - cbn [foldl]. rewrite IH, removePair_lookup, filter_cons.
    destruct (decide (Pair.id (h body) (h x) = key)); [|done].
    destruct (pairs !! key) as [[a b n]|]; [|done].
    cbn. unfold Pair.add_count. cbn. do 2 f_equal. lia.
Qed.

Lemma foldl_removePair_wf h (body : ref) (bucket : list ref) pairs :
  pairsWf h pairs → pairsWf h (foldl (Grid.removePair h body) pairs bucket).
Proof.
  intros Hwf key record. rewrite foldl_removePair_lookup.
  destruct (pairs !! key) as [old|] eqn:Hold; [|done].
  intros [= <-]. cbn. by apply Hwf in Hold.
Qed.

Lemma pairsWf_filter h (P : Pair.Id * Pair.t → Prop)
    `{∀ e, Decision (P e)} pairs :
  pairsWf h pairs → pairsWf h (filter P pairs).
Proof.
  intros Hwf key record Hlook.
  apply map_lookup_filter_Some in Hlook as [Hlook _]. by apply Hwf.
Qed.

Lemma pairsWf_empty h : pairsWf h ∅.
Proof. intros key record. by rewrite lookup_empty. Qed.

(** The well-formedness of the table only depends on the ids. *)
Lemma pairsWf_ext h h' pairs :
  (∀ b, Body.id (h' b) = Body.id (h b)) → pairsWf h pairs → pairsWf h' pairs.
Proof.
  intros Hid Hwf key record Hlook.
  destruct (Hwf key record Hlook) as [-> Hne].
  unfold Pair.id. rewrite !Hid. done.
Qed.

End PairTable.

(** ** Shared cells *)

Section SharedCells.

Implicit Types (h : Heap) (g : Grid.t) (a b body : ref) (bucket : list ref).

Lemma both_sym a b bucket : both a b bucket ↔ both b a bucket.
Proof. unfold both. tauto. Qed.

Lemma sharedIn_sym buckets a b : sharedIn buckets a b = sharedIn buckets b a.
Proof.
  unfold sharedIn. f_equal. apply map_filter_ext. intros k bucket _.
  apply both_sym.
Qed.

Lemma sharedIn_insert (buckets : gmap Z (list ref)) (k : Z) bucket a b :
  (sharedIn (<[k := bucket]> buckets) a b
   + ind (both a b (default [] (buckets !! k)))
   = sharedIn buckets a b + ind (both a b bucket))%nat.
Proof.
  unfold sharedIn.
  pose proof (size_filter_insert (λ e : Z * list ref, both a b e.2)
                buckets k bucket) as Hsize.
  cbn in Hsize. rewrite <- Hsize. f_equal.
  destruct (buckets !! k); [done|]. cbn.
  apply ind_false. intros [Ha _]. by apply elem_of_nil in Ha.
Qed.

(** A shared cell is a bucket that holds both bodies. *)
Lemma sharedIn_pos (buckets : gmap Z (list ref)) (k : Z) bucket a b :
  buckets !! k = Some bucket → both a b bucket →
  (0 < sharedIn buckets a b)%nat.
Proof.
  intros Hk Hboth. unfold sharedIn.
  assert (size (filter (λ e : Z * list ref, both a b e.2) buckets) ≠ 0%nat);
    [|lia].
  apply map_size_non_empty_iff. intros Hempty.
  assert (filter (λ e : Z * list ref, both a b e.2) buckets !! k
          = Some bucket) as Hsome by (by apply map_lookup_filter_Some).
  rewrite Hempty in Hsome. by rewrite lookup_empty in Hsome.
Qed.

Lemma sharedIn_zero (buckets : gmap Z (list ref)) a b :
  (∀ k bucket, buckets !! k = Some bucket → ¬ both a b bucket) →
  sharedIn buckets a b = 0%nat.
Proof.
  intros Hnone. unfold sharedIn. apply map_size_empty_iff.
  apply map_empty. intros k. apply map_lookup_filter_None.
  destruct (buckets !! k) as [bucket|] eqn:Hk; [right|by left].
  intros bucket' [= <-]. by eapply Hnone.
Qed.

Lemma bucketAt_insert g g' (k k' : Z) bucket :
  Grid.buckets g' = <[k := bucket]> (Grid.buckets g) →
  bucketAt g' k' = if decide (k' = k) then bucket else bucketAt g k'.
Proof.
  intros Hb. unfold bucketAt. rewrite Hb.
  case_decide as Hk.
  - subst. by rewrite lookup_insert_eq.
  - by rewrite lookup_insert_ne.
Qed.

(** [BookOk] reads the grid through its buckets, pool and table and
    the heap through the ids and static flags. *)
Lemma BookOk_ext h h' g g' :
  (∀ r, Body.id (h' r) = Body.id (h r)) →
  (∀ r, Body.isStatic (h' r) = Body.isStatic (h r)) →
  Grid.buckets g' = Grid.buckets g →
  Grid.freeBuckets g' = Grid.freeBuckets g →
  Grid.pairs g' = Grid.pairs g →
  BookOk h g → BookOk h' g'.
Proof.
  intros Hid Hst Hb Hf Hp [Hnodup Hpool Hwf Hcount Hstatic].
  assert (Hkey : ∀ a b, Pair.id (h' a) (h' b) = Pair.id (h a) (h b))
    by (intros; unfold Pair.id; by rewrite !Hid).
  split.
  - intros k bucket. rewrite Hb. apply Hnodup.
  - intros bucket. rewrite Hf. apply Hpool.
  - rewrite Hp. by eapply pairsWf_ext.
  - intros a b [Hne Hns]. rewrite Hp, Hkey. unfold sharedCells. rewrite Hb.
    apply Hcount. unfold counted, bothStatic in *.
    rewrite !Hid, !Hst in *. done.
  - intros a b Hs. rewrite Hp, Hkey. apply Hstatic.
    unfold bothStatic in *. by rewrite !Hst in Hs.
Qed.

End SharedCells.

(** ** Bucket operations keep the books *)

Section BucketOperations.

Variable h : Heap.
Hypothesis Hids : uniqueIds h.

Implicit Types (g : Grid.t) (a b body : ref) (bucket : list ref) (k : Z).

(** The bodies of a bucket that have the key of [a] and [b] with
    [body]. *)
Lemma hits_partner body bucket a b :
  NoDup bucket → body ∉ bucket → a ≠ b →
  length (filter (λ x, Pair.id (h body) (h x) = Pair.id (h a) (h b)) bucket)
  = ind (partnerIn body a b bucket).
Proof.
  intros Hnodup Hnotin Hab. unfold partnerIn.
  destruct (decide (a = body)) as [->|Ha];
    [|destruct (decide (b = body)) as [->|Hb]].
  - rewrite (length_filter_single _ bucket b Hnodup).
    + apply ind_iff. intuition congruence.
    + intros x Hx. split; [|by intros ->].
      intros Hkey. apply (Pair_id_inj h) in Hkey; [|done].
      intuition congruence.
  - rewrite (length_filter_single _ bucket a Hnodup).
    + apply ind_iff. intuition congruence.
    + intros x Hx. split; [|intros ->; apply Pair_id_sym].
      intros Hkey. apply (Pair_id_inj h) in Hkey; [|done].
      intuition congruence.
  - rewrite length_filter_none.
    + symmetry. apply ind_false. intuition congruence.
    + intros x Hx Hkey. apply (Pair_id_inj h) in Hkey; [|done].
      intuition congruence.
Qed.

(** For two bodies that are counted, the test of [Grid._bucketAddBody]
    does not skip the body that has their key. *)
Lemma hits_counted body bucket a b :
  counted h a b →
  filter (λ x, counted h body x
               ∧ Pair.id (h body) (h x) = Pair.id (h a) (h b)) bucket
  = filter (λ x, Pair.id (h body) (h x) = Pair.id (h a) (h b)) bucket.
Proof.
  intros Hcounted. apply list_filter_iff. intros x. split; [tauto|].
  intros Hkey. split; [|done].
  apply (Pair_id_inj h) in Hkey; [|done].
  destruct Hkey as [[-> ->]|[-> ->]]; [done | by apply counted_sym].
Qed.

Lemma counted_ne a b : counted h a b → a ≠ b.
Proof. intros [Hne _] ->. done. Qed.

(** Appending [body] to a bucket that does not hold it makes the cell
    shared by [body] and each body of the bucket. *)
Lemma both_push body bucket a b :
  body ∉ bucket → a ≠ b →
  ind (both a b (bucket ++ [body]))
  = (ind (both a b bucket) + ind (partnerIn body a b bucket))%nat.
Proof.
  intros Hnotin Hab. unfold ind, both, partnerIn.
  repeat case_decide; try lia; exfalso;
    repeat match goal with
           | H : context [_ ∈ _ ++ _] |- _ => rewrite elem_of_app in H
           | H : context [_ ∈ [_]] |- _ => rewrite list_elem_of_singleton in H
           end; intuition congruence.
Qed.

(** Removing [body] from a bucket without repetition. *)
Lemma both_pop body bucket bucket' a b :
  NoDup bucket → bucket ≡ₚ body :: bucket' → a ≠ b →
  ind (both a b bucket)
  = (ind (both a b bucket') + ind (partnerIn body a b bucket'))%nat.
Proof.
  intros Hnodup Hperm Hab.
  assert (Hnotin : body ∉ bucket').
  { rewrite Hperm in Hnodup. by apply NoDup_cons in Hnodup as [? _]. }
  rewrite <- both_push by done.
  apply ind_iff. unfold both.
  assert (Hmem : ∀ x, x ∈ bucket ↔ x ∈ bucket' ++ [body]).
  { intros x. rewrite Hperm, elem_of_cons, elem_of_app,
      list_elem_of_singleton. tauto. }
  by rewrite !Hmem.
Qed.

(** [Grid._bucketAddBody] keeps the books when the body is not yet in
    the bucket. *)
Lemma bucketAddBody_book g k bucket body :
  BookOk h g → Grid.buckets g !! k = Some bucket → body ∉ bucket →
  BookOk h (Grid._bucketAddBody h g k bucket body).
Proof.
  intros [Hnodup Hpool Hwf Hcount Hstatic] Hk Hnotin.
  assert (Hnd : NoDup bucket) by (by eapply Hnodup).
  unfold Grid._bucketAddBody. split; cbn.
  - intros k' bucket'. destruct (decide (k' = k)) as [->|Hne].
    + rewrite lookup_insert_eq. intros [= <-].
      apply NoDup_app. split; [done|]. split; [|apply NoDup_singleton].
      intros x Hx. rewrite list_elem_of_singleton. by intros ->.
    + rewrite lookup_insert_ne by done. apply Hnodup.
  - done.
  - by apply foldl_addPair_wf.
  - intros a b Hcounted. pose proof (counted_ne _ _ Hcounted) as Hab.
    rewrite foldl_addPair_count, hits_counted, hits_partner by done.
    rewrite Hcount by done. unfold sharedCells. cbn.
    pose proof (sharedIn_insert (Grid.buckets g) k (bucket ++ [body]) a b)
      as Hshared.
    rewrite Hk in Hshared. cbn in Hshared.
    rewrite both_push in Hshared by done. lia.
  - intros a b Hst. rewrite foldl_addPair_other; [by apply Hstatic|].
    intros x Hx [[Hne Hns] Hkey].
    apply (Pair_id_inj h) in Hkey; [|done].
    destruct Hkey as [[-> ->]|[-> ->]].
    + congruence.
    + unfold bothStatic in *. rewrite andb_comm in Hst. congruence.
Qed.

(** [Grid._bucketRemoveBody] removes a body that is in the bucket and
    keeps the books. *)
Lemma bucketRemoveBody_book g k bucket body :
  BookOk h g → Grid.buckets g !! k = Some bucket → body ∈ bucket →
  ∃ g' bucket',
    Grid._bucketRemoveBody h g k bucket body = Some g'
    ∧ bucket ≡ₚ body :: bucket'
    ∧ Grid.buckets g' = <[k := bucket']> (Grid.buckets g)
    ∧ Grid.freeBuckets g' = Grid.freeBuckets g
    ∧ Grid.pairsList g' = Grid.pairsList g
    ∧ Grid.bucketWidth g' = Grid.bucketWidth g
    ∧ Grid.bucketHeight g' = Grid.bucketHeight g
    ∧ Grid._union g' = Grid._union g
    ∧ Grid._current g' = Grid._current g
    ∧ BookOk h g'.
Proof.
  intros [Hnodup Hpool Hwf Hcount Hstatic] Hk Hin.
  assert (Hnd : NoDup bucket) by (by eapply Hnodup).
  destruct (swapRemove_present bucket body Hnd Hin) as (bucket' & Hswap & Hperm).
  unfold Grid._bucketRemoveBody. rewrite Hswap.
  eexists _, bucket'. split; [done|]. split; [done|].
  do 7 (split; [done|]).
  assert (Hnd' : NoDup (body :: bucket')) by (by rewrite <- Hperm).
  apply NoDup_cons in Hnd' as [Hnotin Hnd'].
  split; cbn.
  - intros k' bucket''. destruct (decide (k' = k)) as [->|Hne].
    + rewrite lookup_insert_eq. by intros [= <-].
    + rewrite lookup_insert_ne by done. apply Hnodup.
  - done.
  - by apply foldl_removePair_wf.
  - intros a b Hcounted. pose proof (counted_ne _ _ Hcounted) as Hab.
    unfold pairCount. rewrite foldl_removePair_lookup.
    rewrite hits_partner by done.
    specialize (Hcount a b Hcounted). unfold pairCount in Hcount.
    unfold sharedCells in *. cbn.
    pose proof (sharedIn_insert (Grid.buckets g) k bucket' a b) as Hshared.
    rewrite Hk in Hshared. cbn in Hshared.
    rewrite (both_pop body bucket bucket') in Hshared by done.
    destruct (Grid.pairs g !! Pair.id (h a) (h b)) as [record|]; cbn; lia.
  - intros a b Hst. rewrite foldl_removePair_lookup.
    by rewrite (Hstatic a b Hst).
Qed.

(** [Grid._createBucket] registers an empty array and keeps the
    books. *)
Lemma createBucket_book g k :
  BookOk h g → Grid.buckets g !! k = None →
  ∃ g', Grid._createBucket g k = (g', [])
    ∧ Grid.buckets g' = <[k := []]> (Grid.buckets g)
    ∧ Grid.pairs g' = Grid.pairs g
    ∧ Grid.pairsList g' = Grid.pairsList g
    ∧ Grid.bucketWidth g' = Grid.bucketWidth g
    ∧ Grid.bucketHeight g' = Grid.bucketHeight g
    ∧ Grid._union g' = Grid._union g
    ∧ Grid._current g' = Grid._current g
    ∧ BookOk h g'.
Proof.
  intros [Hnodup Hpool Hwf Hcount Hstatic] Hk.
  assert (Hshared : ∀ a b,
    sharedIn (<[k := []]> (Grid.buckets g)) a b
    = sharedIn (Grid.buckets g) a b).
  { intros a b.
    pose proof (sharedIn_insert (Grid.buckets g) k [] a b) as Hs.
    rewrite Hk in Hs. cbn in Hs.
    rewrite ind_false in Hs; [lia|].
    intros [Ha _]. by apply elem_of_nil in Ha. }
  assert (Hnd : ∀ k' bucket,
    <[k := []]> (Grid.buckets g) !! k' = Some bucket → NoDup bucket).
  { intros k' bucket. destruct (decide (k' = k)) as [->|Hne].
    - rewrite lookup_insert_eq. intros [= <-]. apply NoDup_nil_2.
    - rewrite lookup_insert_ne by done. apply Hnodup. }
  destruct (Grid.freeBuckets g) as [|b0 pool0] eqn:Hfree
    using rev_ind.
  - rewrite createBucket_alloc by done.
    eexists. split; [done|]. do 7 (split; [done|]).
    split; cbn; try done.
    + by rewrite Hfree.
    + intros a b Hc. unfold sharedCells. cbn. rewrite Hshared.
      by apply Hcount.
  - assert (b0 = []) as ->.
    { apply Hpool. apply elem_of_app. right. by apply list_elem_of_singleton. }
    rewrite (createBucket_pop g k pool0 []) by done.
    eexists. split; [done|]. do 7 (split; [done|]).
    split; cbn; try done.
    + intros bucket Hb. apply Hpool. apply elem_of_app. by left.
    + intros a b Hc. unfold sharedCells. cbn. rewrite Hshared.
      by apply Hcount.
Qed.

End BucketOperations.

(** ** The loops over the cells of a region *)

Lemma sameFrame_refl g : sameFrame g g.
Proof. by repeat split. Qed.

Lemma sameFrame_trans g1 g2 g3 :
  sameFrame g1 g2 → sameFrame g2 g3 → sameFrame g1 g3.
Proof.
  intros (? & ? & ? & ? & ?) (? & ? & ? & ? & ?).
  repeat split; congruence.
Qed.

Lemma othersKept_refl body g : othersKept body g g.
Proof. by intros x k _. Qed.

Lemma othersKept_trans body g1 g2 g3 :
  othersKept body g1 g2 → othersKept body g2 g3 → othersKept body g1 g3.
Proof. intros H12 H23 x k Hx. by rewrite (H23 x k Hx), (H12 x k Hx). Qed.

Section CellLoop.

Variable h : Heap.
Hypothesis Hids : uniqueIds h.
Variables (body : ref) (forceUpdate createRegion : bool).
Variables (newRegion bodyRegion : Region.t).

#[local] Abbreviation step :=
  (Grid.updateCell h body forceUpdate createRegion newRegion bodyRegion).

(** One cell: the body is removed from a bucket that holds it or added
    to a bucket that does not hold it; the other buckets and the other
    bodies are not touched. *)
Lemma updateCell_ok (g : Grid.t) (cell : Z * Z) :
  BookOk h g →
  (removes newRegion bodyRegion cell = true →
   body ∈ bucketAt g (cellId cell)) →
  (adds forceUpdate createRegion newRegion bodyRegion cell = true →
   body ∉ bucketAt g (cellId cell)) →
  ∃ g', step g cell = Some g'
    ∧ BookOk h g'
    ∧ (∀ k, k ≠ cellId cell → Grid.buckets g' !! k = Grid.buckets g !! k)
    ∧ othersKept body g g'
    ∧ (body ∈ bucketAt g' (cellId cell)
       ↔ adds forceUpdate createRegion newRegion bodyRegion cell = true
         ∨ (body ∈ bucketAt g (cellId cell)
            ∧ removes newRegion bodyRegion cell = false))
    ∧ sameFrame g g'.
Proof.
  intros Hbook Hrem Hadd. destruct cell as [col row].
  unfold step, Grid.updateCell. unfold removes, adds, cellId in *.
  cbn [fst snd] in *.
  set (k := Grid._getBucketId col row) in *.
  set (rm := negb (Grid.isInside col row newRegion)
             && Grid.isInside col row bodyRegion) in *.
  set (ad := createRegion
             || Grid.isInside col row newRegion
                && negb (Grid.isInside col row bodyRegion)
             || forceUpdate) in *.
  clearbody rm ad.
  destruct rm; [|destruct ad].
  - (* removal *)
    assert (Hin : body ∈ bucketAt g k) by (by apply Hrem).
    assert (ad = false) as ->.
    { destruct ad; [|done]. exfalso. by apply Hadd. }
    unfold bucketAt in Hin.
    destruct (Grid.buckets g !! k) as [bucket|] eqn:Hk;
      [|by apply elem_of_nil in Hin].
    cbn in Hin.
    destruct (bucketRemoveBody_book h Hids g k bucket body Hbook Hk Hin)
      as (g' & bucket' & -> & Hperm & Hb & Hf & Hl & Hw & Hh & Hu & Hc & Hbook').
    exists g'. split; [done|]. split; [done|].
    assert (Hnd : NoDup (body :: bucket')).
    { rewrite <- Hperm. exact (book_nodup h g Hbook k bucket Hk). }
    apply NoDup_cons in Hnd as [Hnotin _].
    split; [|split; [|split]].
    + intros k' Hk'. rewrite Hb. by rewrite lookup_insert_ne.
    + intros x k' Hx. rewrite (bucketAt_insert g g' k k' bucket' Hb).
      case_decide as Hkk; [|done]. subst k'.
      unfold bucketAt. rewrite Hk. cbn.
      rewrite Hperm, elem_of_cons. tauto.
    + rewrite (bucketAt_insert g g' k k bucket' Hb).
      rewrite decide_True by done. split; [done|].
      intros [?|[_ ?]]; done.
    + by repeat split.
  - (* addition *)
    assert (Hnotin : body ∉ bucketAt g k) by (by apply Hadd).
    unfold bucketAt in Hnotin.
    destruct (Grid.buckets g !! k) as [bucket|] eqn:Hk.
    + cbn in Hnotin.
      exists (Grid._bucketAddBody h g k bucket body). split; [done|].
      split; [by apply bucketAddBody_book|].
      assert (Hb' : Grid.buckets (Grid._bucketAddBody h g k bucket body)
                    = <[k := bucket ++ [body]]> (Grid.buckets g)) by done.
      split; [|split; [|split]].
      * intros k' Hk'. rewrite Hb'. by rewrite lookup_insert_ne.
      * intros x k' Hx.
        rewrite (bucketAt_insert g _ k k' (bucket ++ [body]) Hb').
        case_decide as Hkk; [|done]. subst k'.
        unfold bucketAt. rewrite Hk. cbn.
        rewrite elem_of_app, list_elem_of_singleton. tauto.
      * rewrite (bucketAt_insert g _ k k (bucket ++ [body]) Hb').
        rewrite decide_True by done.
        rewrite elem_of_app, list_elem_of_singleton. tauto.
      * by repeat split.
    + destruct (createBucket_book h g k Hbook Hk)
        as (g1 & -> & Hb & Hp & Hl & Hw & Hh & Hu & Hc & Hbook1).
      assert (Hk1 : Grid.buckets g1 !! k = Some [])
        by (by rewrite Hb, lookup_insert_eq).
      eexists. split; [done|].
      split; [apply bucketAddBody_book; try done; apply not_elem_of_nil|].
      assert (Hb' : Grid.buckets (Grid._bucketAddBody h g1 k [] body)
                    = <[k := [body]]> (Grid.buckets g)).
      { cbn. rewrite Hb. by rewrite insert_insert_eq. }
      split; [|split; [|split]].
      * intros k' Hk'. rewrite Hb'. by rewrite lookup_insert_ne.
      * intros x k' Hx. rewrite (bucketAt_insert g _ k k' [body] Hb').
        case_decide as Hkk; [|done]. subst k'.
        unfold bucketAt. rewrite Hk. cbn.
        rewrite list_elem_of_singleton, elem_of_nil. tauto.
      * rewrite (bucketAt_insert g _ k k [body] Hb').
        rewrite decide_True by done.
        rewrite list_elem_of_singleton. tauto.
      * by repeat split.
  - (* neither *)
    exists g. split; [done|]. split; [done|]. split; [done|].
    split; [apply othersKept_refl|]. split; [|apply sameFrame_refl].
    split; [by right|]. intros [?|[? _]]; done.
Qed.

(** The loops over cells with distinct bucket ids. *)
Lemma updateCells_ok (cs : list (Z * Z)) (g : Grid.t) :
  NoDup (cellId <$> cs) →
  BookOk h g →
  (∀ c, c ∈ cs → removes newRegion bodyRegion c = true →
        body ∈ bucketAt g (cellId c)) →
  (∀ c, c ∈ cs → adds forceUpdate createRegion newRegion bodyRegion c = true →
        body ∉ bucketAt g (cellId c)) →
  ∃ g', forM step g cs = Some g'
    ∧ BookOk h g'
    ∧ (∀ k, k ∉ cellId <$> cs → Grid.buckets g' !! k = Grid.buckets g !! k)
    ∧ othersKept body g g'
    ∧ (∀ c, c ∈ cs →
         body ∈ bucketAt g' (cellId c)
         ↔ adds forceUpdate createRegion newRegion bodyRegion c = true
           ∨ (body ∈ bucketAt g (cellId c)
              ∧ removes newRegion bodyRegion c = false))
    ∧ sameFrame g g'.
Proof.
  revert g. induction cs as [|c cs IH]; intros g Hnd Hbook Hrem Hadd.
  - exists g. split; [done|]. split; [done|]. split; [done|].
    split; [apply othersKept_refl|]. split; [|apply sameFrame_refl].
    intros c Hc. by apply elem_of_nil in Hc.
  - rewrite fmap_cons in Hnd. apply NoDup_cons in Hnd as [Hc Hnd].
    destruct (updateCell_ok g c Hbook) as
      (g1 & Hstep & Hbook1 & Hother1 & Hkept1 & Hbody1 & Hframe1).
    { apply Hrem. apply elem_of_cons. by left. }
    { apply Hadd. apply elem_of_cons. by left. }
    assert (Hsame : ∀ c', c' ∈ cs → bucketAt g1 (cellId c') = bucketAt g (cellId c')).
    { intros c' Hc'. unfold bucketAt. rewrite Hother1; [done|].
      intros Heq. apply Hc. rewrite <- Heq. by apply list_elem_of_fmap_2. }
    destruct (IH g1 Hnd Hbook1) as
      (g2 & Hloop & Hbook2 & Hother2 & Hkept2 & Hbody2 & Hframe2).
    { intros c' Hc'. rewrite Hsame by done. apply Hrem.
      apply elem_of_cons. by right. }
    { intros c' Hc'. rewrite Hsame by done. apply Hadd.
      apply elem_of_cons. by right. }
    exists g2. split; [cbn; by rewrite Hstep|]. split; [done|].
    split; [|split; [|split]].
    + intros k Hk. rewrite fmap_cons, not_elem_of_cons in Hk.
      destruct Hk as [Hk1 Hk2]. rewrite Hother2 by done. by apply Hother1.
    + by eapply othersKept_trans.
    + intros c' Hc'. apply elem_of_cons in Hc' as [->|Hc'].
      * unfold bucketAt at 1. rewrite Hother2 by done. apply Hbody1.
      * rewrite Hbody2 by done. by rewrite Hsame.
    + by eapply sameFrame_trans.
Qed.

End CellLoop.

(** ** Moving a body between the cells of two regions *)

Section Cells.

Implicit Types (r : Region.t) (c : Z * Z).

Lemma inside_spec c r :
  inside c r ↔
  Region.startCol r <= c.1 <= Region.endCol r
  ∧ Region.startRow r <= c.2 <= Region.endRow r.
Proof.
  unfold inside, Grid.isInside.
  rewrite !andb_true_iff, !Z.leb_le. tauto.
Qed.

Lemma elem_of_upto (lo hi k : Z) : k ∈ upto lo hi ↔ lo <= k <= hi.
Proof. unfold upto. rewrite elem_of_seqZ. lia. Qed.

(** The loops visit the cells inside the region. *)
Lemma elem_of_cells c r : c ∈ Grid.cells r ↔ inside c r.
Proof.
  rewrite inside_spec. unfold Grid.cells.
  rewrite list_elem_of_bind. split.
  - intros (col & Hc & Hcol). apply list_elem_of_bind in Hc as (row & Hc & Hrow).
    apply list_elem_of_singleton in Hc as ->.
    apply elem_of_upto in Hcol, Hrow. done.
  - intros [Hcol Hrow]. exists c.1. split; [|by apply elem_of_upto].
    apply list_elem_of_bind. exists c.2. split; [|by apply elem_of_upto].
    apply list_elem_of_singleton. by destruct c.
Qed.

(** The loops visit every cell once. *)
Lemma NoDup_cells r : NoDup (Grid.cells r).
Proof.
  unfold Grid.cells. apply NoDup_bind.
  - intros col1 col2 c _ _ H1 H2.
    apply list_elem_of_bind in H1 as (row1 & H1 & _).
    apply list_elem_of_bind in H2 as (row2 & H2 & _).
    apply list_elem_of_singleton in H1, H2. congruence.
  - intros col _. apply NoDup_bind.
    + intros row1 row2 c _ _ H1 H2.
      apply list_elem_of_singleton in H1, H2. congruence.
    + intros row _. apply NoDup_singleton.
    + apply NoDup_seqZ.
  - apply NoDup_seqZ.
Qed.

(** Inside a window of rows, and with exact ids, the bucket id determines
    the cell. *)
Lemma cellId_inj (lo : Z) c1 c2 :
  cellWithin lo c1 → cellWithin lo c2 →
  cellId c1 = cellId c2 → c1 = c2.
Proof.
  intros (H1 & Hr1 & Hc1) (H2 & Hr2 & Hc2) Heq.
  destruct c1 as [col1 row1], c2 as [col2 row2].
  unfold cellId in Heq. cbn [fst snd] in *.
  destruct (getBucketId_inj col1 row1 col2 row2) as [-> ->];
    [done|done|done|done|lia|done|done].
Qed.

Lemma inside_rows (lo : Z) c r :
  rowsWithin lo r → inside c r → cellWithin lo c.
Proof. unfold rowsWithin, cellWithin. rewrite inside_spec. lia. Qed.

(** The cells of a region within the window have distinct bucket
    ids. *)
Lemma NoDup_cellIds (lo : Z) r :
  rowsWithin lo r → NoDup (cellId <$> Grid.cells r).
Proof.
  intros Hrows. apply NoDup_fmap_2_strong; [|apply NoDup_cells].
  intros c1 c2 H1 H2. apply elem_of_cells in H1, H2.
  apply (cellId_inj lo); by eapply inside_rows.
Qed.

Lemma regionUnion_rows (lo : Z) scratch r1 r2 :
  rowsWithin lo r1 → rowsWithin lo r2 →
  rowsWithin lo (Grid._regionUnion scratch r1 r2).
Proof. unfold rowsWithin, Grid._regionUnion. cbn. lia. Qed.

(** The union covers both regions and nothing is inside both the union
    and neither region only by the bounding box. *)
Lemma inside_regionUnion_l scratch r1 r2 c :
  inside c r1 → inside c (Grid._regionUnion scratch r1 r2).
Proof. rewrite !inside_spec. unfold Grid._regionUnion. cbn. lia. Qed.

Lemma inside_regionUnion_r scratch r1 r2 c :
  inside c r2 → inside c (Grid._regionUnion scratch r1 r2).
Proof. rewrite !inside_spec. unfold Grid._regionUnion. cbn. lia. Qed.

Lemma setRegion_eq scratch r : Grid._setRegion scratch r = r.
Proof. by destruct r. Qed.

Lemma createRegionFrom_eq r : Grid._createRegionFrom r = r.
Proof. by destruct r. Qed.

Lemma isSameRegion_eq r1 r2 :
  Grid._isSameRegion (Some r1) (Some r2) = true ↔ r1 = r2.
Proof.
  destruct r1, r2. cbn. rewrite !andb_true_iff, !Z.eqb_eq.
  split; [intros [[[-> ->] ->] ->]; done | intros [= -> -> -> ->]; done].
Qed.

End Cells.

Section Relocate.

Variables (lo : Z) (h : Heap).
Hypothesis Hids : uniqueIds h.

Implicit Types (g : Grid.t) (body : ref) (c : Z * Z).

Lemma removes_spec (newRegion bodyRegion : Region.t) c :
  removes newRegion bodyRegion c = true
  ↔ ¬ inside c newRegion ∧ inside c bodyRegion.
Proof.
  unfold removes, inside. rewrite andb_true_iff, negb_true_iff.
  by rewrite not_true_iff_false.
Qed.

Lemma adds_spec (forceUpdate createRegion : bool)
    (newRegion bodyRegion : Region.t) c :
  adds forceUpdate createRegion newRegion bodyRegion c = true
  ↔ createRegion = true
    ∨ (inside c newRegion ∧ ¬ inside c bodyRegion)
    ∨ forceUpdate = true.
Proof.
  unfold adds, inside.
  rewrite !orb_true_iff, andb_true_iff, negb_true_iff.
  rewrite not_true_iff_false. tauto.
Qed.

(** The loops of [Grid.update] over the cells of the union, for one
    body.  Without [forceUpdate] the body is in the buckets of its
    recorded region [old] (in none when it has no region); with
    [forceUpdate] it is in no bucket.  Afterwards it is in the buckets of
    the cells of [newRegion] and in no other. *)
Lemma relocate_ok g body (forceUpdate : bool) (old : option Region.t)
    (newRegion scratch : Region.t) :
  BookOk h g →
  rowsWithin lo newRegion →
  (forceUpdate = false → ∀ r, old = Some r → rowsWithin lo r) →
  (if forceUpdate then absent g body
   else ∀ k, body ∈ bucketAt g k
             ↔ ∃ r c, old = Some r ∧ inside c r ∧ cellId c = k) →
  let union :=
    match old with
    | Some r => if forceUpdate then newRegion
                else Grid._regionUnion scratch newRegion r
    | None => newRegion
    end in
  ∃ g',
    forM (Grid.updateCell h body forceUpdate
            (negb (bool_decide (is_Some old))) newRegion
            (default newRegion old))
         g (Grid.cells union) = Some g'
    ∧ BookOk h g' ∧ othersKept body g g' ∧ sameFrame g g'
    ∧ (∀ k, body ∈ bucketAt g' k
            ↔ ∃ c, inside c newRegion ∧ cellId c = k).
Proof.
  intros Hbook Hnew Hold Hstart union.
  set (createRegion := negb (bool_decide (is_Some old))).
  set (bodyRegion := default newRegion old).
  assert (Hunion : rowsWithin lo union).
  { subst union. destruct old as [r|]; [|done].
    destruct forceUpdate; [done|]. apply regionUnion_rows; [done|].
    by apply Hold. }
  assert (Hcover : ∀ c, inside c newRegion → inside c union).
  { subst union. intros c Hc. destruct old as [r|]; [|done].
    destruct forceUpdate; [done|]. by apply inside_regionUnion_l. }
  (* where the body is before the loops *)
  assert (Hbefore : ∀ c, inside c union →
    body ∈ bucketAt g (cellId c)
    ↔ forceUpdate = false ∧ ∃ r, old = Some r ∧ inside c r).
  { intros c Hc. destruct forceUpdate.
    - split; [|intros [? _]; done]. intros Hin. by apply Hstart in Hin.
    - rewrite Hstart. split.
      + intros (r & c' & Hr & Hc' & Hid). split; [done|].
        exists r. split; [done|].
        assert (c' = c) as <-; [|done].
        apply (cellId_inj lo); [| |done].
        * eapply inside_rows; [|done]. by apply Hold.
        * by eapply inside_rows.
      + intros [_ (r & Hr & Hcr)]. by exists r, c. }
  destruct (updateCells_ok h Hids body forceUpdate createRegion
              newRegion bodyRegion (Grid.cells union) g)
    as (g' & Hloop & Hbook' & Hother & Hkept & Hbody & Hframe).
  { by apply (NoDup_cellIds lo). }
  { done. }
  { intros c Hc. apply elem_of_cells in Hc.
    rewrite removes_spec, Hbefore by done.
    intros [Hnotnew Hinold]. subst bodyRegion union.
    destruct old as [r|]; [|done]. cbn in Hinold.
    destruct forceUpdate; [done|]. split; [done|]. by exists r. }
  { intros c Hc. apply elem_of_cells in Hc.
    rewrite adds_spec, Hbefore by done.
    subst createRegion bodyRegion.
    intros Hadd [Hforce (r & -> & Hcr)]. subst forceUpdate. cbn in Hadd.
    destruct Hadd as [?|[[_ ?]|?]]; done. }
  exists g'. split; [done|]. split; [done|]. split; [done|].
  split; [done|].
  intros k. split.
  - intros Hin.
    destruct (decide (k ∈ cellId <$> Grid.cells union)) as [Hk|Hk].
    + apply list_elem_of_fmap in Hk as (c & -> & Hc).
      exists c. split; [|done].
      pose proof Hc as Hcu. apply elem_of_cells in Hcu.
      apply Hbody in Hin; [|done].
      rewrite adds_spec in Hin.
      rewrite <- (not_true_iff_false (removes _ _ _)), removes_spec in Hin.
      rewrite Hbefore in Hin by done.
      subst createRegion bodyRegion union.
      destruct Hin as [[Hcreate|[[? _]|Hforce]]|[[Hnf (r & -> & Hcr)] Hrem]];
        try done.
      * destruct old as [r|]; [|done].
        by rewrite bool_decide_true in Hcreate.
      * subst forceUpdate. by destruct old.
      * cbn in Hrem. destruct (decide (inside c newRegion)); [done|].
        exfalso. by apply Hrem.
    + exfalso. unfold bucketAt in Hin. rewrite Hother in Hin by done.
      fold (bucketAt g k) in Hin.
      destruct forceUpdate; [by apply Hstart in Hin|].
      apply Hstart in Hin as (r & c & -> & Hcr & <-).
      apply Hk. apply list_elem_of_fmap_2. apply elem_of_cells.
      subst union. by apply inside_regionUnion_r.
  - intros (c & Hc & <-).
    pose proof (Hcover c Hc) as Hcu.
    apply Hbody; [by apply elem_of_cells|].
    rewrite adds_spec.
    rewrite <- (not_true_iff_false (removes _ _ _)), removes_spec.
    rewrite Hbefore by done.
    subst createRegion bodyRegion.
    destruct forceUpdate; [by left; right; right|].
    destruct old as [r|]; cbn.
    + destruct (decide (inside c r)) as [Hcr|Hcr].
      * right. split; [split; [done|by exists r]|]. intros [? _]. done.
      * left. right. left. done.
    + by left; left.
Qed.

End Relocate.

(** ** One body of the update *)

Section UpdateBody.

Implicit Types (g : Grid.t) (h : Heap) (body : ref).

Lemma regionOf_ext g g' b b' :
  Grid.bucketWidth g' = Grid.bucketWidth g →
  Grid.bucketHeight g' = Grid.bucketHeight g →
  Body.bounds b' = Body.bounds b →
  regionOf g' b' = regionOf g b.
Proof.
  intros Hw Hh Hb. unfold regionOf, Grid._getRegion.
  by rewrite Hw, Hh, Hb.
Qed.

Lemma processed_ext engine forceUpdate b b' :
  sameBody b b' →
  processed engine forceUpdate b' = processed engine forceUpdate b.
Proof.
  intros (_ & _ & Hs & Hb). unfold processed, Grid.outOfWorld.
  by rewrite Hs, Hb.
Qed.

Lemma sameBody_refl b : sameBody b b.
Proof. by repeat split. Qed.

Lemma sameBody_trans b1 b2 b3 :
  sameBody b1 b2 → sameBody b2 b3 → sameBody b1 b3.
Proof.
  intros (? & ? & ? & ?) (? & ? & ? & ?). repeat split; congruence.
Qed.

Lemma writeRegion_same h body r :
  sameBody (h body) (writeRegion h body r body)
  ∧ Body.region (writeRegion h body r body) = Some r.
Proof. unfold writeRegion. rewrite decide_True by done. by repeat split. Qed.

Lemma writeRegion_other h body r x :
  x ≠ body → writeRegion h body r x = h x.
Proof. intros Hne. unfold writeRegion. by rewrite decide_False. Qed.

Lemma writeRegion_sameBody h body r x :
  sameBody (h x) (writeRegion h body r x).
Proof.
  destruct (decide (x = body)) as [->|Hne].
  - apply writeRegion_same.
  - rewrite writeRegion_other by done. apply sameBody_refl.
Qed.

Lemma quiet_refl g : quiet g g.
Proof. by repeat split. Qed.

Lemma quiet_trans g1 g2 g3 : quiet g1 g2 → quiet g2 g3 → quiet g1 g3.
Proof.
  intros (? & ? & ? & ? & ? & ?) (? & ? & ? & ? & ? & ?).
  repeat split; congruence.
Qed.

(** One turn of the loop over the bodies, with the scratch regions
    written out. *)
Lemma updateBody_eq engine (forceUpdate : bool) g h (gridChanged : bool)
    body :
  Grid.updateBody engine forceUpdate (g, h, gridChanged) body
  = if negb (processed engine forceUpdate (h body))
    then Some (g, h, gridChanged)
    else
      let newRegion := regionOf g (h body) in
      let old := Body.region (h body) in
      let g1 := Grid.set_current newRegion g in
      if regionChanged forceUpdate old newRegion then
        let union :=
          match old with
          | Some r => if forceUpdate then newRegion
                      else Grid._regionUnion (Grid._union g) newRegion r
          | None => newRegion
          end in
        let h1 := match old with
                  | Some _ => h
                  | None => writeRegion h body newRegion
                  end in
        match
          forM (Grid.updateCell h1 body forceUpdate
                  (negb (bool_decide (is_Some old))) newRegion
                  (default newRegion old))
               (Grid.set_union union g1) (Grid.cells union)
        with
        | None => None
        | Some g2 => Some (g2, writeRegion h1 body newRegion, true)
        end
      else Some (g1, h, gridChanged).
Proof.
  unfold Grid.updateBody, processed, regionChanged, regionOf.
  destruct (Body.isSleeping (h body) && negb forceUpdate); [done|].
  destruct (Grid.outOfWorld (h body) (Engine.world engine)); [done|].
  cbn [negb andb]. cbn zeta.
  cbn [Grid._current Grid.set_current Grid._union Grid.set_union].
  destruct (Body.region (h body)) as [r|] eqn:Hr.
  - destruct forceUpdate.
    + rewrite orb_true_r.
      cbn [Grid._current Grid.set_current Grid._union Grid.set_union].
      by rewrite !setRegion_eq.
    + rewrite orb_false_r.
      destruct (negb (bool_decide (is_Some (Some r)))
                || negb (Grid._isSameRegion (Some r) (Some _))); [|done].
      cbn [Grid._current Grid.set_current Grid._union Grid.set_union].
      by rewrite !setRegion_eq.
  - rewrite bool_decide_false by (by intros [? ?]).
    cbn [negb orb].
    cbn [Grid._current Grid.set_current Grid._union Grid.set_union].
    by rewrite !setRegion_eq, !createRegionFrom_eq.
Qed.

End UpdateBody.

Section UpdateBodyOk.

Variable lo : Z.

Implicit Types (g : Grid.t) (h : Heap) (body : ref).

Lemma uniqueIds_ext h h' :
  (∀ x, sameBody (h x) (h' x)) → uniqueIds h → uniqueIds h'.
Proof.
  intros Hsame Hids a b Hab. apply Hids.
  destruct (Hsame a) as (Ha & _), (Hsame b) as (Hb & _). congruence.
Qed.

Lemma BookOk_sameBody h h' g g' :
  (∀ x, sameBody (h x) (h' x)) →
  Grid.buckets g' = Grid.buckets g →
  Grid.freeBuckets g' = Grid.freeBuckets g →
  Grid.pairs g' = Grid.pairs g →
  BookOk h g → BookOk h' g'.
Proof.
  intros Hsame. apply BookOk_ext; intros x; by destruct (Hsame x) as (? & ? & _).
Qed.

Lemma registered_ext h h' g g' x :
  Body.region (h' x) = Body.region (h x) →
  (∀ k, x ∈ bucketAt g' k ↔ x ∈ bucketAt g k) →
  registered h g x → registered h' g' x.
Proof.
  intros Hr Hb Hreg k. rewrite Hb, (Hreg k). unfold occupies.
  by rewrite Hr.
Qed.

(** One turn of the loop over the bodies.  Without [forceUpdate] the
    body must be registered, with [forceUpdate] it must be in no
    bucket. *)
Lemma updateBody_ok engine (forceUpdate : bool) g h (ch : bool) body :
  uniqueIds h → BookOk h g →
  (if forceUpdate then absent g body else registered h g body) →
  (forceUpdate = false →
   ∀ r, Body.region (h body) = Some r → rowsWithin lo r) →
  (processed engine forceUpdate (h body) = true →
   rowsWithin lo (regionOf g (h body))) →
  ∃ g' h' ch',
    Grid.updateBody engine forceUpdate (g, h, ch) body = Some (g', h', ch')
    ∧ BookOk h' g'
    ∧ othersKept body g g'
    ∧ (∀ x, x ≠ body → h' x = h x)
    ∧ sameBody (h body) (h' body)
    ∧ (if processed engine forceUpdate (h body)
       then Body.region (h' body) = Some (regionOf g (h body))
            ∧ registered h' g' body
       else g' = g ∧ h' = h ∧ ch' = ch)
    ∧ (ch' = true ∨ (ch' = ch ∧ quiet g g' ∧ h' = h))
    ∧ Grid.pairsList g' = Grid.pairsList g
    ∧ Grid.bucketWidth g' = Grid.bucketWidth g
    ∧ Grid.bucketHeight g' = Grid.bucketHeight g.
Proof.
  intros Hids Hbook Hstart Hold Hnew. rewrite updateBody_eq.
  destruct (processed engine forceUpdate (h body)) eqn:Hproc; cbn [negb].
  2:{ exists g, h, ch. split; [done|]. split; [done|].
      split; [apply othersKept_refl|]. split; [done|].
      split; [apply sameBody_refl|]. split; [done|].
      split; [right; split; [done|]; split; [apply quiet_refl|done]|].
      done. }
  specialize (Hnew eq_refl). cbn zeta.
  set (newRegion := regionOf g (h body)) in *.
  set (old := Body.region (h body)) in *.
  set (g1 := Grid.set_current newRegion g).
  destruct (regionChanged forceUpdate old newRegion) eqn:Hch.
  - (* the body moves *)
    set (union := match old with
                  | Some r => if forceUpdate then newRegion
                              else Grid._regionUnion (Grid._union g) newRegion r
                  | None => newRegion
                  end).
    set (h1 := match old with
               | Some _ => h
               | None => writeRegion h body newRegion
               end).
    assert (Hsame1 : ∀ x, sameBody (h x) (h1 x)).
    { intros x. subst h1. destruct old; [apply sameBody_refl|].
      apply writeRegion_sameBody. }
    assert (Hids1 : uniqueIds h1) by (by eapply uniqueIds_ext).
    assert (Hbook1 : BookOk h1 (Grid.set_union union g1))
      by (by apply (BookOk_sameBody h h1 g)).
    assert (Hat : ∀ k, bucketAt (Grid.set_union union g1) k = bucketAt g k)
      by done.
    destruct (relocate_ok lo h1 Hids1 (Grid.set_union union g1) body
                forceUpdate old newRegion (Grid._union g) Hbook1 Hnew)
      as (g2 & Hloop & Hbook2 & Hkept & Hframe & Hbody).
    { intros Hf r Hr. by apply Hold. }
    { destruct forceUpdate; [done|]. intros k. rewrite Hat. apply Hstart. }
    fold union in Hloop. rewrite Hloop.
    destruct Hframe as (Hl & Hw & Hh & _).
    eexists _, _, _. split; [done|].
    split.
    { apply (BookOk_sameBody h1 _ g2); try done.
      intros x. apply writeRegion_sameBody. }
    split; [done|].
    split.
    { intros x Hx. rewrite writeRegion_other by done. subst h1.
      destruct old; [done|]. by rewrite writeRegion_other. }
    split.
    { eapply sameBody_trans; [apply Hsame1|]. apply writeRegion_same. }
    split.
    { split; [apply writeRegion_same|].
      intros k. rewrite Hbody. unfold occupies.
      destruct (writeRegion_same h1 body newRegion) as [_ ->].
      split.
      - intros (c & Hc & Hk). by exists newRegion, c.
      - intros (r & c & [= <-] & Hc & Hk). by exists c. }
    split; [by left|]. done.
  - (* the body stays *)
    unfold regionChanged in Hch.
    apply orb_false_elim in Hch as [Hch ->].
    apply orb_false_elim in Hch as [Hsome Hsame].
    apply negb_false_iff in Hsome, Hsame.
    apply bool_decide_eq_true in Hsome as [r Hr].
    rewrite Hr in Hsame. apply isSameRegion_eq in Hsame as ->.
    exists g1, h, ch. split; [done|].
    split; [by apply (BookOk_ext h h g)|].
    split; [done|]. split; [done|]. split; [apply sameBody_refl|].
    split; [split; [done|]; by eapply registered_ext|].
    split; [right; by repeat split|]. done.
Qed.

End UpdateBodyOk.

(** ** The loop over the bodies *)

Section UpdateBodies.

Variables (lo : Z) (engine : Engine.t).

Implicit Types (g : Grid.t) (h : Heap) (body : ref) (bodies : list ref).

Lemma fits_ext forceUpdate g g' h h' body :
  Grid.bucketWidth g' = Grid.bucketWidth g →
  Grid.bucketHeight g' = Grid.bucketHeight g →
  sameBody (h body) (h' body) →
  fits lo engine forceUpdate g h body → fits lo engine forceUpdate g' h' body.
Proof.
  intros Hw Hh Hsame Hfits Hproc.
  rewrite (processed_ext _ _ _ _ Hsame) in Hproc.
  rewrite (regionOf_ext g g' (h body) (h' body)); [by apply Hfits|done..|].
  by destruct Hsame as (_ & _ & _ & ?).
Qed.

Lemma absent_ext g g' x :
  (∀ k, x ∈ bucketAt g' k ↔ x ∈ bucketAt g k) → absent g x → absent g' x.
Proof. intros Hb Habs k. rewrite Hb. apply Habs. Qed.

(** The loop over the bodies.  Without [forceUpdate] the bodies that
    are processed must be registered; with [forceUpdate] they must be in
    no bucket, and none may be listed twice. *)
Lemma updateBodies_ok (forceUpdate : bool) bodies g h (ch : bool) :
  Coherent lo h g →
  (∀ body, body ∈ bodies → fits lo engine forceUpdate g h body) →
  (if forceUpdate then NoDup bodies ∧ allAbsent engine g h bodies
   else allRegistered engine g h bodies) →
  ∃ g' h' ch',
    forM (Grid.updateBody engine forceUpdate) (g, h, ch) bodies
      = Some (g', h', ch')
    ∧ Coherent lo h' g'
    ∧ (∀ x, sameBody (h x) (h' x))
    ∧ (∀ x, x ∈ bodies → processed engine forceUpdate (h x) = true →
            Body.region (h' x) = Some (regionOf g (h x))
            ∧ registered h' g' x)
    ∧ (∀ x, untouched engine forceUpdate h bodies x →
            h' x = h x ∧ ∀ k, x ∈ bucketAt g' k ↔ x ∈ bucketAt g k)
    ∧ (ch' = true ∨ (ch' = ch ∧ quiet g g' ∧ h' = h))
    ∧ Grid.pairsList g' = Grid.pairsList g
    ∧ Grid.bucketWidth g' = Grid.bucketWidth g
    ∧ Grid.bucketHeight g' = Grid.bucketHeight g.
Proof.
  revert g h ch.
  induction bodies as [|b bodies IH]; intros g h ch Hcoh Hfits Hstart.
  { exists g, h, ch. split; [done|]. split; [done|].
    split; [intros; apply sameBody_refl|].
    split; [intros x Hx; by apply elem_of_nil in Hx|].
    split; [done|].
    split; [right; split; [done|]; split; [apply quiet_refl|done]|].
    done. }
  destruct Hcoh as [Hids Hbook Hreg Hrows].
  assert (Hb : b ∈ b :: bodies) by (apply elem_of_cons; by left).
  assert (Hstartb : processed engine forceUpdate (h b) = true →
            if forceUpdate then absent g b else registered h g b).
  { intros Hp. destruct forceUpdate.
    - destruct Hstart as [_ Habs]. by apply Habs.
    - by apply Hstart. }
  assert (Hturn : ∃ g1 h1 ch1,
    Grid.updateBody engine forceUpdate (g, h, ch) b = Some (g1, h1, ch1)
    ∧ BookOk h1 g1
    ∧ othersKept b g g1
    ∧ (∀ x, x ≠ b → h1 x = h x)
    ∧ sameBody (h b) (h1 b)
    ∧ (if processed engine forceUpdate (h b)
       then Body.region (h1 b) = Some (regionOf g (h b))
            ∧ registered h1 g1 b
       else g1 = g ∧ h1 = h ∧ ch1 = ch)
    ∧ (ch1 = true ∨ (ch1 = ch ∧ quiet g g1 ∧ h1 = h))
    ∧ Grid.pairsList g1 = Grid.pairsList g
    ∧ Grid.bucketWidth g1 = Grid.bucketWidth g
    ∧ Grid.bucketHeight g1 = Grid.bucketHeight g).
  { destruct (processed engine forceUpdate (h b)) eqn:Hp.
    - pose proof (updateBody_ok lo engine forceUpdate g h ch b Hids Hbook)
        as Hok.
      rewrite Hp in Hok. apply Hok.
      + by apply Hstartb.
      + intros _ r. apply Hrows.
      + intros _. by apply (Hfits b Hb).
    - exists g, h, ch. rewrite updateBody_eq, Hp. cbn [negb].
      split; [done|]. split; [done|]. split; [apply othersKept_refl|].
      split; [done|]. split; [apply sameBody_refl|]. split; [done|].
      split; [right; split; [done|]; split; [apply quiet_refl|done]|].
      done. }
  destruct Hturn as (g1 & h1 & ch1 & Hstep & Hbook1 & Hkept1 & Hheap1
                     & Hsame1 & Hproc1 & Hch1 & Hl1 & Hw1 & Hh1).
  assert (Hsame1' : ∀ x, sameBody (h x) (h1 x)).
  { intros x. destruct (decide (x = b)) as [->|Hne]; [done|].
    rewrite Hheap1 by done. apply sameBody_refl. }
  assert (Hkeep : ∀ x, x ≠ b →
    (registered h g x → registered h1 g1 x)
    ∧ (absent g x → absent g1 x)).
  { intros x Hne. split.
    - apply (registered_ext h h1 g g1); [by rewrite Hheap1|].
      intros k. by apply Hkept1.
    - apply absent_ext. intros k. by apply Hkept1. }
  assert (Hcoh1 : Coherent lo h1 g1).
  { split.
    - by eapply uniqueIds_ext.
    - done.
    - intros x. destruct (decide (x = b)) as [->|Hne].
      + destruct (processed engine forceUpdate (h b)).
        * left. by destruct Hproc1.
        * destruct Hproc1 as (-> & -> & _). apply Hreg.
      + destruct (Hkeep x Hne) as [Hr Ha].
        destruct (Hreg x); [left; by apply Hr|right; by apply Ha].
    - intros x r. destruct (decide (x = b)) as [->|Hne].
      + destruct (processed engine forceUpdate (h b)) eqn:Hp.
        * destruct Hproc1 as [-> _]. intros [= <-]. by apply Hfits.
        * destruct Hproc1 as (_ & -> & _). apply Hrows.
      + rewrite Hheap1 by done. apply Hrows. }
  destruct (IH g1 h1 ch1 Hcoh1)
    as (g2 & h2 & ch2 & Hloop & Hcoh2 & Hsame2 & Hregion2 & Hun2
        & Hch2 & Hl2 & Hw2 & Hh2).
  { intros x Hx. apply (fits_ext forceUpdate g g1 h h1); try done.
    apply Hfits. apply elem_of_cons. by right. }
  { destruct forceUpdate.
    - destruct Hstart as [Hnd Habs].
      apply NoDup_cons in Hnd as [Hnotin Hnd]. split; [done|].
      intros x Hx Hp.
      assert (Hne : x ≠ b) by (by intros ->).
      apply (Hkeep x Hne). apply Habs; [apply elem_of_cons; by right|].
      by rewrite <- (processed_ext _ _ _ _ (Hsame1' x)).
    - intros x Hx Hp.
      rewrite (processed_ext _ _ _ _ (Hsame1' x)) in Hp.
      destruct (decide (x = b)) as [->|Hne].
      + rewrite Hp in Hproc1. by destruct Hproc1.
      + apply (Hkeep x Hne). apply Hstart; [|done].
        apply elem_of_cons. by right. }
  exists g2, h2, ch2.
  split; [cbn [forM]; by rewrite Hstep|]. split; [done|].
  split; [intros x; by eapply sameBody_trans|].
  split.
  { intros x Hx Hp.
    destruct (decide (x ∈ bodies)) as [Hin|Hnotin].
    - destruct (Hregion2 x Hin) as [Hr2 Hreg2];
        [by rewrite (processed_ext _ _ _ _ (Hsame1' x))|].
      split; [|done]. rewrite Hr2. f_equal. apply regionOf_ext; try done.
      by destruct (Hsame1' x) as (_ & _ & _ & ?).
    - apply elem_of_cons in Hx as [->|Hx]; [|done].
      destruct (Hun2 b) as [Hh2b Hb2b]; [by intros ?|].
      rewrite Hp in Hproc1. destruct Hproc1 as [Hr1 Hreg1].
      split; [by rewrite Hh2b|].
      apply (registered_ext h1 h2 g1 g2); [by rewrite Hh2b|done|done]. }
  split.
  { intros x Hx.
    assert (Hx2 : untouched engine forceUpdate h1 bodies x).
    { intros Hin. rewrite (processed_ext _ _ _ _ (Hsame1' x)).
      apply Hx. apply elem_of_cons. by right. }
    destruct (Hun2 x Hx2) as [Hh2x Hb2x]. rewrite Hh2x.
    destruct (decide (x = b)) as [->|Hne].
    - rewrite Hx in Hproc1 by (apply elem_of_cons; by left).
      destruct Hproc1 as (-> & -> & _). split; [done|]. apply Hb2x.
    - split; [by apply Hheap1|]. intros k. rewrite Hb2x. by apply Hkept1. }
  split.
  { destruct Hch2 as [->|(-> & Hq2 & ->)]; [by left|].
    destruct Hch1 as [->|(-> & Hq1 & ->)]; [by left|].
    right. split; [done|]. split; [by eapply quiet_trans|done]. }
  split; [congruence|]. split; congruence.
Qed.

End UpdateBodies.

(** ** The update *)

Section Update.

Variables (lo : Z) (engine : Engine.t).

Implicit Types (g : Grid.t) (h : Heap) (body : ref) (bodies : list ref).

(** The extraction leaves the list and the table in agreement. *)
Lemma createActivePairsList_synced g :
  Synced (Grid._createActivePairsList g).
Proof.
  destruct (createActivePairsList_spec g) as (Hlist & Hpairs & _).
  unfold Synced. rewrite Hlist, Hpairs. split; [|split].
  - apply NoDup_fmap_fst.
    + intros k r1 r2 H1 H2.
      apply list_elem_of_filter in H1 as [_ H1].
      apply list_elem_of_filter in H2 as [_ H2].
      apply elem_of_map_to_list in H1, H2. congruence.
    + apply NoDup_filter, NoDup_map_to_list.
  - intros key. rewrite list_elem_of_fmap. split.
    + intros ([k record] & -> & Hin).
      apply list_elem_of_filter in Hin as [Hact Hin].
      apply elem_of_map_to_list in Hin. exists record.
      by apply map_lookup_filter_Some.
    + intros [record Hlook].
      apply map_lookup_filter_Some in Hlook as [Hlook Hact].
      exists (key, record). split; [done|].
      apply list_elem_of_filter. split; [done|].
      by apply elem_of_map_to_list.
  - intros key record Hlook.
    by apply map_lookup_filter_Some in Hlook as [_ Hact].
Qed.

(** The extraction only deletes records whose bodies share no cell. *)
Lemma createActivePairsList_book h g :
  BookOk h g → BookOk h (Grid._createActivePairsList g).
Proof.
  intros [Hnodup Hpool Hwf Hcount Hstatic].
  destruct (createActivePairsList_spec g)
    as (_ & Hpairs & Hb & Hf & _).
  split.
  - intros k bucket. rewrite Hb. apply Hnodup.
  - intros bucket. rewrite Hf. apply Hpool.
  - rewrite Hpairs. by apply pairsWf_filter.
  - intros a b Hc. specialize (Hcount a b Hc).
    unfold sharedCells. rewrite Hb. fold (sharedCells g a b).
    rewrite <- Hcount. unfold pairCount. rewrite Hpairs.
    destruct (Grid.pairs g !! Pair.id (h a) (h b)) as [record|] eqn:Hlook.
    + destruct (decide (active (Pair.id (h a) (h b), record))) as [Hact|Hna].
      * by rewrite (map_lookup_filter_Some_2 _ _ _ _ Hlook Hact).
      * rewrite map_lookup_filter_None_2.
        -- unfold pairCount in Hcount. rewrite Hlook in Hcount.
           unfold active in Hna. cbn in Hna. lia.
        -- right. intros record' Hlook'. rewrite Hlook in Hlook'.
           by injection Hlook' as <-.
    + rewrite map_lookup_filter_None_2; [done|by left].
  - intros a b Hst. rewrite Hpairs.
    apply map_lookup_filter_None_2. left. by apply Hstatic.
Qed.

Lemma Coherent_ext h g g' :
  Grid.buckets g' = Grid.buckets g →
  BookOk h g' →
  Coherent lo h g → Coherent lo h g'.
Proof.
  intros Hb Hbook [Hids _ Hreg Hrows]. split; try done.
  assert (Hat : ∀ k, bucketAt g' k = bucketAt g k)
    by (intros k; unfold bucketAt; by rewrite Hb).
  intros body. destruct (Hreg body) as [Hr|Ha]; [left|right].
  - intros k. rewrite Hat. apply Hr.
  - intros k. rewrite Hat. apply Ha.
Qed.

(** A body that is in a bucket has not lost its buckets. *)
Lemma registered_member h g body (k : Z) :
  Coherent lo h g → body ∈ bucketAt g k → registered h g body.
Proof.
  intros [_ _ Hreg _] Hin. destruct (Hreg body) as [Hr|Ha]; [done|].
  by apply Ha in Hin.
Qed.

(** A body without a region is registered: it is in no bucket. *)
Lemma registered_noRegion h g body :
  Coherent lo h g → Body.region (h body) = None → registered h g body.
Proof.
  intros [_ _ Hreg _] Hnone. destruct (Hreg body) as [Hr|Ha]; [done|].
  intros k. split; [by intros ?%Ha|].
  intros (r & c & Hr & _). by rewrite Hnone in Hr.
Qed.

(** [Grid.update] from a consistent state: it returns, and the state it
    returns is consistent. *)
Lemma update_ok (forceUpdate : bool) bodies g h :
  Consistent lo h g →
  (∀ body, body ∈ bodies → fits lo engine forceUpdate g h body) →
  (if forceUpdate then NoDup bodies ∧ allAbsent engine g h bodies
   else allRegistered engine g h bodies) →
  ∃ g' h',
    Grid.update g h bodies engine forceUpdate = Some (g', h')
    ∧ Consistent lo h' g'
    ∧ (∀ x, sameBody (h x) (h' x))
    ∧ (∀ x, x ∈ bodies → processed engine forceUpdate (h x) = true →
            Body.region (h' x) = Some (regionOf g (h x))
            ∧ registered h' g' x)
    ∧ (∀ x, untouched engine forceUpdate h bodies x →
            h' x = h x ∧ ∀ k, x ∈ bucketAt g' k ↔ x ∈ bucketAt g k)
    ∧ Grid.bucketWidth g' = Grid.bucketWidth g
    ∧ Grid.bucketHeight g' = Grid.bucketHeight g.
Proof.
  intros [Hcoh Hsync] Hfits Hstart.
  destruct (updateBodies_ok lo engine forceUpdate bodies g h false
              Hcoh Hfits Hstart)
    as (g1 & h1 & ch1 & Hloop & Hcoh1 & Hsame & Hregion & Hun & Hch
        & Hl & Hw & Hh).
  unfold Grid.update, Grid.updateBodies. rewrite Hloop.
  destruct (createActivePairsList_spec g1)
    as (_ & _ & Hb & Hf & Hw' & Hh' & _).
  destruct ch1.
  - eexists _, _. split; [done|].
    assert (Hat : ∀ k, bucketAt (Grid._createActivePairsList g1) k
                       = bucketAt g1 k)
      by (intros k; unfold bucketAt; by rewrite Hb).
    split; [split|].
    + apply (Coherent_ext h1 g1); try done.
      apply createActivePairsList_book. by destruct Hcoh1.
    + apply createActivePairsList_synced.
    + split; [done|]. split; [|split; [|split; congruence]].
      * intros x Hx Hp. destruct (Hregion x Hx Hp) as [Hr Hreg].
        split; [done|]. intros k. rewrite Hat. apply Hreg.
      * intros x Hx. destruct (Hun x Hx) as [Hhx Hbx]. split; [done|].
        intros k. rewrite Hat. apply Hbx.
  - destruct Hch as [?|(_ & Hq & ->)]; [done|].
    destruct Hq as (Hqb & Hqf & Hqp & Hql & _).
    eexists _, _. split; [done|].
    split; [split; [done|]|].
    + unfold Synced. by rewrite Hqp, Hql.
    + split; [done|]. split; [done|]. split; [done|]. by split.
Qed.

(** A grid without buckets and without pair records has its books in
    order. *)
Lemma BookOk_empty h g :
  Grid.buckets g = ∅ → Grid.pairs g = ∅ →
  (∀ bucket, bucket ∈ Grid.freeBuckets g → bucket = []) →
  BookOk h g.
Proof.
  intros Hb Hp Hpool. split.
  - intros k bucket. by rewrite Hb, lookup_empty.
  - done.
  - rewrite Hp. apply pairsWf_empty.
  - intros a b _. unfold pairCount, sharedCells, sharedIn.
    by rewrite Hb, Hp, lookup_empty, map_filter_empty, map_size_empty.
  - intros a b _. by rewrite Hp, lookup_empty.
Qed.

(** [Grid.clear] leaves a consistent state, in which every body has
    lost its buckets. *)
Lemma clear_consistent h g :
  Consistent lo h g →
  Consistent lo h (Grid.clear g) ∧ ∀ body, absent (Grid.clear g) body.
Proof.
  intros [[Hids Hbook _ Hrows] _].
  destruct (clear_spec g) as (Hb & Hf & Hp & Hl & _).
  assert (Habsent : ∀ body, absent (Grid.clear g) body).
  { intros body k. unfold bucketAt. rewrite Hb, lookup_empty.
    apply not_elem_of_nil. }
  split; [|done]. split; [split; try done|].
  - apply BookOk_empty; try done.
    intros bucket. rewrite Hf, elem_of_app. intros [Hin|Hin].
    + by apply (book_pool h g Hbook).
    + by apply elem_of_replicate in Hin as [? _].
  - intros body. right. apply Habsent.
  - unfold Synced. rewrite Hp, Hl. split; [apply NoDup_nil_2|].
    split.
    + intros key. rewrite lookup_empty. split.
      * by intros ?%elem_of_nil.
      * by intros [? ?].
    + intros key record. by rewrite lookup_empty.
Qed.

End Update.

(** ** The states of normal operation *)

Section Tracked.

Variable lo : Z.

Implicit Types (g : Grid.t) (h : Heap).

Lemma Consistent_create options h :
  uniqueIds h → (∀ x, Body.region (h x) = None) →
  Consistent lo h (Grid.create options).
Proof.
  intros Hids Hnone. split; [split; try done|].
  - apply BookOk_empty; try done. intros bucket. by intros ?%elem_of_nil.
  - intros body. right. intros k. unfold bucketAt. cbn.
    rewrite lookup_empty. apply not_elem_of_nil.
  - intros body r. by rewrite Hnone.
  - split; [apply NoDup_nil_2|]. split.
    + intros key. cbn. rewrite lookup_empty. split.
      * by intros ?%elem_of_nil.
      * by intros [? ?].
    + intros key record. cbn. by rewrite lookup_empty.
Qed.

Lemma Consistent_external g h h' :
  Consistent lo h g → external h h' → Consistent lo h' g.
Proof.
  intros [[Hids Hbook Hreg Hrows] Hsync] Hext. split; [split|done].
  - intros a b Hab. apply Hids.
    destruct (Hext a) as (Ha & _), (Hext b) as (Hb & _). congruence.
  - apply (BookOk_ext h h' g g); try done;
      intros x; by destruct (Hext x) as (? & ? & ?).
  - intros body. destruct (Hreg body) as [Hr|Ha]; [left|by right].
    apply (registered_ext h h' g g); [|done|done].
    by destruct (Hext body) as (_ & _ & ?).
  - intros body r. destruct (Hext body) as (_ & _ & ->). apply Hrows.
Qed.

(** Normal operation keeps the state consistent. *)
Lemma Tracked_consistent g h : Tracked lo g h → Consistent lo h g.
Proof.
  induction 1 as [options h Hids Hnone
                 | g h h' _ IH Hext
                 | g h bodies engine g' h' _ IH Hfits Hreg Hupd
                 | g h _ IH
                 | g h bodies engine g' h' _ IH Hfits Hnd Habs Hupd].
  - by apply Consistent_create.
  - by eapply Consistent_external.
  - destruct (update_ok lo engine false bodies g h IH Hfits Hreg)
      as (g'' & h'' & Hupd' & Hcons & _).
    rewrite Hupd in Hupd'. by injection Hupd' as -> ->.
  - by apply clear_consistent.
  - destruct (update_ok lo engine true bodies g h IH Hfits (conj Hnd Habs))
      as (g'' & h'' & Hupd' & Hcons & _).
    rewrite Hupd in Hupd'. by injection Hupd' as -> ->.
Qed.

End Tracked.

(** ** The update in any state *)

Section AnyState.

Implicit Types (g : Grid.t) (h : Heap) (body : ref) (bucket : list ref).

Lemma anyStep_refl h body g : anyStep h body g g.
Proof.
  split; [apply sameFrame_refl|]. split; [done|]. split; [done|]. done.
Qed.

Lemma anyStep_trans h body g1 g2 g3 :
  anyStep h body g1 g2 → anyStep h body g2 g3 → anyStep h body g1 g3.
Proof.
  intros (Hf1 & Hwf1 & Hp1 & Hx1) (Hf2 & Hwf2 & Hp2 & Hx2).
  split; [by eapply sameFrame_trans|]. split; [tauto|].
  split; [intros bucket Hb; by apply Hp1, Hp2|].
  intros x Hx Hpool k Hin. apply Hx1; [done..|]. apply Hx2; [done| |done].
  intros bucket Hb. apply Hpool. by apply Hp1.
Qed.

Lemma bucketAt_set_buckets g g0 (k k' : Z) bucket :
  bucketAt (Grid.set_buckets (<[k := bucket]> (Grid.buckets g)) g0) k'
  = if decide (k' = k) then bucket else bucketAt g k'.
Proof. by apply bucketAt_insert. Qed.

(** The array that [swapRemove] leaves holds no new element. *)
Lemma swapRemove_subset bucket (index : Z) bucket' :
  Grid.swapRemove bucket index = Some bucket' →
  ∀ x, x ∈ bucket' → x ∈ bucket.
Proof.
  unfold Grid.swapRemove.
  destruct (last bucket) as [lastBody|] eqn:Hlast; [|done].
  intros [= <-] x Hx. apply elem_of_take in Hx as (i & Hx & _).
  apply last_Some_elem_of in Hlast.
  destruct (index =? -1); [by eapply list_elem_of_lookup_2|].
  destruct (decide (i = Z.to_nat index)) as [->|Hne].
  - apply list_lookup_insert_Some in Hx as [(_ & <- & _)|[? _]]; done.
  - rewrite list_lookup_insert_ne in Hx by done.
    by eapply list_elem_of_lookup_2.
Qed.

Lemma bucketRemoveBody_any h g k bucket body g' :
  Grid.buckets g !! k = Some bucket →
  Grid._bucketRemoveBody h g k bucket body = Some g' →
  anyStep h body g g'.
Proof.
  intros Hk. unfold Grid._bucketRemoveBody.
  destruct (Grid.swapRemove bucket (Common.indexOf bucket body))
    as [bucket'|] eqn:Hswap; [|done].
  intros [= <-]. split; [by repeat split|].
  split; [apply foldl_removePair_wf|]. split; [done|].
  intros x _ _ k'.
  rewrite bucketAt_set_buckets.
  case_decide as Hkk; [|done]. subst k'. unfold bucketAt. rewrite Hk. cbn.
  by eapply swapRemove_subset.
Qed.

Lemma bucketAddBody_any h g k bucket body :
  bucketAt g k = bucket →
  anyStep h body g (Grid._bucketAddBody h g k bucket body).
Proof.
  intros Hk. split; [by repeat split|].
  split; [apply foldl_addPair_wf|]. split; [done|].
  intros x Hx _ k'.
  unfold Grid._bucketAddBody. rewrite bucketAt_set_buckets.
  case_decide as Hkk; [|done]. subst k'. rewrite Hk.
  rewrite elem_of_app, list_elem_of_singleton. tauto.
Qed.

Lemma createBucket_any h g k body g' bucket :
  Grid.buckets g !! k = None →
  Grid._createBucket g k = (g', bucket) →
  anyStep h body g g'
  ∧ bucketAt g' k = bucket
  ∧ (bucket = [] ∨ bucket ∈ Grid.freeBuckets g).
Proof.
  intros Hk. unfold Grid._createBucket.
  destruct (reverse (Grid.freeBuckets g)) as [|popped rest] eqn:Hrev.
  - intros [= <- <-]. split; [|split].
    + split; [by repeat split|]. split; [done|]. split; [done|].
      intros x _ _ k'. rewrite bucketAt_set_buckets.
      case_decide; [by intros ?%elem_of_nil|done].
    + unfold bucketAt. cbn. by rewrite lookup_insert_eq.
    + by left.
  - assert (Hpool : Grid.freeBuckets g = reverse rest ++ [popped]).
    { rewrite <- (reverse_involutive (Grid.freeBuckets g)), Hrev.
      by rewrite reverse_cons. }
    intros [= <- <-]. split; [|split].
    + split; [by repeat split|]. split; [done|].
      split.
      * intros bucket Hb. cbn in Hb. rewrite Hpool, elem_of_app. by left.
      * intros x _ Hclean k'.
        rewrite bucketAt_set_buckets.
        case_decide; [|done]. intros Hin. exfalso.
        apply (Hclean popped); [|done].
        rewrite Hpool, elem_of_app, list_elem_of_singleton. by right.
    + unfold bucketAt. cbn. by rewrite lookup_insert_eq.
    + right. rewrite Hpool, elem_of_app, list_elem_of_singleton. by right.
Qed.

(** One cell, in any state. *)
Lemma updateCell_any h body (forceUpdate createRegion : bool)
    (newRegion bodyRegion : Region.t) g cell g' :
  Grid.updateCell h body forceUpdate createRegion newRegion bodyRegion g cell
    = Some g' →
  anyStep h body g g'.
Proof.
  destruct cell as [col row]. unfold Grid.updateCell.
  set (k := Grid._getBucketId col row).
  set (rm := negb (Grid.isInside col row newRegion)
             && Grid.isInside col row bodyRegion).
  set (ad := createRegion
             || Grid.isInside col row newRegion
                && negb (Grid.isInside col row bodyRegion)
             || forceUpdate).
  clearbody rm ad.
  assert (Hremove : ∀ g1,
    (if rm then
       match Grid.buckets g !! k with
       | Some bucket => Grid._bucketRemoveBody h g k bucket body
       | None => Some g
       end
     else Some g) = Some g1 → anyStep h body g g1).
  { intros g1. destruct rm; [|intros [= <-]; apply anyStep_refl].
    destruct (Grid.buckets g !! k) as [bucket|] eqn:Hk.
    - by apply bucketRemoveBody_any.
    - intros [= <-]. apply anyStep_refl. }
  destruct (if rm then _ else _) as [g1|]; [|done].
  specialize (Hremove g1 eq_refl).
  destruct ad; [|intros [= <-]; done].
  destruct (Grid.buckets g1 !! k) as [bucket|] eqn:Hk1.
  - intros [= <-]. eapply anyStep_trans; [done|].
    apply bucketAddBody_any. unfold bucketAt. by rewrite Hk1.
  - destruct (Grid._createBucket g1 k) as [g2 bucket] eqn:Hcreate.
    intros [= <-].
    destruct (createBucket_any h g1 k body g2 bucket Hk1 Hcreate)
      as (Hstep & Hat & _).
    eapply anyStep_trans; [done|]. eapply anyStep_trans; [done|].
    by apply bucketAddBody_any.
Qed.

Lemma updateCells_any h body (forceUpdate createRegion : bool)
    (newRegion bodyRegion : Region.t) (cs : list (Z * Z)) g g' :
  forM (Grid.updateCell h body forceUpdate createRegion newRegion bodyRegion)
       g cs = Some g' →
  anyStep h body g g'.
Proof.
  revert g. induction cs as [|c cs IH]; intros g.
  - intros [= <-]. apply anyStep_refl.
  - cbn [forM].
    destruct (Grid.updateCell h body forceUpdate createRegion newRegion
                bodyRegion g c) as [g1|] eqn:Hstep; [|done].
    intros Hrest. eapply anyStep_trans.
    + by eapply updateCell_any.
    + by apply IH.
Qed.

End AnyState.

Section AnyUpdate.

Variable engine : Engine.t.

Implicit Types (g : Grid.t) (h : Heap) (body : ref) (bodies : list ref).

Lemma pairsWf_sameBody h h' pairs :
  (∀ x, sameBody (h x) (h' x)) → pairsWf h pairs → pairsWf h' pairs.
Proof.
  intros Hsame. apply pairsWf_ext. intros x. by destruct (Hsame x).
Qed.

(** One turn of the loop over the bodies, in any state. *)
Lemma updateBody_any (forceUpdate : bool) g h (ch : bool) body g' h' ch' :
  Grid.updateBody engine forceUpdate (g, h, ch) body = Some (g', h', ch') →
  anyTurn h h' g g'
  ∧ (∀ x, x ≠ body → h' x = h x)
  ∧ (∀ x, x ≠ body → notPooled g x →
          ∀ k, x ∈ bucketAt g' k → x ∈ bucketAt g k)
  ∧ (if processed engine forceUpdate (h body)
     then Body.region (h' body) = Some (regionOf g (h body))
     else g' = g ∧ h' = h ∧ ch' = ch)
  ∧ (ch' = true ∨ (ch' = ch ∧ quiet g g' ∧ h' = h)).
Proof.
  rewrite updateBody_eq.
  destruct (processed engine forceUpdate (h body)) eqn:Hproc; cbn [negb].
  2:{ intros [= <- <- <-]. split.
      { split; [done|]. split; [done|]. split; [done|]. split; [done|].
        split; [done|]. intros; apply sameBody_refl. }
      split; [done|]. split; [done|]. split; [done|].
      right. split; [done|]. split; [apply quiet_refl|done]. }
  cbn zeta.
  set (newRegion := regionOf g (h body)).
  set (old := Body.region (h body)).
  set (g1 := Grid.set_current newRegion g).
  destruct (regionChanged forceUpdate old newRegion) eqn:Hch.
  - set (union := match old with
                  | Some r => if forceUpdate then newRegion
                              else Grid._regionUnion (Grid._union g) newRegion r
                  | None => newRegion
                  end).
    set (h1 := match old with
               | Some _ => h
               | None => writeRegion h body newRegion
               end).
    assert (Hsame1 : ∀ x, sameBody (h x) (h1 x)).
    { intros x. subst h1. destruct old; [apply sameBody_refl|].
      apply writeRegion_sameBody. }
    destruct (forM _ _ _) as [g2|] eqn:Hloop; [|done].
    intros [= <- <- <-].
    apply updateCells_any in Hloop as ((Hl & Hw & Hh & _) & Hwf & Hpool & Hx).
    assert (Hsame2 : ∀ x, sameBody (h x) (writeRegion h1 body newRegion x)).
    { intros x. eapply sameBody_trans; [apply Hsame1|].
      apply writeRegion_sameBody. }
    split.
    { split; [done|]. split; [done|]. split; [done|].
      split; [|split; [done|done]].
      intros Hwf0. eapply pairsWf_sameBody; [apply writeRegion_sameBody|].
      apply Hwf. by eapply pairsWf_sameBody. }
    split.
    { intros x Hx'. rewrite writeRegion_other by done. subst h1.
      destruct old; [done|]. by rewrite writeRegion_other. }
    split; [by apply Hx|].
    split; [apply writeRegion_same|]. by left.
  - intros [= <- <- <-].
    unfold regionChanged in Hch.
    apply orb_false_elim in Hch as [Hch _].
    apply orb_false_elim in Hch as [Hsome Hsame].
    apply negb_false_iff in Hsome, Hsame.
    apply bool_decide_eq_true in Hsome as [r Hr]. subst old.
    rewrite Hr in Hsame. apply isSameRegion_eq in Hsame as ->.
    split.
    { split; [done|]. split; [done|]. split; [done|]. split; [done|].
      split; [done|]. intros; apply sameBody_refl. }
    split; [done|]. split; [done|].
    split; [done|]. right. by repeat split.
Qed.

(** The loop over the bodies, in any state. *)
Lemma updateBodies_any (forceUpdate : bool) bodies g h (ch : bool) g' h' ch' :
  forM (Grid.updateBody engine forceUpdate) (g, h, ch) bodies
    = Some (g', h', ch') →
  anyTurn h h' g g'
  ∧ (∀ x, untouched engine forceUpdate h bodies x →
          h' x = h x
          ∧ (notPooled g x → ∀ k, x ∈ bucketAt g' k → x ∈ bucketAt g k))
  ∧ (∀ x, x ∈ bodies → processed engine forceUpdate (h x) = true →
          Body.region (h' x) = Some (regionOf g (h x)))
  ∧ (ch' = true ∨ (ch' = ch ∧ quiet g g' ∧ h' = h)).
Proof.
  revert g h ch. induction bodies as [|b bodies IH]; intros g h ch.
  { intros [= <- <- <-]. split.
    { split; [done|]. split; [done|]. split; [done|]. split; [done|].
      split; [done|]. intros; apply sameBody_refl. }
    split; [done|]. split; [by intros x ?%elem_of_nil|].
    right. split; [done|]. split; [apply quiet_refl|done]. }
  cbn [forM].
  destruct (Grid.updateBody engine forceUpdate (g, h, ch) b)
    as [[[g1 h1] ch1]|] eqn:Hstep; [|done].
  intros Hloop.
  apply updateBody_any in Hstep
    as ((Hl1 & Hw1 & Hh1 & Hwf1 & Hpool1 & Hsame1) & Hheap1 & Hx1
        & Hproc1 & Hch1).
  apply IH in Hloop
    as ((Hl2 & Hw2 & Hh2 & Hwf2 & Hpool2 & Hsame2) & Hun2 & Hregion2 & Hch2).
  split.
  { split; [congruence|]. split; [congruence|]. split; [congruence|].
    split; [tauto|]. split; [intros bucket Hb; by apply Hpool1, Hpool2|].
    intros x. by eapply sameBody_trans. }
  split.
  { intros x Hx.
    assert (Hx2 : untouched engine forceUpdate h1 bodies x).
    { intros Hin. rewrite (processed_ext _ _ _ _ (Hsame1 x)).
      apply Hx. apply elem_of_cons. by right. }
    destruct (Hun2 x Hx2) as [Hh2x Hb2x]. rewrite Hh2x.
    destruct (decide (x = b)) as [->|Hne].
    - rewrite Hx in Hproc1 by (apply elem_of_cons; by left).
      destruct Hproc1 as (-> & -> & _). done.
    - split; [by apply Hheap1|]. intros Hclean k Hin.
      apply Hx1; [done..|]. apply Hb2x; [|done].
      intros bucket Hb. apply Hclean. by apply Hpool1. }
  split.
  { intros x Hx Hp.
    destruct (decide (x ∈ bodies)) as [Hin|Hnotin].
    - rewrite Hregion2; [|done|by rewrite (processed_ext _ _ _ _ (Hsame1 x))].
      f_equal. apply regionOf_ext; try done.
      by destruct (Hsame1 x) as (_ & _ & _ & ?).
    - apply elem_of_cons in Hx as [->|Hx]; [|done].
      destruct (Hun2 b) as [-> _]; [by intros ?|].
      by rewrite Hp in Hproc1. }
  destruct Hch2 as [->|(-> & Hq2 & ->)]; [by left|].
  destruct Hch1 as [->|(-> & Hq1 & ->)]; [by left|].
  right. split; [done|]. split; [by eapply quiet_trans|done].
Qed.

(** A loop over bodies that all have their current region recorded
    changes nothing but the scratch region. *)
Lemma updateBodies_idle bodies g h (ch : bool) :
  (∀ x, x ∈ bodies → processed engine false (h x) = true →
        Body.region (h x) = Some (regionOf g (h x))) →
  ∃ g', forM (Grid.updateBody engine false) (g, h, ch) bodies
        = Some (g', h, ch)
        ∧ quiet g g'.
Proof.
  revert g. induction bodies as [|b bodies IH]; intros g Hrec.
  { exists g. split; [done|]. apply quiet_refl. }
  cbn [forM]. rewrite updateBody_eq.
  assert (Hb : processed engine false (h b) = true →
               Body.region (h b) = Some (regionOf g (h b))).
  { apply Hrec. apply elem_of_cons. by left. }
  assert (Hrest : ∀ g1, Grid.bucketWidth g1 = Grid.bucketWidth g →
    Grid.bucketHeight g1 = Grid.bucketHeight g →
    ∀ x, x ∈ bodies → processed engine false (h x) = true →
         Body.region (h x) = Some (regionOf g1 (h x))).
  { intros g1 Hw Hh x Hx Hp.
    rewrite (regionOf_ext g g1 (h x) (h x)) by done.
    apply Hrec; [|done]. apply elem_of_cons. by right. }
  destruct (processed engine false (h b)) eqn:Hproc; cbn [negb].
  - cbn zeta. rewrite (Hb eq_refl). unfold regionChanged.
    rewrite bool_decide_true by done.
    rewrite (proj2 (isSameRegion_eq _ _) eq_refl). cbn [negb orb].
    destruct (IH (Grid.set_current (regionOf g (h b)) g)) as (g' & -> & Hq).
    { by apply Hrest. }
    exists g'. split; [done|]. eapply quiet_trans; [|done]. by repeat split.
  - destruct (IH g) as (g' & -> & Hq); [by apply Hrest|]. by exists g'.
Qed.

End AnyUpdate.

(** ** Shared cells and regions *)

Section Overlap.

Implicit Types (g : Grid.t) (h : Heap).

(** The cells that two registered bodies share are the cells of the
    region of the one that lie inside the region of the other. *)
Lemma sharedCells_overlap (lo : Z) h g (a b : ref) ra rb :
  Coherent lo h g → registered h g a → registered h g b →
  Body.region (h a) = Some ra → Body.region (h b) = Some rb →
  sharedCells g a b = length (filter (λ c, inside c rb) (Grid.cells ra)).
Proof.
  intros Hcoh Ha Hb Hra Hrb.
  pose proof (coh_rows lo h g Hcoh a ra Hra) as Hrowsa.
  pose proof (coh_rows lo h g Hcoh b rb Hrb) as Hrowsb.
  set (L := cellId <$> filter (λ c, inside c rb) (Grid.cells ra)).
  assert (Hnodup : NoDup L).
  { apply NoDup_fmap_2_strong; [|apply NoDup_filter, NoDup_cells].
    intros c1 c2 [_ H1]%list_elem_of_filter [_ H2]%list_elem_of_filter Heq.
    apply elem_of_cells in H1, H2.
    apply (cellId_inj lo); [by apply (inside_rows lo _ ra)..|done]. }
  unfold sharedCells, sharedIn.
  rewrite <- (length_fmap cellId). fold L.
  rewrite <- (size_dom (D := gset Z)).
  rewrite <- (size_list_to_set (C := gset Z) L Hnodup).
  f_equal. apply set_eq. intros k.
  rewrite elem_of_dom, elem_of_list_to_set. unfold L.
  rewrite list_elem_of_fmap. split.
  - intros [bucket Hlook].
    apply map_lookup_filter_Some in Hlook as [Hlook [Hina Hinb]].
    cbn in Hina, Hinb.
    assert (Hka : a ∈ bucketAt g k) by (unfold bucketAt; by rewrite Hlook).
    assert (Hkb : b ∈ bucketAt g k) by (unfold bucketAt; by rewrite Hlook).
    apply Ha in Hka as (ra' & ca & Hra' & Hca & Hida).
    apply Hb in Hkb as (rb' & cb & Hrb' & Hcb & Hidb).
    rewrite Hra in Hra'. rewrite Hrb in Hrb'.
    injection Hra' as <-. injection Hrb' as <-.
    assert (ca = cb) as ->.
    { apply (cellId_inj lo);
        [by apply (inside_rows lo _ ra)|by apply (inside_rows lo _ rb)|].
      congruence. }
    exists cb. split; [done|].
    apply list_elem_of_filter. split; [done|]. by apply elem_of_cells.
  - intros (c & -> & Hc). apply list_elem_of_filter in Hc as [Hcb Hca].
    apply elem_of_cells in Hca.
    assert (Hka : a ∈ bucketAt g (cellId c)) by (apply Ha; by exists ra, c).
    assert (Hkb : b ∈ bucketAt g (cellId c)) by (apply Hb; by exists rb, c).
    unfold bucketAt in Hka, Hkb.
    destruct (Grid.buckets g !! cellId c) as [bucket|] eqn:Hlook;
      [|by apply not_elem_of_nil in Hka].
    exists bucket. by apply map_lookup_filter_Some.
Qed.

End Overlap.

(** ** A small world *)

Section DemoFacts.

Lemma Demo_uniqueIds : uniqueIds Demo.heap.
Proof.
  intros a b. unfold Demo.heap.
  destruct a as [|[|a]], b as [|[|b]]; cbn; intros; try done; lia.
Qed.

Lemma Demo_noRegion (x : ref) : Body.region (Demo.heap x) = None.
Proof. by destruct x as [|[|x]]. Qed.

Lemma Demo_sized : sized Demo.grid.
Proof. split; by intros ?. Qed.

Lemma Demo_move_external h b bounds : external h (Demo.move h b bounds).
Proof. intros x. unfold Demo.move. by case_decide. Qed.

(** A call that returns, returns its result. *)
Lemma Demo_result_eq (call : option (Grid.t * Heap)) :
  bool_decide (is_Some call) = true →
  call = Some ((Demo.result call).1, (Demo.result call).2).
Proof.
  intros Hsome. apply bool_decide_eq_true in Hsome as [[g h] ->]. done.
Qed.

Lemma Demo_first_eq :
  Grid.update Demo.grid Demo.heap [0%nat; 1%nat] Demo.engine false
  = Some (Demo.first.1, Demo.first.2).
Proof. apply Demo_result_eq. vm_compute. reflexivity. Qed.

Lemma Demo_second_eq :
  Grid.update Demo.first.1
    (Demo.move Demo.first.2 0%nat (RegionSpec.box 50 0 100 40))
    [0%nat; 1%nat] Demo.engine false
  = Some (Demo.second.1, Demo.second.2).
Proof. apply Demo_result_eq. vm_compute. reflexivity. Qed.

Lemma Demo_third_eq :
  Grid.update Demo.second.1
    (Demo.move Demo.second.2 0%nat (RegionSpec.box 50 100 100 140))
    [0%nat; 1%nat] Demo.engine false
  = Some (Demo.third.1, Demo.third.2).
Proof. apply Demo_result_eq. vm_compute. reflexivity. Qed.

Lemma Demo_forced_eq :
  Grid.update Demo.first.1 Demo.first.2 [0%nat] Demo.engine true
  = Some (Demo.forced.1, Demo.forced.2).
Proof. apply Demo_result_eq. vm_compute. reflexivity. Qed.

Lemma Demo_gone_eq :
  Grid.update Demo.first.1 Demo.leaving [0%nat; 1%nat; 2%nat]
    Demo.engine false
  = Some (Demo.gone.1, Demo.gone.2).
Proof. apply Demo_result_eq. vm_compute. reflexivity. Qed.

(** The bodies [0] and [1] fit the window of rows that starts at [0]. *)
Lemma Demo_fits (g : Grid.t) (h : Heap) :
  rowsWithin 0 (regionOf g (h 0%nat)) →
  rowsWithin 0 (regionOf g (h 1%nat)) →
  ∀ body, body ∈ [0%nat; 1%nat] → fits 0 Demo.engine false g h body.
Proof.
  intros H0 H1 body Hin _.
  apply elem_of_cons in Hin as [->|Hin]; [done|].
  apply list_elem_of_singleton in Hin as ->. done.
Qed.

(** The rows [lo .. hi] lie in the window that starts at [0], and the
    columns are not beyond [maxColumn]. *)
Lemma Demo_rows (r : Region.t) :
  (0 <=? Region.startRow r) && (Region.endRow r <? stride)
  && (- maxColumn <=? Region.startCol r) && (Region.endCol r <=? maxColumn)
  = true →
  rowsWithin 0 r.
Proof.
  rewrite !andb_true_iff, !Z.leb_le, Z.ltb_lt.
  unfold rowsWithin, stride. lia.
Qed.

(** Bodies without a region are registered. *)
Lemma Demo_unregistered (g : Grid.t) (h : Heap) (bodies : list ref) :
  Tracked 0 g h → (∀ x, Body.region (h x) = None) →
  allRegistered Demo.engine g h bodies.
Proof.
  intros Htracked Hnone body _ _.
  apply (registered_noRegion 0); [|done].
  by destruct (Tracked_consistent 0 g h Htracked).
Qed.

(** The bodies [0] and [1] are registered when each is in a bucket. *)
Lemma Demo_registered (g : Grid.t) (h : Heap) (k0 k1 : Z) :
  Tracked 0 g h →
  bool_decide (0%nat ∈ bucketAt g k0) = true →
  bool_decide (1%nat ∈ bucketAt g k1) = true →
  allRegistered Demo.engine g h [0%nat; 1%nat].
Proof.
  intros Htracked H0 H1 body Hin _.
  destruct (Tracked_consistent 0 g h Htracked) as [Hcoh _].
  apply bool_decide_eq_true in H0, H1.
  apply elem_of_cons in Hin as [->|Hin];
    [by apply (registered_member 0 h g _ k0)|].
  apply list_elem_of_singleton in Hin as ->.
  by apply (registered_member 0 h g _ k1).
Qed.

Lemma Demo_first_tracked : Tracked 0 Demo.first.1 Demo.first.2.
Proof.
  assert (Hcreate : Tracked 0 Demo.grid Demo.heap)
    by (apply tracked_create;
        [exact Demo_uniqueIds|exact Demo_noRegion|exact Demo_sized]).
  eapply tracked_update; [exact Hcreate| | |exact Demo_first_eq].
  - apply Demo_fits; apply Demo_rows; vm_compute; reflexivity.
  - apply Demo_unregistered; [exact Hcreate|exact Demo_noRegion].
Qed.

Lemma Demo_second_tracked : Tracked 0 Demo.second.1 Demo.second.2.
Proof.
  assert (Hmoved : Tracked 0 Demo.first.1
            (Demo.move Demo.first.2 0%nat (RegionSpec.box 50 0 100 40))).
  { eapply tracked_external; [exact Demo_first_tracked|].
    apply Demo_move_external. }
  eapply tracked_update; [exact Hmoved| | |exact Demo_second_eq].
  - apply Demo_fits; apply Demo_rows; vm_compute; reflexivity.
  - apply (Demo_registered _ _ 0 0 Hmoved); vm_compute; reflexivity.
Qed.

Lemma Demo_third_tracked : Tracked 0 Demo.third.1 Demo.third.2.
Proof.
  assert (Hmoved : Tracked 0 Demo.second.1
            (Demo.move Demo.second.2 0%nat (RegionSpec.box 50 100 100 140))).
  { eapply tracked_external; [exact Demo_second_tracked|].
    apply Demo_move_external. }
  eapply tracked_update; [exact Hmoved| | |exact Demo_third_eq].
  - apply Demo_fits; apply Demo_rows; vm_compute; reflexivity.
  - apply (Demo_registered _ _ 1000000000 0 Hmoved); vm_compute; reflexivity.
Qed.

Lemma Demo_rebuilt_eq :
  Grid.update (Grid.clear Demo.first.1) Demo.first.2 [0%nat; 1%nat]
    Demo.engine true
  = Some (Demo.rebuilt.1, Demo.rebuilt.2).
Proof. apply Demo_result_eq. vm_compute. reflexivity. Qed.

Lemma Demo_rebuilt_tracked : Tracked 0 Demo.rebuilt.1 Demo.rebuilt.2.
Proof.
  assert (Hclear : Tracked 0 (Grid.clear Demo.first.1) Demo.first.2)
    by (apply tracked_clear; exact Demo_first_tracked).
  eapply tracked_forced; [exact Hclear| | | |exact Demo_rebuilt_eq].
  - intros body Hin _.
    apply elem_of_cons in Hin as [->|Hin];
      [apply Demo_rows; vm_compute; reflexivity|].
    apply list_elem_of_singleton in Hin as ->.
    apply Demo_rows; vm_compute; reflexivity.
  - apply NoDup_cons. split; [|apply NoDup_singleton].
    by intros ?%list_elem_of_singleton.
  - intros body _ _.
    destruct (clear_consistent 0 Demo.first.2 Demo.first.1) as [_ Habs];
      [|done].
    exact (Tracked_consistent 0 _ _ Demo_first_tracked).
Qed.

End DemoFacts.

(** ** Further small worlds *)

Section CasesFacts.

Lemma Cases_registered_eq :
  Grid.update Demo.grid Cases.heap [0%nat] Demo.engine false
  = Some (Cases.registered.1, Cases.registered.2).
Proof. apply Demo_result_eq. vm_compute. reflexivity. Qed.

Lemma Cases_rebuilt_eq :
  Grid.update (Grid.clear Cases.registered.1) Cases.registered.2
    [1%nat; 2%nat] Demo.engine true
  = Some (Cases.rebuilt.1, Cases.rebuilt.2).
Proof. apply Demo_result_eq. vm_compute. reflexivity. Qed.

Lemma Cases_dropped_eq :
  Grid.update Cases.rebuilt.1
    (Demo.move Cases.rebuilt.2 0%nat (RegionSpec.box 100 0 140 40))
    [0%nat] Demo.engine false
  = Some (Cases.dropped.1, Cases.dropped.2).
Proof. apply Demo_result_eq. vm_compute. reflexivity. Qed.

Lemma Cases_twice_eq :
  Grid.update Demo.grid Demo.heap [0%nat; 0%nat; 1%nat] Demo.engine true
  = Some (Cases.twice.1, Cases.twice.2).
Proof. apply Demo_result_eq. vm_compute. reflexivity. Qed.

Lemma Cases_far_eq :
  Grid.update Demo.grid Cases.farHeap [0%nat; 1%nat] Cases.farEngine false
  = Some (Cases.far.1, Cases.far.2).
Proof. apply Demo_result_eq. vm_compute. reflexivity. Qed.

Lemma Cases_wrap_eq :
  Grid.update Demo.grid Cases.wrapHeap [0%nat; 1%nat] Cases.farEngine false
  = Some (Cases.wrap.1, Cases.wrap.2).
Proof. apply Demo_result_eq. vm_compute. reflexivity. Qed.

Lemma Cases_sameId_eq :
  Grid.update Demo.grid Cases.sameIdHeap [0%nat; 1%nat; 2%nat]
    Demo.engine false
  = Some (Cases.sameId.1, Cases.sameId.2).
Proof. apply Demo_result_eq. vm_compute. reflexivity. Qed.

Lemma Cases_static_eq :
  Grid.update Demo.grid Cases.staticHeap [0%nat; 1%nat] Demo.engine false
  = Some (Cases.static.1, Cases.static.2).
Proof. apply Demo_result_eq. vm_compute. reflexivity. Qed.

Lemma Cases_rewritten_eq :
  Grid.update Demo.first.1
    (writeRegion Demo.first.2 0%nat (Region.mk 5 5 0 0))
    [0%nat; 1%nat] Demo.engine false
  = Some (Cases.rewritten.1, Cases.rewritten.2).
Proof. apply Demo_result_eq. vm_compute. reflexivity. Qed.

Lemma Cases_asleep_eq :
  Grid.update Demo.grid Cases.sleepyHeap [0%nat; 1%nat] Demo.engine false
  = Some (Cases.asleep.1, Cases.asleep.2).
Proof. apply Demo_result_eq. vm_compute. reflexivity. Qed.

Lemma Cases_awake_eq :
  Grid.update Cases.asleep.1 (Cases.wake Cases.asleep.2 1%nat)
    [0%nat; 1%nat] Demo.engine false
  = Some (Cases.awake.1, Cases.awake.2).
Proof. apply Demo_result_eq. vm_compute. reflexivity. Qed.

Lemma Cases_outside_eq :
  Grid.update Demo.grid Cases.enteringHeap [0%nat; 1%nat] Demo.engine false
  = Some (Cases.outside.1, Cases.outside.2).
Proof. apply Demo_result_eq. vm_compute. reflexivity. Qed.

Lemma Cases_entered_eq :
  Grid.update (Grid.clear Cases.outside.1) Cases.enteredHeap
    [0%nat; 1%nat] Demo.engine false
  = Some (Cases.entered.1, Cases.entered.2).
Proof. apply Demo_result_eq. vm_compute. reflexivity. Qed.

Lemma Cases_back_eq :
  Grid.update Demo.gone.1 Cases.backHeap [0%nat; 1%nat; 2%nat]
    Demo.engine false
  = Some (Cases.back.1, Cases.back.2).
Proof. apply Demo_result_eq. vm_compute. reflexivity. Qed.

(** The two components of a result. *)
Lemma result_inv {A B : Type} (a a' : A) (b b' : B) :
  Some (a, b) = Some (a', b') → a' = a ∧ b' = b.
Proof. by intros [= -> ->]. Qed.

(** The bodies of a list fit the window when their regions do. *)
Lemma fits_Forall (lo : Z) engine (forceUpdate : bool) (g : Grid.t)
    (h : Heap) (bodies : list ref) :
  Forall (λ x, rowsWithin lo (regionOf g (h x))) bodies →
  ∀ body, body ∈ bodies → fits lo engine forceUpdate g h body.
Proof.
  intros Hall body Hin _. by apply (proj1 (Forall_forall _ _) Hall).
Qed.

(** The same, for the window that starts at [0], by computation. *)
Lemma fits_forallb engine (forceUpdate : bool) (g : Grid.t) (h : Heap)
    (bodies : list ref) :
  forallb (λ x,
    let r := regionOf g (h x) in
    (0 <=? Region.startRow r) && (Region.endRow r <? stride)
    && (- maxColumn <=? Region.startCol r)
    && (Region.endCol r <=? maxColumn)) bodies = true →
  ∀ body, body ∈ bodies → fits 0 engine forceUpdate g h body.
Proof.
  intros Hall. apply fits_Forall. apply Forall_forall. intros x Hx.
  apply Demo_rows. rewrite forallb_forall in Hall. apply Hall.
  by apply list_elem_of_In.
Qed.

(** In normal operation the bodies that have no region and the bodies
    that are in a bucket are registered. *)
Lemma allRegistered_Forall (lo : Z) engine (g : Grid.t) (h : Heap)
    (bodies : list ref) :
  Tracked lo g h →
  Forall (λ x, Body.region (h x) = None
               ∨ ∃ k, bool_decide (x ∈ bucketAt g k) = true) bodies →
  allRegistered engine g h bodies.
Proof.
  intros Htracked Hall body Hin _.
  destruct (Tracked_consistent lo g h Htracked) as [Hcoh _].
  destruct (proj1 (Forall_forall _ _) Hall body Hin) as [Hnone|[k Hk]].
  - by apply (registered_noRegion lo).
  - apply bool_decide_eq_true in Hk. by apply (registered_member lo h g _ k).
Qed.

Lemma Demo_gone_tracked : Tracked 0 Demo.gone.1 Demo.gone.2.
Proof.
  assert (Hleft : Tracked 0 Demo.first.1 Demo.leaving).
  { eapply tracked_external; [|apply Demo_move_external].
    eapply tracked_external; [exact Demo_first_tracked|].
    apply Demo_move_external. }
  eapply tracked_update; [exact Hleft| | |exact Demo_gone_eq].
  - apply fits_Forall.
    repeat (apply Forall_cons; split;
            [apply Demo_rows; vm_compute; reflexivity|]).
    apply Forall_nil_2.
  - apply (allRegistered_Forall 0); [exact Hleft|].
    apply Forall_cons. split; [right; exists 0; vm_compute; reflexivity|].
    apply Forall_cons. split; [right; exists 0; vm_compute; reflexivity|].
    apply Forall_cons. split; [left; vm_compute; reflexivity|].
    apply Forall_nil_2.
Qed.

End CasesFacts.

(** ** Pair counts *)

(** C1, as stated, fails outside normal operation; each of these states
    is reached by calls of [Grid.update] and [Grid.clear] that return.

    - A forced update of body [0] of the small world, which is already in
      its buckets: the record of the bodies [0] and [1] counts [6], and
      three buckets hold both.  The same happens when a forced update is
      given body [0] twice, and when the region slot of body [0] is
      overwritten before a plain update.
    - Three bodies in the cell [(0, 0)]: body [0] is registered, the grid
      is cleared and rebuilt with the bodies [1] and [2] only, then body
      [0], which kept its recorded region, moves away: the removal of the
      absent body drops body [2] from the bucket, and the record of the
      bodies [1] and [2] stays listed with the count [1] while no bucket
      holds both.
    - Two bodies at the column [9007200], in the rows [0] and [1], whose
      cells get the same bucket id: one bucket holds both bodies, and
      their record counts [4].
    - Two bodies in different cells, [(0, 999999999)] and [(1, -1)],
      whose bucket ids coincide: one bucket holds both and their record
      counts [1], although their regions have no cell in common.
    - The bodies [0] and [2] with the same id: the record under the key of
      the bodies [0] and [1] counts [6], and three buckets hold both.
    - Two static bodies of which one is made non-static after the update:
      three buckets hold both, and there is no record. *)
Lemma pair_count_outside_normal_operation :
  (Grid.update Demo.first.1 Demo.first.2 [0%nat] Demo.engine true
   = Some (Demo.forced.1, Demo.forced.2)
   ∧ sharedCells Demo.forced.1 0%nat 1%nat = 3%nat
   ∧ pairCount (Grid.pairs Demo.forced.1) (1, 2) = 6)
  ∧ (Grid.update Demo.grid Demo.heap [0%nat; 0%nat; 1%nat] Demo.engine true
     = Some (Cases.twice.1, Cases.twice.2)
     ∧ sharedCells Cases.twice.1 0%nat 1%nat = 3%nat
     ∧ pairCount (Grid.pairs Cases.twice.1) (1, 2) = 6)
  ∧ (Grid.update Demo.first.1
       (writeRegion Demo.first.2 0%nat (Region.mk 5 5 0 0))
       [0%nat; 1%nat] Demo.engine false
     = Some (Cases.rewritten.1, Cases.rewritten.2)
     ∧ sharedCells Cases.rewritten.1 0%nat 1%nat = 3%nat
     ∧ pairCount (Grid.pairs Cases.rewritten.1) (1, 2) = 6)
  ∧ (Grid.update Demo.grid Cases.heap [0%nat] Demo.engine false
     = Some (Cases.registered.1, Cases.registered.2)
     ∧ Grid.update (Grid.clear Cases.registered.1) Cases.registered.2
         [1%nat; 2%nat] Demo.engine true
       = Some (Cases.rebuilt.1, Cases.rebuilt.2)
     ∧ Grid.update Cases.rebuilt.1
         (Demo.move Cases.rebuilt.2 0%nat (RegionSpec.box 100 0 140 40))
         [0%nat] Demo.engine false
       = Some (Cases.dropped.1, Cases.dropped.2)
     ∧ Pair.id (Cases.dropped.2 1%nat) (Cases.dropped.2 2%nat) = (2, 3)
     ∧ sharedCells Cases.dropped.1 1%nat 2%nat = 0%nat
     ∧ pairCount (Grid.pairs Cases.dropped.1) (2, 3) = 1
     ∧ Grid.pairsList Cases.dropped.1 = [(2, 3)])
  ∧ (Grid.update Demo.grid Cases.farHeap [0%nat; 1%nat] Cases.farEngine false
     = Some (Cases.far.1, Cases.far.2)
     ∧ Body.region (Cases.far.2 0%nat) = Some (Region.mk 9007200 9007200 0 1)
     ∧ sharedCells Cases.far.1 0%nat 1%nat = 1%nat
     ∧ pairCount (Grid.pairs Cases.far.1) (1, 2) = 4)
  ∧ (Grid.update Demo.grid Cases.wrapHeap [0%nat; 1%nat] Cases.farEngine false
     = Some (Cases.wrap.1, Cases.wrap.2)
     ∧ Body.region (Cases.wrap.2 0%nat)
       = Some (Region.mk 0 0 999999999 999999999)
     ∧ Body.region (Cases.wrap.2 1%nat) = Some (Region.mk 1 1 (-1) (-1))
     ∧ filter (λ c, inside c (Region.mk 1 1 (-1) (-1)))
         (Grid.cells (Region.mk 0 0 999999999 999999999)) = []
     ∧ sharedCells Cases.wrap.1 0%nat 1%nat = 1%nat
     ∧ pairCount (Grid.pairs Cases.wrap.1) (1, 2) = 1)
  ∧ (Grid.update Demo.grid Cases.sameIdHeap [0%nat; 1%nat; 2%nat]
       Demo.engine false
     = Some (Cases.sameId.1, Cases.sameId.2)
     ∧ Body.id (Cases.sameId.2 0%nat) = Body.id (Cases.sameId.2 2%nat)
     ∧ Pair.id (Cases.sameId.2 0%nat) (Cases.sameId.2 1%nat) = (1, 2)
     ∧ sharedCells Cases.sameId.1 0%nat 1%nat = 3%nat
     ∧ pairCount (Grid.pairs Cases.sameId.1) (1, 2) = 6)
  ∧ (Grid.update Demo.grid Cases.staticHeap [0%nat; 1%nat] Demo.engine false
     = Some (Cases.static.1, Cases.static.2)
     ∧ bothStatic (Cases.release Cases.static.2 0%nat) 0%nat 1%nat = false
     ∧ Pair.id (Cases.release Cases.static.2 0%nat 0%nat)
               (Cases.release Cases.static.2 0%nat 1%nat) = (1, 2)
     ∧ sharedCells Cases.static.1 0%nat 1%nat = 3%nat
     ∧ pairCount (Grid.pairs Cases.static.1) (1, 2) = 0).
Proof.
  split; [split; [exact Demo_forced_eq|by vm_compute]|].
  split; [split; [exact Cases_twice_eq|by vm_compute]|].
  split; [split; [exact Cases_rewritten_eq|by vm_compute]|].
  split.
  { split; [exact Cases_registered_eq|]. split; [exact Cases_rebuilt_eq|].
    split; [exact Cases_dropped_eq|]. by vm_compute. }
  split; [split; [exact Cases_far_eq|by vm_compute]|].
  split; [split; [exact Cases_wrap_eq|by vm_compute]|].
  split; [split; [exact Cases_sameId_eq|by vm_compute]|].
  split; [exact Cases_static_eq|by vm_compute].
Qed.

(** C1, amended. In every state of normal operation (a new grid with cell
    sizes that are not zero; bodies with distinct ids and constant static
    flags, whose region slots the grid alone writes; regions with exact
    bucket ids, columns up to [9007198] and rows below the stride in
    magnitude, and rows in one window of the width of the stride; updates
    without [forceUpdate] of bodies that are in the buckets of their
    recorded region; [Grid.clear]; updates with [forceUpdate] that are
    given each body once and only bodies that are in no bucket), for every
    two distinct bodies that are not both static, the shared-cell-count of
    their pair record equals the number of cells whose buckets hold both
    bodies (a missing record counts as [0]): while they share cells the record
    exists, carries that number, has the two bodies as its members and is
    in the list of active pairs; when they share no cell the record is
    neither in the list nor in the table.  During an update, before the
    extraction, the count of the record already equals the number of
    shared cells, so it reaches [0] when the last shared cell is left.  The
    cells that two bodies share are the cells of the recorded region of
    the one that lie inside the recorded region of the other. *)
Theorem pair_count_is_shared_cells (lo : Z) (g : Grid.t) (h : Heap) :
  Tracked lo g h →
  (∀ a b : ref, a ≠ b → bothStatic h a b = false →
     let key := Pair.id (h a) (h b) in
     pairCount (Grid.pairs g) key = Z.of_nat (sharedCells g a b)
     ∧ ((0 < sharedCells g a b)%nat →
        key ∈ Grid.pairsList g
        ∧ ∃ record, Grid.pairs g !! key = Some record
            ∧ Pair.count record = Z.of_nat (sharedCells g a b)
            ∧ ((Pair.bodyA record = a ∧ Pair.bodyB record = b)
               ∨ (Pair.bodyA record = b ∧ Pair.bodyB record = a)))
     ∧ (sharedCells g a b = 0%nat →
        (key ∉ Grid.pairsList g) ∧ Grid.pairs g !! key = None))
  ∧ (∀ bodies engine g1 h1 gridChanged,
       (∀ body, body ∈ bodies → fits lo engine false g h body) →
       allRegistered engine g h bodies →
       Grid.updateBodies g h bodies engine false
         = Some (g1, h1, gridChanged) →
       ∀ a b : ref, a ≠ b → bothStatic h1 a b = false →
         pairCount (Grid.pairs g1) (Pair.id (h1 a) (h1 b))
         = Z.of_nat (sharedCells g1 a b))
  ∧ (∀ (a b : ref) ra rb ka kb,
       a ∈ bucketAt g ka → b ∈ bucketAt g kb →
       Body.region (h a) = Some ra → Body.region (h b) = Some rb →
       sharedCells g a b
       = length (filter (λ c, inside c rb) (Grid.cells ra))).
Proof.
  intros Htracked.
  destruct (Tracked_consistent lo g h Htracked)
    as [Hcoh (Hnodup & Hlist & Hpos)].
  pose proof Hcoh as [Hids Hbook _ _].
  assert (Hcounted : ∀ h', uniqueIds h' → ∀ a b,
            a ≠ b → bothStatic h' a b = false → counted h' a b).
  { intros h' Hids' a b Hab Hst. split; [|done].
    intros Heq. by apply Hids' in Heq. }
  split; [|split].
  - intros a b Hab Hst key.
    pose proof (book_count h g Hbook a b (Hcounted h Hids a b Hab Hst)) as Hcount.
    fold key in Hcount. split; [done|].
    unfold pairCount in Hcount.
    destruct (Grid.pairs g !! key) as [record|] eqn:Hlook.
    + split.
      * intros _. split; [apply Hlist; by exists record|].
        exists record. split; [done|]. split; [done|].
        destruct (book_wf h g Hbook key record Hlook) as [Hkey _].
        apply (Pair_id_inj h) in Hkey; [|done].
        destruct Hkey as [[-> ->]|[-> ->]]; [by left|by right].
      * intros Hzero. apply Hpos in Hlook. lia.
    + split; [lia|]. intros _. split; [|done].
      intros Hin. apply Hlist in Hin as [record Hrecord].
      subst key. by rewrite Hlook in Hrecord.
  - intros bodies engine g1 h1 gridChanged Hfits Hreg Hloop a b Hab Hst.
    destruct (updateBodies_ok lo engine false bodies g h false Hcoh Hfits Hreg)
      as (g' & h' & ch' & Hloop' & Hcoh' & _).
    unfold Grid.updateBodies in Hloop. rewrite Hloop in Hloop'.
    injection Hloop' as <- <- <-.
    destruct Hcoh' as [Hids1 Hbook1 _ _].
    apply (book_count h1 g1 Hbook1). by apply Hcounted.
  - intros a b ra rb ka kb Hina Hinb Hra Hrb.
    apply (sharedCells_overlap lo h); try done.
    + by apply (registered_member lo h g a ka).
    + by apply (registered_member lo h g b kb).
Qed.

(** The bodies [0] and [1] of the small world, whose key is [(1, 2)]:
    they share three cells and their record counts [3]; after body [0]
    left one of the cells the record counts [2] and is still listed; after
    body [0] left all of them the record is gone from the list and from
    the table. *)
Lemma pair_count_is_shared_cells_witness :
  (sharedCells Demo.first.1 0%nat 1%nat = 3%nat
   ∧ pairCount (Grid.pairs Demo.first.1) (1, 2) = 3)
  ∧ (sharedCells Demo.second.1 0%nat 1%nat = 2%nat
     ∧ pairCount (Grid.pairs Demo.second.1) (1, 2) = 2
     ∧ (1, 2) ∈ Grid.pairsList Demo.second.1)
  ∧ (sharedCells Demo.third.1 0%nat 1%nat = 0%nat
     ∧ ((1, 2) ∉ Grid.pairsList Demo.third.1)
     ∧ Grid.pairs Demo.third.1 !! (1, 2) = None).
Proof.
  assert (Hne : 0%nat ≠ 1%nat) by done.
  split; [|split].
  - destruct (pair_count_is_shared_cells 0 _ _ Demo_first_tracked)
      as [Hstate _].
    assert (Hst : bothStatic Demo.first.2 0%nat 1%nat = false)
      by (vm_compute; reflexivity).
    assert (Hkey : Pair.id (Demo.first.2 0%nat) (Demo.first.2 1%nat) = (1, 2))
      by (vm_compute; reflexivity).
    assert (Hshared : sharedCells Demo.first.1 0%nat 1%nat = 3%nat)
      by (vm_compute; reflexivity).
    destruct (Hstate 0%nat 1%nat Hne Hst) as (Hcount & _).
    rewrite Hkey, Hshared in Hcount. split; [exact Hshared|exact Hcount].
  - destruct (pair_count_is_shared_cells 0 _ _ Demo_second_tracked)
      as [Hstate _].
    assert (Hst : bothStatic Demo.second.2 0%nat 1%nat = false)
      by (vm_compute; reflexivity).
    assert (Hkey : Pair.id (Demo.second.2 0%nat) (Demo.second.2 1%nat) = (1, 2))
      by (vm_compute; reflexivity).
    assert (Hshared : sharedCells Demo.second.1 0%nat 1%nat = 2%nat)
      by (vm_compute; reflexivity).
    destruct (Hstate 0%nat 1%nat Hne Hst) as (Hcount & Hactive & _).
    rewrite Hkey, Hshared in Hcount. rewrite Hkey, Hshared in Hactive.
    split; [exact Hshared|]. split; [exact Hcount|].
    apply Hactive. lia.
  - destruct (pair_count_is_shared_cells 0 _ _ Demo_third_tracked)
      as [Hstate _].
    assert (Hst : bothStatic Demo.third.2 0%nat 1%nat = false)
      by (vm_compute; reflexivity).
    assert (Hkey : Pair.id (Demo.third.2 0%nat) (Demo.third.2 1%nat) = (1, 2))
      by (vm_compute; reflexivity).
    assert (Hshared : sharedCells Demo.third.1 0%nat 1%nat = 0%nat)
      by (vm_compute; reflexivity).
    destruct (Hstate 0%nat 1%nat Hne Hst) as (_ & _ & Hstale).
    rewrite Hkey in Hstale.
    split; [exact Hshared|]. exact (Hstale Hshared).
Defined.

(** ** No body is paired with itself *)

Section ReachableFacts.

Implicit Types (g : Grid.t) (h : Heap).

(** What [Grid.update] does in any state. *)
Lemma update_any g h bodies engine (forceUpdate : bool) g' h' :
  Grid.update g h bodies engine forceUpdate = Some (g', h') →
  (pairsWf h (Grid.pairs g) → pairsWf h' (Grid.pairs g'))
  ∧ (∀ bucket, bucket ∈ Grid.freeBuckets g' → bucket ∈ Grid.freeBuckets g)
  ∧ (∀ x, sameBody (h x) (h' x))
  ∧ (∀ x, untouched engine forceUpdate h bodies x →
          h' x = h x
          ∧ (notPooled g x → ∀ k, x ∈ bucketAt g' k → x ∈ bucketAt g k))
  ∧ (∀ x, x ∈ bodies → processed engine forceUpdate (h x) = true →
          Body.region (h' x) = Some (regionOf g (h x)))
  ∧ Grid.bucketWidth g' = Grid.bucketWidth g
  ∧ Grid.bucketHeight g' = Grid.bucketHeight g.
Proof.
  unfold Grid.update, Grid.updateBodies.
  destruct (forM _ _ _) as [[[g1 h1] ch1]|] eqn:Hloop; [|done].
  intros [= <- <-].
  apply updateBodies_any in Hloop
    as ((Hl & Hw & Hh & Hwf & Hpool & Hsame) & Hun & Hregion & _).
  destruct (createActivePairsList_spec g1)
    as (_ & Hpairs & Hb & Hf & Hw' & Hh' & _).
  destruct ch1.
  - split.
    { intros Hwf0. rewrite Hpairs. apply pairsWf_filter. by apply Hwf. }
    split; [intros bucket; rewrite Hf; apply Hpool|].
    split; [done|]. split; [|split; [done|split; congruence]].
    intros x Hx. destruct (Hun x Hx) as [Hhx Hbx]. split; [done|].
    intros Hclean k. unfold bucketAt at 1. rewrite Hb. by apply Hbx.
  - split; [done|]. split; [done|]. split; [done|]. split; [done|].
    split; [done|]. by split.
Qed.

(** In every reachable state the pair table is well formed and the
    pooled arrays are empty. *)
Lemma Reachable_inv g h :
  Reachable g h →
  pairsWf h (Grid.pairs g)
  ∧ (∀ bucket, bucket ∈ Grid.freeBuckets g → bucket = []).
Proof.
  induction 1 as [options h
                 | g h h' _ [IHwf IHpool] Hext
                 | g h bodies engine forceUpdate g' h' _ [IHwf IHpool] Hupd
                 | g h _ [IHwf IHpool]].
  - split; [apply pairsWf_empty|]. intros bucket. by intros ?%elem_of_nil.
  - split; [by eapply pairsWf_ext|done].
  - apply update_any in Hupd as (Hwf & Hpool & _).
    split; [by apply Hwf|]. intros bucket Hb. by apply IHpool, Hpool.
  - destruct (clear_spec g) as (_ & Hf & Hp & _).
    rewrite Hp, Hf. split; [apply pairsWf_empty|].
    intros bucket. rewrite elem_of_app. intros [Hb|Hb]; [by apply IHpool|].
    by apply elem_of_replicate in Hb as [? _].
Qed.

(** A bucket whose only occupants are the body itself gives the body no
    pair. *)
Lemma foldl_addPair_self h (body : ref) (bucket : list ref)
    (pairs : gmap Pair.Id Pair.t) :
  (∀ x, x ∈ bucket → x = body) →
  foldl (Grid.addPair h body) pairs bucket = pairs.
Proof.
  induction bucket as [|x bucket IH]; intros Hself; [done|].
  cbn [foldl]. rewrite (Hself x) by (apply elem_of_cons; by left).
  unfold Grid.addPair at 2. rewrite Z.eqb_refl. cbn [orb].
  apply IH. intros y Hy. apply Hself. apply elem_of_cons. by right.
Qed.

End ReachableFacts.

(** C3. In every reachable state, whatever updates (forced or not) and
    clears led to it, the two members of every pair record are different
    objects with different ids, and the record sits under the key of its
    two members.  The bookkeeping of a bucket insertion runs over the
    contents of the bucket before the insertion, and the body is appended
    afterwards: a body that is the sole occupant of the buckets it enters
    (also when a bucket already holds the body itself) changes no pair
    record. *)
Theorem no_self_pairs (g : Grid.t) (h : Heap) :
  Reachable g h →
  (∀ key record, Grid.pairs g !! key = Some record →
     Pair.bodyA record ≠ Pair.bodyB record
     ∧ Body.id (h (Pair.bodyA record)) ≠ Body.id (h (Pair.bodyB record))
     ∧ key = Pair.id (h (Pair.bodyA record)) (h (Pair.bodyB record)))
  ∧ (∀ (k : Z) (bucket : list ref) (body : ref),
       let g' := Grid._bucketAddBody h g k bucket body in
       Grid.buckets g' !! k = Some (bucket ++ [body])
       ∧ Grid.pairs g' = foldl (Grid.addPair h body) (Grid.pairs g) bucket
       ∧ ((∀ x, x ∈ bucket → x = body) → Grid.pairs g' = Grid.pairs g)).
Proof.
  intros Hreach. destruct (Reachable_inv g h Hreach) as [Hwf _]. split.
  - intros key record Hlook. destruct (Hwf key record Hlook) as [Hkey Hne].
    split; [|done]. intros Heq. apply Hne. by rewrite Heq.
  - intros k bucket body g'. subst g'. unfold Grid._bucketAddBody. cbn.
    split; [by rewrite lookup_insert_eq|]. split; [done|].
    apply foldl_addPair_self.
Qed.

(** The small world after the first update: the only record pairs the
    bodies [1] and [0]. *)
Lemma no_self_pairs_witness :
  Grid.pairs Demo.first.1 !! (1, 2)
  = Some {| Pair.bodyA := 1%nat; Pair.bodyB := 0%nat; Pair.count := 3 |}
  ∧ 1%nat ≠ 0%nat.
Proof.
  assert (Hreach : Reachable Demo.first.1 Demo.first.2).
  { eapply reach_update; [apply reach_create|exact Demo_first_eq]. }
  assert (Hlook : Grid.pairs Demo.first.1 !! (1, 2)
    = Some {| Pair.bodyA := 1%nat; Pair.bodyB := 0%nat; Pair.count := 3 |})
    by (vm_compute; reflexivity).
  split; [exact Hlook|].
  destruct (no_self_pairs _ _ Hreach) as [Hrecords _].
  exact (proj1 (Hrecords _ _ Hlook)).
Defined.

(** ** Updating twice *)

(** C7, as stated, fails: body [1] of the small world sleeps through the
    first update, which registers body [0] only; it then wakes, with the
    bounds of all bodies unchanged; the second update puts body [1] into
    the three buckets of its region, creates the record of the bodies [0]
    and [1] and recomputes the list of active pairs. *)
Lemma woken_body_is_registered :
  Grid.update Demo.grid Cases.sleepyHeap [0%nat; 1%nat] Demo.engine false
  = Some (Cases.asleep.1, Cases.asleep.2)
  ∧ (∀ x, Body.bounds (Cases.wake Cases.asleep.2 1%nat x)
          = Body.bounds (Cases.asleep.2 x))
  ∧ Grid.update Cases.asleep.1 (Cases.wake Cases.asleep.2 1%nat)
      [0%nat; 1%nat] Demo.engine false
    = Some (Cases.awake.1, Cases.awake.2)
  ∧ (Grid.buckets Cases.asleep.1 !! 0 = Some [0%nat]
     ∧ Grid.buckets Cases.awake.1 !! 0 = Some [0%nat; 1%nat])
  ∧ (Grid.pairs Cases.asleep.1 !! (1, 2) = None
     ∧ Grid.pairs Cases.awake.1 !! (1, 2)
       = Some {| Pair.bodyA := 1%nat; Pair.bodyB := 0%nat; Pair.count := 3 |})
  ∧ (Grid.pairsList Cases.asleep.1 = []
     ∧ Grid.pairsList Cases.awake.1 = [(1, 2)]).
Proof.
  split; [exact Cases_asleep_eq|]. split.
  { intros x. unfold Cases.wake. by case_decide. }
  split; [exact Cases_awake_eq|]. by vm_compute.
Qed.

(** C7, amended. After [Grid.update] has returned, a second [Grid.update]
    with [forceUpdate = false], over any bodies and with any engine, in
    which every body that is processed (it is in the list, awake and not
    outside the world) was processed by the first update and has the
    bounds and the recorded region that the first update left, these
    bounds giving finite quotients with cell sizes that are not zero,
    finds no body in a changed region: the loop over the bodies returns with
    [gridChanged = false], the list of active pairs is not recomputed, and
    the buckets, the free pool, the pair table, the list of active pairs
    and the bodies are exactly as they were; only the scratch region is
    written. *)
Theorem update_twice_changes_nothing (g : Grid.t) (h : Heap)
    (bodies : list ref) (engine : Engine.t) (forceUpdate : bool)
    (g1 : Grid.t) (h1 h1' : Heap)
    (bodies' : list ref) (engine' : Engine.t) :
  Grid.update g h bodies engine forceUpdate = Some (g1, h1) →
  (∀ x, x ∈ bodies' → processed engine' false (h1' x) = true →
     (x ∈ bodies ∧ processed engine forceUpdate (h x) = true)
     ∧ finiteRegion g1 (h1' x)
     ∧ Body.bounds (h1' x) = Body.bounds (h1 x)
     ∧ Body.region (h1' x) = Body.region (h1 x)) →
  ∃ g2,
    Grid.updateBodies g1 h1' bodies' engine' false = Some (g2, h1', false)
    ∧ Grid.update g1 h1' bodies' engine' false = Some (g2, h1')
    ∧ Grid.buckets g2 = Grid.buckets g1
    ∧ Grid.freeBuckets g2 = Grid.freeBuckets g1
    ∧ Grid.pairs g2 = Grid.pairs g1
    ∧ Grid.pairsList g2 = Grid.pairsList g1.
Proof.
  intros Hupd Hsame.
  apply update_any in Hupd as (_ & _ & Hbodies & _ & Hregion & Hw & Hh).
  destruct (updateBodies_idle engine' bodies' g1 h1' false)
    as (g2 & Hloop & Hb & Hf & Hp & Hl & _).
  { intros x Hx Hproc.
    destruct (Hsame x Hx Hproc) as ([Hin Hproc0] & _ & Hbounds & ->).
    destruct (Hbodies x) as (_ & _ & _ & Hbounds0).
    rewrite (Hregion x Hin Hproc0). f_equal. symmetry.
    apply regionOf_ext; [done..|]. congruence. }
  exists g2. split; [done|]. split; [|done].
  unfold Grid.update, Grid.updateBodies. by rewrite Hloop.
Qed.

(** The small world: the first update, run again with the bodies in the
    other order. *)
Lemma update_twice_changes_nothing_witness :
  ∃ g2,
    Grid.update Demo.first.1 Demo.first.2 [1%nat; 0%nat] Demo.engine false
    = Some (g2, Demo.first.2)
    ∧ Grid.buckets g2 = Grid.buckets Demo.first.1
    ∧ Grid.pairs g2 = Grid.pairs Demo.first.1
    ∧ Grid.pairsList g2 = Grid.pairsList Demo.first.1.
Proof.
  destruct (update_twice_changes_nothing Demo.grid Demo.heap
              [0%nat; 1%nat] Demo.engine false
              Demo.first.1 Demo.first.2 Demo.first.2
              [1%nat; 0%nat] Demo.engine Demo_first_eq)
    as (g2 & _ & Hupd & Hb & _ & Hp & Hl).
  { intros x Hx _.
    assert (Hfinite : ∀ b, b = 0%nat ∨ b = 1%nat →
              finiteRegion Demo.first.1 (Demo.first.2 b)).
    { intros b [->| ->]; repeat split; by vm_compute. }
    apply elem_of_cons in Hx as [->|Hx].
    - split; [|split; [apply Hfinite; by right|split; reflexivity]].
      split; [|vm_compute; reflexivity].
      apply elem_of_cons. right. apply elem_of_cons. by left.
    - apply list_elem_of_singleton in Hx as ->.
      split; [|split; [apply Hfinite; by left|split; reflexivity]].
      split; [|vm_compute; reflexivity]. apply elem_of_cons. by left. }
  exists g2. repeat split; assumption.
Defined.

(** ** Bodies outside the world and bodies that touch its bounds *)

Section WorldBounds.

Implicit Types (g : Grid.t) (h : Heap) (body : ref).

Lemma Qltb_false (a b : Q) : Qltb a b = false ↔ (b <= a)%Q.
Proof.
  unfold Qltb. rewrite negb_false_iff. apply Qle_bool_iff.
Qed.

(** The rejection test fails exactly for the bodies that overlap or
    touch the world bounds. *)
Lemma outOfWorld_false (b : Body.t) (world : World.t) :
  Grid.outOfWorld b world = false ↔ notSeparated b world.
Proof.
  unfold Grid.outOfWorld, notSeparated, Qgtb.
  rewrite !orb_false_iff, !Qltb_false. tauto.
Qed.

(** Two bodies with a positive number of shared cells are together in
    some bucket. *)
Lemma sharedCells_bucket g (a b : ref) :
  (0 < sharedCells g a b)%nat →
  ∃ k, a ∈ bucketAt g k ∧ b ∈ bucketAt g k.
Proof.
  unfold sharedCells, sharedIn. intros Hpos.
  destruct (map_choose (filter (λ e : Z * list ref, both a b e.2)
                          (Grid.buckets g)))
    as (k & bucket & Hlook).
  { apply map_size_non_empty_iff. lia. }
  apply map_lookup_filter_Some in Hlook as [Hlook [Ha Hb]].
  exists k. unfold bucketAt. by rewrite Hlook.
Qed.

(** In a consistent state a body that is in no bucket is in no pair
    record. *)
Lemma absent_unpaired (lo : Z) h g body :
  Consistent lo h g → absent g body →
  ∀ key record, Grid.pairs g !! key = Some record →
    Pair.bodyA record ≠ body ∧ Pair.bodyB record ≠ body.
Proof.
  intros [[Hids Hbook _ _] (_ & _ & Hpos)] Habsent key record Hlook.
  destruct (book_wf h g Hbook key record Hlook) as [Hkey Hne].
  set (a := Pair.bodyA record) in *. set (b := Pair.bodyB record) in *.
  destruct (bothStatic h a b) eqn:Hst.
  { rewrite Hkey in Hlook.
    by rewrite (book_static h g Hbook a b Hst) in Hlook. }
  assert (Hshared : (0 < sharedCells g a b)%nat).
  { pose proof (book_count h g Hbook a b (conj Hne Hst)) as Hcount.
    unfold pairCount in Hcount. rewrite <- Hkey, Hlook in Hcount.
    apply Hpos in Hlook. lia. }
  apply sharedCells_bucket in Hshared as (k & Ha & Hb).
  split; intros <-; by eapply Habsent.
Qed.

(** In a consistent state the pair of two bodies that are together in a
    bucket is in the list of active pairs. *)
Lemma shared_bucket_listed (lo : Z) h g (a b : ref) (k : Z) :
  Consistent lo h g → a ≠ b → bothStatic h a b = false →
  b ∈ bucketAt g k → a ∈ bucketAt g k →
  Pair.id (h a) (h b) ∈ Grid.pairsList g.
Proof.
  intros [[Hids Hbook _ _] (_ & Hlist & _)] Hab Hst Hb Ha.
  assert (Hcounted : counted h a b).
  { split; [|done]. intros Heq. by apply Hids in Heq. }
  pose proof (book_count h g Hbook a b Hcounted) as Hcount.
  assert (Hshared : (0 < sharedCells g a b)%nat).
  { unfold bucketAt in Ha, Hb.
    destruct (Grid.buckets g !! k) as [bucket|] eqn:Hlook;
      [|by apply not_elem_of_nil in Ha].
    by apply (sharedIn_pos _ k bucket). }
  apply Hlist. unfold pairCount in Hcount.
  destruct (Grid.pairs g !! Pair.id (h a) (h b)) as [record|];
    [by exists record|lia].
Qed.

(** [Grid.update] without [forceUpdate] in normal operation: the bodies
    it processes end up in the buckets of the cells of their current
    region, the others stay where they are. *)
Lemma update_registers (lo : Z) engine bodies g h :
  Consistent lo h g →
  (∀ x, x ∈ bodies → fits lo engine false g h x) →
  allRegistered engine g h bodies →
  ∃ g' h',
    Grid.update g h bodies engine false = Some (g', h')
    ∧ Consistent lo h' g'
    ∧ (∀ x, x ∈ bodies → processed engine false (h x) = true →
         Body.region (h' x) = Some (regionOf g (h x))
         ∧ ∀ k, x ∈ bucketAt g' k
                ↔ ∃ c, inside c (regionOf g (h x)) ∧ cellId c = k)
    ∧ (∀ x, untouched engine false h bodies x →
         h' x = h x ∧ ∀ k, x ∈ bucketAt g' k ↔ x ∈ bucketAt g k).
Proof.
  intros Hcons Hfits Hstart.
  destruct (update_ok lo engine false bodies g h Hcons Hfits Hstart)
    as (g' & h' & Hupd & Hcons' & _ & Hregion & Hun & _).
  exists g', h'. split; [done|]. split; [done|]. split; [|done].
  intros x Hx Hproc. destruct (Hregion x Hx Hproc) as [Hr Hreg].
  split; [done|].
  intros k. rewrite (Hreg k). unfold occupies. rewrite Hr. split.
  - intros (r & c & [= <-] & Hc & Hk). by exists c.
  - intros (c & Hc & Hk). by exists (regionOf g (h x)), c.
Qed.

End WorldBounds.

(** C8, as stated, fails.

    - The bodies [0] and [1] of the small world share three cells after
      the first update; body [0] then moves entirely outside the world
      while body [2] moves into the cell [(0, 0)]; the next update skips
      body [0], which stays in its buckets; the extracted active pairs
      still hold the record of the bodies [0] and [1], and they hold a
      record of the bodies [2] and [0] that this update created.
    - Body [0] is outside the world during an update that registers body
      [1] in the cell [(1, 0)]; the grid is cleared, body [0] enters the
      world in the cell [(1, 0)] and body [1], which kept its recorded
      region, moves to the cell [(3, 0)]; the update, without
      [forceUpdate], puts body [0] into the bucket of the cell [(1, 0)],
      and then removes body [1] from that bucket, which does not hold it:
      the removal drops body [0], which ends up recorded in the region of
      the cell [(1, 0)] and in no bucket. *)
Lemma out_of_world_body_keeps_its_pairs :
  (Grid.outOfWorld (Demo.leaving 0%nat) (Engine.world Demo.engine) = true
   ∧ Grid.update Demo.first.1 Demo.leaving [0%nat; 1%nat; 2%nat]
       Demo.engine false
     = Some (Demo.gone.1, Demo.gone.2)
   ∧ Grid.buckets Demo.gone.1 !! 0 = Some [0%nat; 1%nat; 2%nat]
   ∧ ((1, 2) ∈ Grid.pairsList Demo.gone.1
      ∧ Grid.pairs Demo.gone.1 !! (1, 2)
        = Some {| Pair.bodyA := 1%nat; Pair.bodyB := 0%nat;
                  Pair.count := 3 |})
   ∧ (Grid.pairs Demo.first.1 !! (1, 3) = None
      ∧ (1, 3) ∈ Grid.pairsList Demo.gone.1
      ∧ Grid.pairs Demo.gone.1 !! (1, 3)
        = Some {| Pair.bodyA := 2%nat; Pair.bodyB := 0%nat;
                  Pair.count := 1 |}))
  ∧ (Grid.outOfWorld (Cases.enteringHeap 0%nat) (Engine.world Demo.engine)
     = true
     ∧ Grid.update Demo.grid Cases.enteringHeap [0%nat; 1%nat]
         Demo.engine false
       = Some (Cases.outside.1, Cases.outside.2)
     ∧ Grid.outOfWorld (Cases.enteredHeap 0%nat) (Engine.world Demo.engine)
       = false
     ∧ Body.isSleeping (Cases.enteredHeap 0%nat) = false
     ∧ Grid.update (Grid.clear Cases.outside.1) Cases.enteredHeap
         [0%nat; 1%nat] Demo.engine false
       = Some (Cases.entered.1, Cases.entered.2)
     ∧ Body.region (Cases.entered.2 0%nat) = Some (Region.mk 1 1 0 0)
     ∧ regionOf (Grid.clear Cases.outside.1) (Cases.enteredHeap 0%nat)
       = Region.mk 1 1 0 0
     ∧ map_to_list (Grid.buckets Cases.entered.1)
       = [(3000000000, [1%nat]); (1000000000, [])]).
Proof.
  split.
  - split; [vm_compute; reflexivity|]. split; [exact Demo_gone_eq|].
    split; [vm_compute; reflexivity|].
    split; [split|split; [|split]]; try (vm_compute; reflexivity).
    + apply (bool_decide_eq_true_1 _). vm_compute. reflexivity.
    + apply (bool_decide_eq_true_1 _). vm_compute. reflexivity.
  - split; [vm_compute; reflexivity|]. split; [exact Cases_outside_eq|].
    split; [vm_compute; reflexivity|]. split; [vm_compute; reflexivity|].
    split; [exact Cases_entered_eq|]. by vm_compute.
Qed.

(** C8, amended. An update, forced or not, in any reachable state, skips
    a body whose bounding box lies entirely outside the world bounds: it
    adds the body to no bucket and leaves its region slot alone.  In a
    state of normal operation, an update without [forceUpdate] all of
    whose bodies fit the window and, when processed, are in the buckets of
    their recorded region, leaves such a body in exactly the buckets it
    was in; a body that has no region yet is in no bucket and in no pair
    record, so none of the extracted active pairs involves it, while a
    body that was registered before it left the world keeps its buckets,
    and its pairs with the bodies that share one of these buckets are
    among the extracted active pairs.  Once the body is inside the world
    bounds (and awake), such an update that is given the body records its
    current region and leaves it in exactly the buckets of the cells of
    that region. *)
Theorem out_of_world_bodies_are_skipped (engine : Engine.t) (body : ref) :
  (∀ g h bodies (forceUpdate : bool) g' h',
     Reachable g h →
     Grid.outOfWorld (h body) (Engine.world engine) = true →
     Grid.update g h bodies engine forceUpdate = Some (g', h') →
     h' body = h body ∧ ∀ k, body ∈ bucketAt g' k → body ∈ bucketAt g k)
  ∧ (∀ lo g h bodies,
       Tracked lo g h →
       (∀ x, x ∈ bodies → fits lo engine false g h x) →
       allRegistered engine g h bodies →
       ∃ g' h',
         Grid.update g h bodies engine false = Some (g', h')
         ∧ (Grid.outOfWorld (h body) (Engine.world engine) = true →
            (∀ k, body ∈ bucketAt g' k ↔ body ∈ bucketAt g k)
            ∧ (Body.region (h body) = None →
               (∀ k, body ∉ bucketAt g' k)
               ∧ ∀ key, key ∈ Grid.pairsList g' →
                   ∃ record, Grid.pairs g' !! key = Some record
                     ∧ Pair.bodyA record ≠ body
                     ∧ Pair.bodyB record ≠ body)
            ∧ (∀ x k, x ≠ body → bothStatic h' x body = false →
                 body ∈ bucketAt g' k → x ∈ bucketAt g' k →
                 Pair.id (h' x) (h' body) ∈ Grid.pairsList g'))
         ∧ (body ∈ bodies →
            Body.isSleeping (h body) = false →
            Grid.outOfWorld (h body) (Engine.world engine) = false →
            Body.region (h' body) = Some (regionOf g (h body))
            ∧ ∀ k, body ∈ bucketAt g' k
                   ↔ ∃ c, inside c (regionOf g (h body)) ∧ cellId c = k)).
Proof.
  split.
  - intros g h bodies forceUpdate g' h' Hreach Hout Hupd.
    destruct (Reachable_inv g h Hreach) as [_ Hpool].
    apply update_any in Hupd as (_ & _ & _ & Hun & _).
    destruct (Hun body) as [Hh Hb].
    { intros _. unfold processed. rewrite Hout. apply andb_false_r. }
    split; [done|]. apply Hb. intros bucket Hin.
    rewrite (Hpool bucket Hin). apply not_elem_of_nil.
  - intros lo g h bodies Htracked Hfits Hstart.
    pose proof (Tracked_consistent lo g h Htracked) as Hcons.
    destruct (update_registers lo engine bodies g h Hcons Hfits Hstart)
      as (g' & h' & Hupd & Hcons' & Hplaced & Hun).
    exists g', h'. split; [done|]. split.
    + intros Hout. destruct (Hun body) as [Hh Hb].
      { intros _. unfold processed. rewrite Hout. apply andb_false_r. }
      split; [done|]. split.
      * intros Hnone.
        assert (Habsent : absent g' body).
        { intros k. rewrite Hb.
          destruct Hcons as [Hcoh _].
          rewrite (registered_noRegion lo h g body Hcoh Hnone k).
          intros (r & c & Hr & _). by rewrite Hnone in Hr. }
        split; [done|]. intros key Hkey.
        pose proof Hcons' as [_ (_ & Hlist & _)].
        apply Hlist in Hkey as [record Hlook].
        exists record. split; [done|]. by eapply absent_unpaired.
      * intros x k Hx Hst Hbody Hother.
        by apply (shared_bucket_listed lo h' g' x body k).
    + intros Hin Hawake Hinside. apply Hplaced; [done|].
      unfold processed. by rewrite Hawake, Hinside.
Qed.

(** Body [2] of the small world, which is outside the world and has no
    region, is given to the second update.  Body [0] of the small world
    leaves the world after the first update: the next update leaves it in
    its buckets, and its pair with body [1] stays listed; when it has come
    back into the cells [(1, 0)] and [(2, 0)], the update after that
    leaves it in exactly the buckets of these two cells. *)
Lemma out_of_world_bodies_are_skipped_witness :
  (Grid.outOfWorld (Demo.first.2 2%nat) (Engine.world Demo.engine) = true
   ∧ Grid.update Demo.first.1 Demo.first.2 [0%nat; 1%nat; 2%nat]
       Demo.engine false
     = Some (Demo.outsider.1, Demo.outsider.2)
   ∧ Demo.outsider.2 2%nat = Demo.first.2 2%nat
   ∧ ∀ k, 2%nat ∈ bucketAt Demo.outsider.1 k
          → 2%nat ∈ bucketAt Demo.first.1 k)
  ∧ (Grid.outOfWorld (Demo.leaving 0%nat) (Engine.world Demo.engine) = true
     ∧ (∀ k, 0%nat ∈ bucketAt Demo.gone.1 k ↔ 0%nat ∈ bucketAt Demo.first.1 k)
     ∧ (1, 2) ∈ Grid.pairsList Demo.gone.1)
  ∧ (Grid.outOfWorld (Cases.backHeap 0%nat) (Engine.world Demo.engine)
     = false
     ∧ Body.region (Cases.back.2 0%nat) = Some (Region.mk 1 2 0 0)
     ∧ ∀ k, 0%nat ∈ bucketAt Cases.back.1 k
            ↔ ∃ c, inside c (Region.mk 1 2 0 0) ∧ cellId c = k).
Proof.
  assert (Hout : Grid.outOfWorld (Demo.first.2 2%nat)
                   (Engine.world Demo.engine) = true)
    by (vm_compute; reflexivity).
  assert (Hupd : Grid.update Demo.first.1 Demo.first.2
                   [0%nat; 1%nat; 2%nat] Demo.engine false
                 = Some (Demo.outsider.1, Demo.outsider.2))
    by (apply Demo_result_eq; vm_compute; reflexivity).
  assert (Hreach : Reachable Demo.first.1 Demo.first.2).
  { eapply reach_update; [apply reach_create|exact Demo_first_eq]. }
  assert (Hleft : Tracked 0 Demo.first.1 Demo.leaving).
  { eapply tracked_external; [|apply Demo_move_external].
    eapply tracked_external; [exact Demo_first_tracked|].
    apply Demo_move_external. }
  assert (Hback : Tracked 0 Demo.gone.1 Cases.backHeap).
  { eapply tracked_external; [exact Demo_gone_tracked|].
    apply Demo_move_external. }
  assert (Hgone : Grid.outOfWorld (Demo.leaving 0%nat)
                    (Engine.world Demo.engine) = true)
    by (vm_compute; reflexivity).
  assert (Hinside : Grid.outOfWorld (Cases.backHeap 0%nat)
                      (Engine.world Demo.engine) = false)
    by (vm_compute; reflexivity).
  destruct (out_of_world_bodies_are_skipped Demo.engine 2%nat) as [Hskip _].
  destruct (out_of_world_bodies_are_skipped Demo.engine 0%nat)
    as [_ Hnormal].
  split; [|split].
  - split; [exact Hout|]. split; [exact Hupd|].
    exact (Hskip _ _ _ _ _ _ Hreach Hout Hupd).
  - split; [exact Hgone|].
    destruct (Hnormal 0 Demo.first.1 Demo.leaving [0%nat; 1%nat; 2%nat] Hleft)
      as (g' & h' & Hupd' & Hstays & _).
    + apply fits_forallb. vm_compute. reflexivity.
    + apply (allRegistered_Forall 0); [exact Hleft|].
      apply Forall_cons. split; [right; exists 0; vm_compute; reflexivity|].
      apply Forall_cons. split; [right; exists 0; vm_compute; reflexivity|].
      apply Forall_cons. split; [left; vm_compute; reflexivity|].
      apply Forall_nil_2.
    + rewrite Demo_gone_eq in Hupd'. apply result_inv in Hupd' as [-> ->].
      destruct (Hstays Hgone) as (Hsame & _ & Hpairs).
      split; [exact Hsame|].
      assert (Hst : bothStatic Demo.gone.2 1%nat 0%nat = false)
        by (vm_compute; reflexivity).
      assert (Hkey : Pair.id (Demo.gone.2 1%nat) (Demo.gone.2 0%nat) = (1, 2))
        by (vm_compute; reflexivity).
      assert (Hzero : 0%nat ∈ bucketAt Demo.gone.1 0)
        by (apply (bool_decide_eq_true_1 _); vm_compute; reflexivity).
      assert (Hone : 1%nat ∈ bucketAt Demo.gone.1 0)
        by (apply (bool_decide_eq_true_1 _); vm_compute; reflexivity).
      assert (Hne : 1%nat ≠ 0%nat) by done.
      pose proof (Hpairs 1%nat 0 Hne Hst Hzero Hone) as Hlisted.
      rewrite Hkey in Hlisted. exact Hlisted.
  - split; [exact Hinside|].
    destruct (Hnormal 0 Demo.gone.1 Cases.backHeap [0%nat; 1%nat; 2%nat] Hback)
      as (g' & h' & Hupd' & _ & Hplaced).
    + apply fits_forallb. vm_compute. reflexivity.
    + apply (allRegistered_Forall 0); [exact Hback|].
      apply Forall_cons. split; [right; exists 0; vm_compute; reflexivity|].
      apply Forall_cons. split; [right; exists 0; vm_compute; reflexivity|].
      apply Forall_cons. split; [right; exists 0; vm_compute; reflexivity|].
      apply Forall_nil_2.
    + rewrite Cases_back_eq in Hupd'. apply result_inv in Hupd' as [-> ->].
      assert (Hregion : regionOf Demo.gone.1 (Cases.backHeap 0%nat)
                        = Region.mk 1 2 0 0) by (vm_compute; reflexivity).
      rewrite Hregion in Hplaced. apply Hplaced.
      * apply elem_of_cons. by left.
      * vm_compute. reflexivity.
      * exact Hinside.
Defined.

(** C10. The rejection test of [Grid.update] uses strict inequalities: a
    body is rejected iff its bounding box is strictly separated from the
    world bounds on one of the four sides, so a body whose bounds merely
    touch the world bounds (for example [body.bounds.max.x] equal to
    [world.bounds.min.x]) is not rejected.  In normal operation an update
    that is given such a body, awake, records its current region and
    leaves the body in exactly the buckets of the cells of that region. *)
Theorem touching_bodies_are_processed :
  (∀ (b : Body.t) (world : World.t),
     Grid.outOfWorld b world = false ↔ notSeparated b world)
  ∧ (∀ (b : Body.t) (world : World.t),
       (Vector.x (Bounds.max (Body.bounds b))
        == Vector.x (Bounds.min (World.bounds world)))%Q →
       (Vector.x (Bounds.min (Body.bounds b))
        <= Vector.x (Bounds.max (World.bounds world)))%Q →
       (Vector.y (Bounds.min (World.bounds world))
        <= Vector.y (Bounds.max (Body.bounds b)))%Q →
       (Vector.y (Bounds.min (Body.bounds b))
        <= Vector.y (Bounds.max (World.bounds world)))%Q →
       Grid.outOfWorld b world = false)
  ∧ (∀ lo g h bodies engine body,
       Tracked lo g h →
       (∀ x, x ∈ bodies → fits lo engine false g h x) →
       allRegistered engine g h bodies →
       body ∈ bodies →
       Body.isSleeping (h body) = false →
       notSeparated (h body) (Engine.world engine) →
       ∃ g' h',
         Grid.update g h bodies engine false = Some (g', h')
         ∧ Body.region (h' body) = Some (regionOf g (h body))
         ∧ ∀ k, body ∈ bucketAt g' k
                ↔ ∃ c, inside c (regionOf g (h body)) ∧ cellId c = k).
Proof.
  split; [apply outOfWorld_false|]. split.
  - intros b world Htouch Hx Hy1 Hy2. apply outOfWorld_false.
    split; [|done]. rewrite Htouch. apply Qle_refl.
  - intros lo g h bodies engine body Htracked Hfits Hstart Hin Hawake Hns.
    pose proof (Tracked_consistent lo g h Htracked) as Hcons.
    destruct (update_registers lo engine bodies g h Hcons Hfits Hstart)
      as (g' & h' & Hupd & _ & Hplaced & _).
    exists g', h'. split; [done|]. apply Hplaced; [done|].
    unfold processed. rewrite Hawake.
    by rewrite (proj2 (outOfWorld_false _ _) Hns).
Qed.

(** Body [0] of the small world with its right edge on the left edge of
    the world: the update puts it into the buckets of the cells [(-1, 0)]
    and [(0, 0)]. *)
Lemma touching_bodies_are_processed_witness :
  (Vector.x (Bounds.max (Body.bounds (Demo.touchingHeap 0%nat)))
   == Vector.x (Bounds.min (World.bounds (Engine.world Demo.engine))))%Q
  ∧ Grid.outOfWorld (Demo.touchingHeap 0%nat) (Engine.world Demo.engine)
    = false
  ∧ regionOf Demo.first.1 (Demo.touchingHeap 0%nat) = Region.mk (-1) 0 0 0
  ∧ ∃ g' h',
      Grid.update Demo.first.1 Demo.touchingHeap [0%nat; 1%nat]
        Demo.engine false = Some (g', h')
      ∧ 0%nat ∈ bucketAt g' (Grid._getBucketId (-1) 0)
      ∧ 0%nat ∈ bucketAt g' (Grid._getBucketId 0 0).
Proof.
  assert (Htouch :
    (Vector.x (Bounds.max (Body.bounds (Demo.touchingHeap 0%nat)))
     == Vector.x (Bounds.min (World.bounds (Engine.world Demo.engine))))%Q)
    by (vm_compute; reflexivity).
  assert (Hregion : regionOf Demo.first.1 (Demo.touchingHeap 0%nat)
                    = Region.mk (-1) 0 0 0) by (vm_compute; reflexivity).
  destruct touching_bodies_are_processed as (_ & Hnot & Hplaced).
  assert (Hin : Grid.outOfWorld (Demo.touchingHeap 0%nat)
                  (Engine.world Demo.engine) = false).
  { apply Hnot; [exact Htouch| | |]; by vm_compute. }
  split; [exact Htouch|]. split; [exact Hin|]. split; [exact Hregion|].
  assert (Hmoved : Tracked 0 Demo.first.1 Demo.touchingHeap).
  { eapply tracked_external; [exact Demo_first_tracked|].
    apply Demo_move_external. }
  destruct (Hplaced 0 Demo.first.1 Demo.touchingHeap [0%nat; 1%nat]
              Demo.engine 0%nat)
    as (g' & h' & Hupd & _ & Hbuckets).
  - exact Hmoved.
  - apply Demo_fits; apply Demo_rows; vm_compute; reflexivity.
  - apply (Demo_registered _ _ 0 0 Hmoved); vm_compute; reflexivity.
  - apply elem_of_cons. by left.
  - vm_compute. reflexivity.
  - apply outOfWorld_false. exact Hin.
  - exists g', h'. split; [exact Hupd|]. rewrite Hregion in Hbuckets.
    split; apply Hbuckets.
    + exists (-1, 0). split; reflexivity.
    + exists (0, 0). split; reflexivity.
Defined.

(** ** Regions *)

Section Regions.

Implicit Types (r a b scratch : Region.t) (c : Z * Z).

(** Dividing by a positive cell size and rounding down is monotone. *)
Lemma Qfloor_div_le (v1 v2 size : Q) :
  (0 < size)%Q → (v1 <= v2)%Q →
  Qfloor (Number.div v1 size) <= Qfloor (Number.div v2 size).
Proof.
  intros Hsize Hle. apply Qfloor_resp_le. apply round_le. unfold Qdiv.
  apply Qmult_le_compat_r; [done|].
  apply Qlt_le_weak. by apply Qinv_lt_0_compat.
Qed.

(** The cell of a point of the bounds lies inside the region of the
    body. *)
Lemma point_inside_region (g : Grid.t) scratch (body : Body.t) (px py : Q) :
  (0 < Grid.bucketWidth g)%Q → (0 < Grid.bucketHeight g)%Q →
  covers (Body.bounds body) px py →
  inside (cellAt g px py) (Grid._getRegion g scratch body).
Proof.
  intros Hw Hh (Hx0 & Hx1 & Hy0 & Hy1).
  apply inside_spec. unfold Grid._getRegion, cellAt. cbn.
  repeat split; by apply Qfloor_div_le.
Qed.

End Regions.

(** X16. [Grid._regionUnion] computes the smallest region that contains both
    regions: every cell of either region is a cell of the union, and a
    region that contains all cells of two regions which are not empty
    contains all cells of their union.  The result does not depend on the
    order of the two regions nor on the values that the scratch region
    held, and the union of a region with itself is that region. *)
Theorem regionUnion_least (scratch a b : Region.t) :
  let u := Grid._regionUnion scratch a b in
  (∀ c, inside c a ∨ inside c b → inside c u)
  ∧ (∀ r, nonEmpty a → nonEmpty b →
       (∀ c, inside c a → inside c r) → (∀ c, inside c b → inside c r) →
       ∀ c, inside c u → inside c r)
  ∧ (∀ scratch', Grid._regionUnion scratch' b a = u)
  ∧ Grid._regionUnion scratch a a = a.
Proof.
  intros u. subst u. split; [|split; [|split]].
  - intros c [Hc|Hc]; revert Hc; rewrite !inside_spec;
      unfold Grid._regionUnion; cbn; lia.
  - intros r [Hac Har] [Hbc Hbr] Ha Hb c.
    pose proof (Ha (Region.startCol a, Region.startRow a)) as Ha0.
    pose proof (Ha (Region.endCol a, Region.endRow a)) as Ha1.
    pose proof (Hb (Region.startCol b, Region.startRow b)) as Hb0.
    pose proof (Hb (Region.endCol b, Region.endRow b)) as Hb1.
    rewrite !inside_spec in Ha0, Ha1, Hb0, Hb1. cbn in Ha0, Ha1, Hb0, Hb1.
    rewrite !inside_spec. unfold Grid._regionUnion. cbn. lia.
  - intros scratch'. unfold Grid._regionUnion.
    f_equal; lia.
  - unfold Grid._regionUnion. destruct a. cbn. f_equal; lia.
Qed.

(** The union of the regions of the columns [0 .. 2] and [1 .. 4] of the
    row [0]. *)
Lemma regionUnion_least_witness :
  let a := Region.mk 0 2 0 0 in
  let b := Region.mk 1 4 0 0 in
  Grid._regionUnion a a b = Region.mk 0 4 0 0
  ∧ ∀ c, inside c (Grid._regionUnion a a b) → inside c (Region.mk 0 4 0 0).
Proof.
  intros a b. split; [reflexivity|].
  destruct (regionUnion_least a a b) as (_ & Hleast & _).
  apply Hleast.
  - split; simpl; lia.
  - split; simpl; lia.
  - intros c. rewrite !inside_spec. simpl. lia.
  - intros c. rewrite !inside_spec. simpl. lia.
Defined.

(** X17. [Grid._isSameRegion] holds exactly for two regions that are both
    defined and have the same four fields; an undefined region is the
    same as no region, not even as itself.  The copies that
    [Grid._createRegionFrom] and [Grid._setRegion] make are the same
    region as their source. *)
Theorem isSameRegion_iff (regionA regionB : option Region.t) :
  (Grid._isSameRegion regionA regionB = true
   ↔ ∃ r, regionA = Some r ∧ regionB = Some r)
  ∧ Grid._isSameRegion regionA regionB = Grid._isSameRegion regionB regionA
  ∧ Grid._isSameRegion None regionB = false
  ∧ (∀ r target,
       Grid._isSameRegion (Some (Grid._createRegionFrom r)) (Some r) = true
       ∧ Grid._isSameRegion (Some (Grid._setRegion target r)) (Some r)
         = true).
Proof.
  split; [|split; [|split]].
  - destruct regionA as [a|], regionB as [b|].
    + split.
      * intros Hsame. apply isSameRegion_eq in Hsame as ->. by exists b.
      * intros (r & [= ->] & [= ->]). by apply isSameRegion_eq.
    + split; [done|]. by intros (r & _ & ?).
    + split; [done|]. by intros (r & ? & _).
    + split; [done|]. by intros (r & ? & _).
  - destruct regionA as [a|], regionB as [b|]; cbn; try done.
    by rewrite (Z.eqb_sym (Region.startCol a)), (Z.eqb_sym (Region.endCol a)),
      (Z.eqb_sym (Region.startRow a)), (Z.eqb_sym (Region.endRow a)).
  - done.
  - intros r target. split; apply isSameRegion_eq; by destruct r.
Qed.

(** X15. [Grid._getRegion] covers the bounds: with positive cell sizes the cell
    of every point of the bounding box of a body is a cell of the
    region of the body, so the region of a bounding box whose minimum is
    not beyond its maximum is not empty. *)
Theorem getRegion_covers_bounds (g : Grid.t) (scratch : Region.t)
    (body : Body.t) :
  (0 < Grid.bucketWidth g)%Q → (0 < Grid.bucketHeight g)%Q →
  (∀ px py, covers (Body.bounds body) px py →
     inside (cellAt g px py) (Grid._getRegion g scratch body))
  ∧ ((Vector.x (Bounds.min (Body.bounds body))
      <= Vector.x (Bounds.max (Body.bounds body)))%Q →
     (Vector.y (Bounds.min (Body.bounds body))
      <= Vector.y (Bounds.max (Body.bounds body)))%Q →
     nonEmpty (Grid._getRegion g scratch body)).
Proof.
  intros Hw Hh. split.
  - intros px py. by apply point_inside_region.
  - intros Hx Hy. unfold nonEmpty, Grid._getRegion. cbn.
    split; by apply Qfloor_div_le.
Qed.

(** The point [(50, 20)] of the bodies of the small world lies in the
    cell [(1, 0)]. *)
Lemma getRegion_covers_bounds_witness :
  cellAt Demo.grid (50 # 1) (20 # 1) = (1, 0)
  ∧ inside (1, 0)
      (Grid._getRegion Demo.grid (Grid._current Demo.grid)
         (Demo.heap 0%nat)).
Proof.
  assert (Hcell : cellAt Demo.grid (50 # 1) (20 # 1) = (1, 0))
    by (vm_compute; reflexivity).
  split; [exact Hcell|]. rewrite <- Hcell.
  destruct (getRegion_covers_bounds Demo.grid (Grid._current Demo.grid)
              (Demo.heap 0%nat)) as [Hcovers _].
  - reflexivity.
  - reflexivity.
  - apply Hcovers. unfold covers. simpl.
    repeat split; unfold Qle; simpl; lia.
Defined.

(** ** Removing a body from a bucket *)

Section RemoveFromBucket.

Implicit Types (bucket before after rest : list ref) (body : ref).

(** The array after the removal of the first occurrence of a body: the
    last element has taken its place. *)
Lemma swapRemove_first before after body :
  body ∉ before →
  Grid.swapRemove (before ++ body :: after)
    (Common.indexOf (before ++ body :: after) body)
  = Some (match reverse after with
          | [] => before
          | z :: rest => before ++ z :: reverse rest
          end).
Proof.
  intros Hnotin. rewrite indexOf_first by done.
  unfold Grid.swapRemove.
  destruct (Z.eqb_spec (Z.of_nat (length before)) (-1)); [lia|].
  rewrite Nat2Z.id.
  destruct after as [|z after' _] using rev_ind.
  - change (reverse []) with (@nil ref). rewrite last_snoc. f_equal.
    replace (length before) with (length before + 0)%nat at 1 by lia.
    rewrite insert_app_r. cbn.
    apply take_app_length'. rewrite length_app. cbn [length]. lia.
  - rewrite reverse_app, reverse_singleton. cbn [app].
    rewrite reverse_involutive.
    assert (Hshape : ∀ y : ref, before ++ y :: after' ++ [z]
                                = (before ++ y :: after') ++ [z])
      by (intros y; by rewrite <- app_assoc).
    rewrite (Hshape body), last_snoc. f_equal.
    rewrite <- (Hshape body).
    replace (length before) with (length before + 0)%nat at 1 by lia.
    rewrite insert_app_r.
    change (<[0%nat:=z]> (body :: after' ++ [z]))
      with (z :: after' ++ [z]).
    rewrite (Hshape z).
    apply take_app_length'.
    rewrite !length_app. cbn [length]. rewrite ?length_app. cbn [length]. lia.
Qed.

End RemoveFromBucket.

(** X7. [Grid._bucketRemoveBody] of a body that is in the bucket removes its
    first occurrence by moving the last element of the array into its
    place: the other elements stay, the array is one shorter, and for
    every element that stays the count of the record under the key of
    the body and that element, when there is such a record, drops by one
    (whatever the ids and the static flags are).  No other part of the
    grid changes. *)
Theorem bucketRemoveBody_moves_last (h : Heap) (g : Grid.t) (k : Z)
    (before after : list ref) (body : ref) :
  body ∉ before →
  let bucket := before ++ body :: after in
  let bucket' := match reverse after with
                 | [] => before
                 | z :: rest => before ++ z :: reverse rest
                 end in
  ∃ g', Grid._bucketRemoveBody h g k bucket body = Some g'
    ∧ Grid.buckets g' = <[k := bucket']> (Grid.buckets g)
    ∧ bucket ≡ₚ body :: bucket'
    ∧ (∀ key, Grid.pairs g' !! key
              = Pair.add_count
                  (- Z.of_nat (length (filter
                       (λ x, Pair.id (h body) (h x) = key) bucket')))
                <$> Grid.pairs g !! key)
    ∧ Grid.freeBuckets g' = Grid.freeBuckets g
    ∧ Grid.pairsList g' = Grid.pairsList g.
Proof.
  intros Hnotin bucket bucket'.
  unfold Grid._bucketRemoveBody. subst bucket.
  rewrite swapRemove_first by done. fold bucket'.
  eexists. split; [done|]. cbn.
  split; [done|]. split; [|split; [|done]].
  - subst bucket'. destruct after as [|z after' _] using rev_ind.
    + change (reverse []) with (@nil ref).
      by rewrite <- Permutation_middle, app_nil_r.
    + rewrite reverse_app, reverse_singleton. cbn [app].
      rewrite reverse_involutive.
      etrans; [symmetry; apply Permutation_middle|].
      apply perm_skip. apply Permutation_app_head.
      symmetry. apply Permutation_cons_append.
  - intros key. apply foldl_removePair_lookup.
Qed.

(** The body [1] is removed from the bucket [[0; 1; 2; 3]]: the array
    becomes [[0; 3; 2]]. *)
Lemma bucketRemoveBody_moves_last_witness :
  ∃ g', Grid._bucketRemoveBody Demo.heap Demo.grid 7
          [0%nat; 1%nat; 2%nat; 3%nat] 1%nat = Some g'
    ∧ Grid.buckets g' = <[7 := [0%nat; 3%nat; 2%nat]]> (Grid.buckets Demo.grid).
Proof.
  destruct (bucketRemoveBody_moves_last Demo.heap Demo.grid 7
              [0%nat] [2%nat; 3%nat] 1%nat) as (g' & Hrem & Hbuckets & _).
  - intros Hin. apply list_elem_of_singleton in Hin. lia.
  - exists g'. split; [exact Hrem|exact Hbuckets].
Defined.

(** X8. [Grid._bucketRemoveBody] throws exactly when the bucket is empty.  When
    the body is not in a bucket that is not empty, the call drops the last
    element of the array in its place, and the records of the body with
    the elements that stay are decremented all the same. *)
Theorem bucketRemoveBody_absent (h : Heap) (g : Grid.t) (k : Z)
    (bucket : list ref) (body : ref) :
  (Grid._bucketRemoveBody h g k bucket body = None ↔ bucket = [])
  ∧ (∀ rest lastBody,
       bucket = rest ++ [lastBody] → body ∉ bucket →
       Grid._bucketRemoveBody h g k bucket body
       = Some (Grid.set_buckets (<[k := rest]> (Grid.buckets g))
                 (Grid.set_pairs
                    (foldl (Grid.removePair h body) (Grid.pairs g) rest) g))).
Proof.
  split.
  - unfold Grid._bucketRemoveBody, Grid.swapRemove.
    destruct bucket as [|b bucket] using rev_ind; [done|].
    rewrite last_snoc. split; [done|].
    intros Hnil. by apply app_nil in Hnil as [_ ?].
  - intros rest lastBody -> Hnotin.
    unfold Grid._bucketRemoveBody. by rewrite swapRemove_absent.
Qed.

(** The body [5] is not in the bucket [[0; 1]]: body [1] is dropped. *)
Lemma bucketRemoveBody_absent_witness :
  Grid._bucketRemoveBody Demo.heap Demo.grid 7 [] 5%nat = None
  ∧ Grid.buckets
      (default Demo.grid
         (Grid._bucketRemoveBody Demo.heap Demo.grid 7 [0%nat; 1%nat] 5%nat))
    !! 7 = Some [0%nat].
Proof.
  split.
  - by apply (bucketRemoveBody_absent Demo.heap Demo.grid 7 [] 5%nat).
  - destruct (bucketRemoveBody_absent Demo.heap Demo.grid 7
                [0%nat; 1%nat] 5%nat) as [_ Hdrop].
    rewrite (Hdrop [0%nat] 1%nat); [|done|].
    + apply lookup_insert_eq.
    + intros Hin. apply elem_of_cons in Hin as [Hin|Hin]; [lia|].
      apply list_elem_of_singleton in Hin. lia.
Defined.

(** ** Adding a body to a bucket and removing it again *)

Section RoundTrip.

Variable h : Heap.

Implicit Types (g : Grid.t) (body : ref) (bucket : list ref)
  (pairs : gmap Pair.Id Pair.t).

Lemma add_count_add_count (a b : Z) (record : Pair.t) :
  Pair.add_count a (Pair.add_count b record) = Pair.add_count (b + a) record.
Proof. unfold Pair.add_count. cbn. f_equal. lia. Qed.

Lemma add_count_0 (record : Pair.t) : Pair.add_count 0 record = record.
Proof. destruct record. unfold Pair.add_count. cbn. f_equal. lia. Qed.

(** The loop of [Grid._bucketAddBody], key by key: the record under a key
    is created by the first element of the bucket that counts for the
    key, and incremented by the others. *)
Lemma foldl_addPair_lookup body bucket pairs key :
  foldl (Grid.addPair h body) pairs bucket !! key
  = match filter (λ x, counted h body x ∧ Pair.id (h body) (h x) = key)
            bucket with
    | [] => pairs !! key
    | x0 :: rest =>
        Some (match pairs !! key with
              | Some record =>
                  Pair.add_count (Z.of_nat (S (length rest))) record
              | None => Pair.mk body x0 (Z.of_nat (S (length rest)))
              end)
    end.
Proof.
  revert pairs. induction bucket as [|x bucket IH]; intros pairs; [done|].
  cbn [foldl]. rewrite IH. rewrite addPair_lookup.
  destruct (decide (counted h body x ∧ Pair.id (h body) (h x) = key))
    as [Hhit|Hmiss].
  - rewrite filter_cons_True by done.
    destruct (filter _ bucket) as [|x0 rest].
    + destruct (pairs !! key); done.
    + f_equal. destruct (pairs !! key) as [record|].
      * rewrite add_count_add_count. f_equal. cbn [length]. lia.
      * unfold Pair.add_count. cbn. f_equal. lia.
  - by rewrite filter_cons_False by done.
Qed.

Lemma filter_ext_in {A} (P Q : A → Prop) `{∀ x, Decision (P x)}
    `{∀ x, Decision (Q x)} (l : list A) :
  (∀ x, x ∈ l → P x ↔ Q x) → filter P l = filter Q l.
Proof.
  induction l as [|x l IH]; intros Hiff; [done|].
  assert (Hx : P x ↔ Q x) by (apply Hiff; apply elem_of_cons; by left).
  assert (Hl : filter P l = filter Q l).
  { apply IH. intros y Hy. apply Hiff. apply elem_of_cons. by right. }
  destruct (decide (P x)) as [HP|HP].
  - rewrite !filter_cons_True by tauto. by rewrite Hl.
  - rewrite !filter_cons_False by tauto. done.
Qed.

End RoundTrip.

(** X9. [Grid._bucketAddBody] followed by [Grid._bucketRemoveBody] of the same
    body (bodies have distinct ids, the body is not yet in the bucket, and
    no record exists for the body and a body of the bucket that are both
    static): the removal returns, the bucket is the array it was, and
    every record has the count it had; the records that the addition
    created stay in the table with count [0], so that the positive
    records, which the extraction keeps, are those of before. *)
Theorem bucketAddBody_then_remove (h : Heap) (g : Grid.t) (k : Z)
    (bucket : list ref) (body : ref) :
  uniqueIds h → body ∉ bucket →
  (∀ x, x ∈ bucket → bothStatic h body x = true →
        Grid.pairs g !! Pair.id (h body) (h x) = None) →
  ∃ g2,
    Grid._bucketRemoveBody h (Grid._bucketAddBody h g k bucket body) k
      (bucket ++ [body]) body = Some g2
    ∧ Grid.buckets g2 = <[k := bucket]> (Grid.buckets g)
    ∧ (∀ key, Grid.pairs g2 !! key = Grid.pairs g !! key
              ∨ (Grid.pairs g !! key = None
                 ∧ ∃ x, x ∈ bucket
                     ∧ Grid.pairs g2 !! key = Some (Pair.mk body x 0)))
    ∧ filter active (Grid.pairs g2) = filter active (Grid.pairs g)
    ∧ Grid.freeBuckets g2 = Grid.freeBuckets g
    ∧ Grid.pairsList g2 = Grid.pairsList g.
Proof.
  intros Hids Hnotin Hstatic.
  assert (Hswap : Grid.swapRemove (bucket ++ [body])
                    (Common.indexOf (bucket ++ [body]) body) = Some bucket).
  { by rewrite (swapRemove_first bucket [] body Hnotin). }
  unfold Grid._bucketRemoveBody. rewrite Hswap.
  eexists. split; [done|]. cbn.
  assert (Hkeys : ∀ key,
    foldl (Grid.removePair h body)
      (foldl (Grid.addPair h body) (Grid.pairs g) bucket) bucket !! key
    = Grid.pairs g !! key
    ∨ (Grid.pairs g !! key = None
       ∧ ∃ x, x ∈ bucket
           ∧ foldl (Grid.removePair h body)
               (foldl (Grid.addPair h body) (Grid.pairs g) bucket) bucket
             !! key = Some (Pair.mk body x 0))).
  { intros key. rewrite foldl_removePair_lookup, foldl_addPair_lookup.
    destruct (decide (Exists (λ x, Pair.id (h body) (h x) = key
                                   ∧ bothStatic h body x = true) bucket))
      as [Hex|Hcounted].
    - (* the bodies under this key are both static *)
      apply Exists_exists in Hex as (x & Hx & Hkey & Hst).
      left.
      rewrite (nil_length_inv (filter
        (λ y, counted h body y ∧ Pair.id (h body) (h y) = key) bucket)).
      { rewrite <- Hkey, (Hstatic x Hx Hst). done. }
      apply length_filter_none. intros y Hy [[_ Hmixed] Hykey].
      rewrite <- Hkey in Hykey.
      apply (Pair_id_inj h) in Hykey as [[_ ->]|[-> _]]; [|done|done].
      by rewrite Hst in Hmixed.
    - (* every body under this key counts *)
      assert (Hsame :
        filter (λ x, counted h body x ∧ Pair.id (h body) (h x) = key) bucket
        = filter (λ x, Pair.id (h body) (h x) = key) bucket).
      { apply filter_ext_in.
        intros x Hx. split; [tauto|]. intros Hkey. split; [|done]. split.
        - intros Heq. apply Hids in Heq. by subst x.
        - destruct (bothStatic h body x) eqn:Hst; [|done].
          exfalso. apply Hcounted. apply Exists_exists. by exists x. }
      rewrite Hsame.
      destruct (filter (λ x, Pair.id (h body) (h x) = key) bucket)
        as [|x0 rest] eqn:Hfilter.
      + left. destruct (Grid.pairs g !! key) as [record|]; [|done].
        change (Some (Pair.add_count (- 0) record) = Some record).
        by rewrite add_count_0.
      + destruct (Grid.pairs g !! key) as [record|].
        * left.
          change (Some (Pair.add_count (- Z.of_nat (S (length rest)))
                          (Pair.add_count (Z.of_nat (S (length rest)))
                             record)) = Some record).
          rewrite add_count_add_count, Z.add_opp_diag_r.
          by rewrite add_count_0.
        * right. split; [done|]. exists x0. split.
          { assert (Hin : x0 ∈ filter (λ x, Pair.id (h body) (h x) = key)
                                 bucket)
              by (rewrite Hfilter; apply elem_of_cons; by left).
            by apply list_elem_of_filter in Hin as [_ ?]. }
          change (Some (Pair.add_count (- Z.of_nat (S (length rest)))
                          (Pair.mk body x0 (Z.of_nat (S (length rest)))))
                  = Some (Pair.mk body x0 0)).
          unfold Pair.add_count. cbn [Pair.bodyA Pair.bodyB Pair.count].
          by rewrite Z.add_opp_diag_r. }
  split; [by rewrite insert_insert_eq|]. split; [done|].
  split; [|done].
  apply map_eq. intros key. apply option_eq. intros record.
  rewrite !map_lookup_filter_Some.
  destruct (Hkeys key) as [Heq|(Hnone & x & _ & Hzero)].
  - by rewrite Heq.
  - rewrite Hzero, Hnone. split; [|by intros [? _]].
    intros [[= <-] Hact]. unfold active in Hact. cbn in Hact. lia.
Qed.

(** Body [1] is added to the bucket [[0]] of a new grid and removed
    again. *)
Lemma bucketAddBody_then_remove_witness :
  ∃ g2,
    Grid._bucketRemoveBody Demo.heap
      (Grid._bucketAddBody Demo.heap Demo.grid 0 [0%nat] 1%nat) 0
      [0%nat; 1%nat] 1%nat = Some g2
    ∧ Grid.buckets g2 = <[0 := [0%nat]]> (Grid.buckets Demo.grid)
    ∧ filter active (Grid.pairs g2) = filter active (Grid.pairs Demo.grid).
Proof.
  destruct (bucketAddBody_then_remove Demo.heap Demo.grid 0 [0%nat] 1%nat)
    as (g2 & Hrem & Hb & _ & Hp & _).
  - exact Demo_uniqueIds.
  - intros Hin. apply list_elem_of_singleton in Hin. lia.
  - intros x _ _. reflexivity.
  - exists g2. split; [exact Hrem|]. split; [exact Hb|exact Hp].
Defined.

(** ** Extraction, twice *)

(** X18. [Grid._createActivePairsList] is idempotent: a second extraction
    deletes nothing and lists the same pairs, and the list of the table
    after an extraction names each record of the table once. *)
Theorem createActivePairsList_idempotent (g : Grid.t) :
  let g1 := Grid._createActivePairsList g in
  let g2 := Grid._createActivePairsList g1 in
  Grid.pairs g2 = Grid.pairs g1
  ∧ Grid.pairsList g2 ≡ₚ Grid.pairsList g1
  ∧ Synced g1
  ∧ Grid.buckets g2 = Grid.buckets g
  ∧ Grid.freeBuckets g2 = Grid.freeBuckets g.
Proof.
  intros g1 g2.
  pose proof (createActivePairsList_synced g) as Hsynced1.
  pose proof (createActivePairsList_synced g1) as Hsynced2.
  fold g1 in Hsynced1. fold g2 in Hsynced2.
  destruct (createActivePairsList_spec g) as (_ & Hp1 & Hb1 & Hf1 & _).
  destruct (createActivePairsList_spec g1) as (_ & Hp2 & Hb2 & Hf2 & _).
  fold g1 in Hp1, Hb1, Hf1, Hp2, Hb2, Hf2. fold g2 in Hp2, Hb2, Hf2.
  assert (Hpairs : Grid.pairs g2 = Grid.pairs g1).
  { rewrite Hp2. apply map_eq. intros key. apply option_eq. intros record.
    rewrite map_lookup_filter_Some. split; [by intros [? _]|].
    intros Hlook. split; [done|].
    destruct Hsynced1 as (_ & _ & Hpos). by apply (Hpos key record). }
  split; [done|]. split; [|split; [done|split; congruence]].
  destruct Hsynced1 as (Hnd1 & Hl1 & _), Hsynced2 as (Hnd2 & Hl2 & _).
  apply NoDup_Permutation; [done..|].
  intros key. by rewrite Hl1, Hl2, Hpairs.
Qed.

(** ** The loops over the cells *)

Section Cells.



End Cells.


(** ** The bucket map and the pool during an update *)

Section Lift.

(** A relation between the grid before and after that every step of
    [Grid.update] keeps. *)
Variable R : Grid.t → Grid.t → Prop.

Hypothesis R_refl : ∀ g, R g g.
Hypothesis R_trans : ∀ g1 g2 g3, R g1 g2 → R g2 g3 → R g1 g3.
Hypothesis R_current : ∀ g r, R g (Grid.set_current r g).
Hypothesis R_union : ∀ g r, R g (Grid.set_union r g).
Hypothesis R_remove : ∀ h g k bucket body g',
  Grid.buckets g !! k = Some bucket →
  Grid._bucketRemoveBody h g k bucket body = Some g' → R g g'.
Hypothesis R_add : ∀ h g k bucket body,
  Grid.buckets g !! k = Some bucket →
  R g (Grid._bucketAddBody h g k bucket body).
Hypothesis R_create : ∀ g k,
  Grid.buckets g !! k = None → R g (Grid._createBucket g k).1.
Hypothesis R_extract : ∀ g, R g (Grid._createActivePairsList g).

Implicit Types (g : Grid.t) (h : Heap) (body : ref).

(** The bucket that [Grid._createBucket] returns is the one it
    registers. *)
Lemma createBucket_registers g (k : Z) :
  Grid.buckets (Grid._createBucket g k).1 !! k
  = Some (Grid._createBucket g k).2.
Proof.
  unfold Grid._createBucket.
  destruct (reverse (Grid.freeBuckets g)); cbn; apply lookup_insert_eq.
Qed.

Lemma updateCell_lift h body (forceUpdate createRegion : bool)
    (newRegion bodyRegion : Region.t) g cell g' :
  Grid.updateCell h body forceUpdate createRegion newRegion bodyRegion g cell
    = Some g' →
  R g g'.
Proof.
  destruct cell as [col row]. unfold Grid.updateCell.
  set (k := Grid._getBucketId col row).
  set (rm := negb (Grid.isInside col row newRegion)
             && Grid.isInside col row bodyRegion).
  set (ad := createRegion
             || Grid.isInside col row newRegion
                && negb (Grid.isInside col row bodyRegion)
             || forceUpdate).
  clearbody rm ad.
  assert (Hremove : ∀ g1,
    (if rm then
       match Grid.buckets g !! k with
       | Some bucket => Grid._bucketRemoveBody h g k bucket body
       | None => Some g
       end
     else Some g) = Some g1 → R g g1).
  { intros g1. destruct rm; [|intros [= <-]; apply R_refl].
    destruct (Grid.buckets g !! k) as [bucket|] eqn:Hk.
    - by apply R_remove.
    - intros [= <-]. apply R_refl. }
  destruct (if rm then _ else _) as [g1|]; [|done].
  specialize (Hremove g1 eq_refl).
  destruct ad; [|intros [= <-]; done].
  destruct (Grid.buckets g1 !! k) as [bucket|] eqn:Hk1.
  - intros [= <-]. eapply R_trans; [done|]. by apply R_add.
  - pose proof (R_create g1 k Hk1) as Hcreate.
    pose proof (createBucket_registers g1 k) as Hreg.
    destruct (Grid._createBucket g1 k) as [g2 bucket].
    intros [= <-]. eapply R_trans; [done|]. eapply R_trans; [done|].
    by apply R_add.
Qed.

Lemma updateCells_lift h body (forceUpdate createRegion : bool)
    (newRegion bodyRegion : Region.t) (cs : list (Z * Z)) g g' :
  forM (Grid.updateCell h body forceUpdate createRegion newRegion bodyRegion)
       g cs = Some g' →
  R g g'.
Proof.
  revert g. induction cs as [|c cs IH]; intros g.
  - intros [= <-]. apply R_refl.
  - cbn [forM].
    destruct (Grid.updateCell h body forceUpdate createRegion newRegion
                bodyRegion g c) as [g1|] eqn:Hstep; [|done].
    intros Hrest. eapply R_trans.
    + by eapply updateCell_lift.
    + by apply IH.
Qed.

Lemma updateBody_lift engine (forceUpdate : bool) g h (ch : bool) body
    g' h' ch' :
  Grid.updateBody engine forceUpdate (g, h, ch) body = Some (g', h', ch') →
  R g g'.
Proof.
  rewrite updateBody_eq.
  destruct (processed engine forceUpdate (h body)); cbn [negb];
    [|intros [= <- _ _]; apply R_refl].
  cbv zeta.
  destruct (regionChanged forceUpdate _ _);
    [|intros [= <- _ _]; apply R_current].
  destruct (forM _ _ _) as [g2|] eqn:Hcells; [|done].
  intros [= <- _ _].
  apply updateCells_lift in Hcells.
  eapply R_trans; [apply R_current|]. eapply R_trans; [apply R_union|done].
Qed.

Lemma updateBodies_lift engine (forceUpdate : bool) bodies g h (ch : bool)
    g' h' ch' :
  forM (Grid.updateBody engine forceUpdate) (g, h, ch) bodies
    = Some (g', h', ch') →
  R g g'.
Proof.
  revert g h ch. induction bodies as [|body bodies IH]; intros g h ch.
  - intros [= <- _ _]. apply R_refl.
  - cbn [forM].
    destruct (Grid.updateBody engine forceUpdate (g, h, ch) body)
      as [[[g1 h1] ch1]|] eqn:Hbody; [|done].
    intros Hrest. eapply R_trans.
    + by eapply updateBody_lift.
    + by eapply IH.
Qed.

Lemma update_lift engine (forceUpdate : bool) bodies g h g' h' :
  Grid.update g h bodies engine forceUpdate = Some (g', h') →
  R g g'.
Proof.
  unfold Grid.update, Grid.updateBodies.
  destruct (forM _ _ _) as [[[g1 h1] ch1]|] eqn:Hloop; [|done].
  apply updateBodies_lift in Hloop.
  intros [= <- _]. destruct ch1; [|done].
  eapply R_trans; [done|apply R_extract].
Qed.

End Lift.

Section Conserves.

Implicit Types (g : Grid.t).

Lemma conserves_same g g' :
  Grid.buckets g' = Grid.buckets g →
  Grid.freeBuckets g' = Grid.freeBuckets g →
  conserves g g'.
Proof. intros Hb Hf. unfold conserves. rewrite Hb, Hf. repeat split; auto. Qed.

Lemma conserves_refl g : conserves g g.
Proof. by apply conserves_same. Qed.

Lemma conserves_trans g1 g2 g3 :
  conserves g1 g2 → conserves g2 g3 → conserves g1 g3.
Proof.
  intros (Hk1 & Hp1 & Hle1 & Heq1) (Hk2 & Hp2 & Hle2 & Heq2).
  split; [auto|]. split; [by etrans|]. split; [lia|].
  intros Hne.
  assert (Grid.freeBuckets g2 ≠ []).
  { intros Hnil. rewrite Hnil in Hp2. by apply prefix_nil_inv in Hp2. }
  rewrite Heq2, Heq1; done.
Qed.

(** A step that replaces the array under a key that is there. *)
Lemma conserves_replace g g' (k : Z) bucket bucket' :
  Grid.buckets g !! k = Some bucket →
  Grid.buckets g' = <[k := bucket']> (Grid.buckets g) →
  Grid.freeBuckets g' = Grid.freeBuckets g →
  conserves g g'.
Proof.
  intros Hk Hb Hf. unfold conserves. rewrite Hb, Hf.
  assert (Hsize : size (<[k := bucket']> (Grid.buckets g))
                  = size (Grid.buckets g)).
  { apply map_size_insert_Some. by eexists. }
  rewrite Hsize. split; [|done].
  intros k' Hsome. destruct (decide (k' = k)) as [->|Hne].
  - rewrite lookup_insert_eq. by eexists.
  - by rewrite lookup_insert_ne.
Qed.

Lemma createBucket_conserves g (k : Z) :
  Grid.buckets g !! k = None → conserves g (Grid._createBucket g k).1.
Proof.
  intros Hk. unfold Grid._createBucket.
  destruct (reverse (Grid.freeBuckets g)) as [|popped rest] eqn:Hrev.
  - assert (Hpool : Grid.freeBuckets g = []).
    { rewrite <- (reverse_involutive (Grid.freeBuckets g)), Hrev. done. }
    unfold conserves. cbn. rewrite Hpool.
    rewrite map_size_insert_None by done.
    split; [|split; [done|split; [cbn; lia|done]]].
    intros k' Hsome. rewrite lookup_insert_ne; [done|].
    intros ->. rewrite Hk in Hsome. by destruct Hsome.
  - assert (Hpool : Grid.freeBuckets g = reverse rest ++ [popped]).
    { rewrite <- (reverse_involutive (Grid.freeBuckets g)), Hrev.
      by rewrite reverse_cons. }
    unfold conserves. cbn. rewrite Hpool.
    rewrite map_size_insert_None by done. rewrite length_app. cbn.
    split; [|split; [by apply prefix_app_r|split; [lia|intros _; lia]]].
    intros k' Hsome. rewrite lookup_insert_ne; [done|].
    intros ->. rewrite Hk in Hsome. by destruct Hsome.
Qed.

Lemma update_conserves engine (forceUpdate : bool) bodies g h g' h' :
  Grid.update g h bodies engine forceUpdate = Some (g', h') →
  conserves g g'.
Proof.
  apply (update_lift conserves).
  - apply conserves_refl.
  - apply conserves_trans.
  - intros. by apply conserves_same.
  - intros. by apply conserves_same.
  - intros h0 g0 k bucket body g0' Hk. unfold Grid._bucketRemoveBody.
    destruct (Grid.swapRemove _ _) as [bucket'|]; [|done].
    intros [= <-]. by eapply conserves_replace.
  - intros h0 g0 k bucket body Hk. by eapply conserves_replace.
  - apply createBucket_conserves.
  - intros g0. destruct (createActivePairsList_spec g0)
      as (_ & _ & Hb & Hf & _).
    by apply conserves_same.
Qed.

End Conserves.

(** X10. [Grid.update], forced or not and in any state of the grid, deletes no
    key of [grid.buckets] (a bucket that becomes empty stays registered
    until [Grid.clear]), takes arrays from the end of the pool only, and
    allocates an array only when the pool is empty: while the pool is
    not exhausted the number of arrays, registered and pooled, stays the
    same. *)
Theorem update_keeps_bucket_keys (g : Grid.t) (h : Heap) (bodies : list ref)
    (engine : Engine.t) (forceUpdate : bool) (g' : Grid.t) (h' : Heap) :
  Grid.update g h bodies engine forceUpdate = Some (g', h') →
  (∀ k, is_Some (Grid.buckets g !! k) → is_Some (Grid.buckets g' !! k))
  ∧ Grid.freeBuckets g' `prefix_of` Grid.freeBuckets g
  ∧ (size (Grid.buckets g) + length (Grid.freeBuckets g)
     ≤ size (Grid.buckets g') + length (Grid.freeBuckets g'))%nat
  ∧ (Grid.freeBuckets g' ≠ [] →
     (size (Grid.buckets g') + length (Grid.freeBuckets g')
      = size (Grid.buckets g) + length (Grid.freeBuckets g))%nat).
Proof. apply update_conserves. Qed.

(** Body [1] has left the cell [(0, 0)], whose bucket stays registered,
    empty. *)
Lemma update_keeps_bucket_keys_witness :
  Grid.buckets Scene.reused.1 !! 0 = Some [1%nat]
  ∧ is_Some (Grid.buckets Scene.emptied.1 !! 0)
  ∧ Grid.buckets Scene.emptied.1 !! 0 = Some [].
Proof.
  assert (Hbefore : Grid.buckets Scene.reused.1 !! 0 = Some [1%nat])
    by (vm_compute; reflexivity).
  assert (Hupd : Grid.update Scene.reused.1
                   (Demo.move Scene.reused.2 1%nat
                      (RegionSpec.box 100 0 140 40))
                   [1%nat] Demo.engine false
                 = Some (Scene.emptied.1, Scene.emptied.2))
    by (apply Demo_result_eq; vm_compute; reflexivity).
  destruct (update_keeps_bucket_keys _ _ _ _ _ _ _ Hupd) as (Hkeys & _).
  split; [exact Hbefore|]. split.
  - apply Hkeys. exists [1%nat]. exact Hbefore.
  - vm_compute. reflexivity.
Defined.

(** X11. Rebuilding a cleared grid allocates nothing as long as it needs no
    more buckets than the grid had arrays: [Grid.clear] moves every
    bucket array to the pool, and the update that follows takes its
    buckets from there. *)
Theorem rebuild_allocates_nothing (g : Grid.t) (h : Heap)
    (bodies : list ref) (engine : Engine.t) (forceUpdate : bool)
    (g' : Grid.t) (h' : Heap) :
  Grid.update (Grid.clear g) h bodies engine forceUpdate = Some (g', h') →
  (size (Grid.buckets g')
   ≤ size (Grid.buckets g) + length (Grid.freeBuckets g))%nat →
  (size (Grid.buckets g') + length (Grid.freeBuckets g')
   = size (Grid.buckets g) + length (Grid.freeBuckets g))%nat.
Proof.
  intros Hupd Hfew.
  apply update_conserves in Hupd as (_ & _ & Hle & Heq).
  destruct (clear_spec g) as (Hb & Hf & _).
  rewrite Hb, Hf, map_size_empty, length_app, length_replicate in Hle, Heq.
  destruct (Grid.freeBuckets g') as [|bucket pool] eqn:Hpool.
  - cbn [length] in *. lia.
  - rewrite Heq by done. lia.
Qed.

(** The grid of the small world, cleared and rebuilt: three buckets
    before, three buckets after, no pooled array left. *)
Lemma rebuild_allocates_nothing_witness :
  (size (Grid.buckets Demo.rebuilt.1)
   + length (Grid.freeBuckets Demo.rebuilt.1)
   = size (Grid.buckets Demo.first.1)
     + length (Grid.freeBuckets Demo.first.1))%nat
  ∧ size (Grid.buckets Demo.first.1) = 3%nat.
Proof.
  split; [|vm_compute; reflexivity].
  apply (rebuild_allocates_nothing _ _ _ _ _ _ _ Demo_rebuilt_eq).
  apply Nat.leb_le. vm_compute. reflexivity.
Defined.

(** ** What the list of active pairs holds *)

(** X5. In normal operation, where the regions have exact bucket ids
    (columns up to [maxColumn], rows in one window of the width of the
    stride), the list of active pairs is sound: every listed key has a
    record in the table whose members are two different bodies, not both
    static, that are together in at least one bucket, and whose count is
    the number of cells they share.  Two static bodies are never
    listed. *)
Theorem listed_pairs_share_a_bucket (lo : Z) (g : Grid.t) (h : Heap) :
  Tracked lo g h →
  (∀ key, key ∈ Grid.pairsList g →
     ∃ record, Grid.pairs g !! key = Some record
       ∧ Pair.bodyA record ≠ Pair.bodyB record
       ∧ key = Pair.id (h (Pair.bodyA record)) (h (Pair.bodyB record))
       ∧ bothStatic h (Pair.bodyA record) (Pair.bodyB record) = false
       ∧ Pair.count record
         = Z.of_nat (sharedCells g (Pair.bodyA record) (Pair.bodyB record))
       ∧ ∃ k, Pair.bodyA record ∈ bucketAt g k
              ∧ Pair.bodyB record ∈ bucketAt g k)
  ∧ (∀ a b, bothStatic h a b = true →
       Pair.id (h a) (h b) ∉ Grid.pairsList g).
Proof.
  intros Htracked.
  destruct (Tracked_consistent lo g h Htracked)
    as [[Hids Hbook _ _] (_ & Hlist & Hpos)].
  split.
  - intros key Hkey. apply Hlist in Hkey as [record Hlook].
    exists record. split; [done|].
    destruct (book_wf h g Hbook key record Hlook) as [Hk Hne].
    set (a := Pair.bodyA record) in *. set (b := Pair.bodyB record) in *.
    assert (Hst : bothStatic h a b = false).
    { destruct (bothStatic h a b) eqn:Hst; [|done].
      rewrite Hk in Hlook.
      by rewrite (book_static h g Hbook a b Hst) in Hlook. }
    pose proof (book_count h g Hbook a b (conj Hne Hst)) as Hcount.
    unfold pairCount in Hcount. rewrite <- Hk, Hlook in Hcount.
    split; [by intros Heq; rewrite Heq in Hne|].
    split; [done|]. split; [done|]. split; [done|].
    apply sharedCells_bucket. apply Hpos in Hlook. lia.
  - intros a b Hst Hin. apply Hlist in Hin as [record Hlook].
    by rewrite (book_static h g Hbook a b Hst) in Hlook.
Qed.

(** The pair of the bodies [0] and [1] after the second update of the
    small world. *)
Lemma listed_pairs_share_a_bucket_witness :
  (1, 2) ∈ Grid.pairsList Demo.second.1
  ∧ ∃ record, Grid.pairs Demo.second.1 !! (1, 2) = Some record
      ∧ Pair.bodyA record ≠ Pair.bodyB record
      ∧ ∃ k, Pair.bodyA record ∈ bucketAt Demo.second.1 k
             ∧ Pair.bodyB record ∈ bucketAt Demo.second.1 k.
Proof.
  assert (Hin : (1, 2) ∈ Grid.pairsList Demo.second.1)
    by (apply (bool_decide_eq_true_1 _); vm_compute; reflexivity).
  split; [exact Hin|].
  destruct (listed_pairs_share_a_bucket 0 _ _ Demo_second_tracked)
    as [Hsound _].
  destruct (Hsound _ Hin) as (record & Hlook & Hne & _ & _ & _ & Hshare).
  exists record. split; [exact Hlook|]. split; [exact Hne|exact Hshare].
Defined.

(** ** The broadphase misses no overlap *)

(** X1. In normal operation, with positive cell sizes, an update that
    processes two different bodies, not both static, whose bounding boxes
    have a point in common, returns with the pair of the two bodies in
    the list of active pairs. *)
Theorem overlapping_bodies_are_listed (lo : Z) (g : Grid.t) (h : Heap)
    (bodies : list ref) (engine : Engine.t) (a b : ref) (px py : Q) :
  Tracked lo g h →
  (∀ x, x ∈ bodies → fits lo engine false g h x) →
  allRegistered engine g h bodies →
  (0 < Grid.bucketWidth g)%Q → (0 < Grid.bucketHeight g)%Q →
  a ∈ bodies → b ∈ bodies → a ≠ b →
  processed engine false (h a) = true →
  processed engine false (h b) = true →
  bothStatic h a b = false →
  covers (Body.bounds (h a)) px py → covers (Body.bounds (h b)) px py →
  ∃ g' h',
    Grid.update g h bodies engine false = Some (g', h')
    ∧ a ∈ bucketAt g' (cellId (cellAt g px py))
    ∧ b ∈ bucketAt g' (cellId (cellAt g px py))
    ∧ Pair.id (h a) (h b) ∈ Grid.pairsList g'.
Proof.
  intros Htracked Hfits Hreg Hw Hh Ha Hb Hab Hpa Hpb Hst Hca Hcb.
  pose proof (Tracked_consistent lo g h Htracked) as Hcons.
  destruct (update_ok lo engine false bodies g h Hcons Hfits Hreg)
    as (g' & h' & Hupd & Hcons' & Hsame & Hplaced & _).
  assert (Hin : ∀ x, x ∈ bodies → processed engine false (h x) = true →
                     covers (Body.bounds (h x)) px py →
                     x ∈ bucketAt g' (cellId (cellAt g px py))).
  { intros x Hx Hproc Hcov. destruct (Hplaced x Hx Hproc) as [Hr Hregd].
    apply Hregd. exists (regionOf g (h x)), (cellAt g px py).
    split; [done|]. split; [|done]. by apply point_inside_region. }
  exists g', h'. split; [done|].
  split; [by apply Hin|]. split; [by apply Hin|].
  destruct (Hsame a) as (Hida & Hsa & _), (Hsame b) as (Hidb & Hsb & _).
  replace (Pair.id (h a) (h b)) with (Pair.id (h' a) (h' b))
    by (unfold Pair.id; by rewrite Hida, Hidb).
  apply (shared_bucket_listed lo h' g' a b (cellId (cellAt g px py)));
    [done|done| |by apply Hin|by apply Hin].
  unfold bothStatic in *. by rewrite Hsa, Hsb.
Qed.

(** The bodies [0] and [1] of the small world both contain the point
    [(50, 20)]: the first update lists their pair. *)
Lemma overlapping_bodies_are_listed_witness :
  ∃ g' h',
    Grid.update Demo.grid Demo.heap [0%nat; 1%nat] Demo.engine false
    = Some (g', h')
    ∧ Pair.id (Demo.heap 0%nat) (Demo.heap 1%nat) ∈ Grid.pairsList g'.
Proof.
  assert (Hcreate : Tracked 0 Demo.grid Demo.heap)
    by (apply tracked_create;
        [exact Demo_uniqueIds|exact Demo_noRegion|exact Demo_sized]).
  destruct (overlapping_bodies_are_listed 0 Demo.grid Demo.heap
              [0%nat; 1%nat] Demo.engine 0%nat 1%nat (50 # 1) (20 # 1))
    as (g' & h' & Hupd & _ & _ & Hlisted).
  - exact Hcreate.
  - apply Demo_fits; apply Demo_rows; vm_compute; reflexivity.
  - apply Demo_unregistered; [exact Hcreate|exact Demo_noRegion].
  - reflexivity.
  - reflexivity.
  - apply elem_of_cons. by left.
  - apply elem_of_cons. right. apply elem_of_cons. by left.
  - lia.
  - vm_compute. reflexivity.
  - vm_compute. reflexivity.
  - reflexivity.
  - unfold covers. simpl. repeat split; unfold Qle; simpl; lia.
  - unfold covers. simpl. repeat split; unfold Qle; simpl; lia.
  - exists g', h'. split; [exact Hupd|exact Hlisted].
Defined.

(** ** Clearing and rebuilding *)

(** X2. [Grid.clear] followed by [Grid.update] with [forceUpdate], given each
    body once, rebuilds the grid in normal operation, where the regions
    have exact bucket ids (columns up to [maxColumn], rows in one window
    of the width of the stride): the update returns,
    every body it processes (asleep or not) is recorded in the region of
    its bounds and is in exactly the buckets of the cells of that region,
    every other body is in no bucket, and the state is one of normal
    operation again, so that the count of every pair is the number of
    cells that its bodies share. *)
Theorem clear_then_forced_update_rebuilds (lo : Z) (g : Grid.t) (h : Heap)
    (bodies : list ref) (engine : Engine.t) :
  Tracked lo g h → NoDup bodies →
  (∀ x, x ∈ bodies → fits lo engine true (Grid.clear g) h x) →
  ∃ g' h',
    Grid.update (Grid.clear g) h bodies engine true = Some (g', h')
    ∧ Tracked lo g' h'
    ∧ (∀ x, x ∈ bodies → Grid.outOfWorld (h x) (Engine.world engine) = false →
         Body.region (h' x) = Some (regionOf g (h x))
         ∧ ∀ k, x ∈ bucketAt g' k
                ↔ ∃ c, inside c (regionOf g (h x)) ∧ cellId c = k)
    ∧ (∀ x, (x ∈ bodies →
             Grid.outOfWorld (h x) (Engine.world engine) = true) →
         absent g' x)
    ∧ (∀ a b, a ≠ b → bothStatic h' a b = false →
         pairCount (Grid.pairs g') (Pair.id (h' a) (h' b))
         = Z.of_nat (sharedCells g' a b)).
Proof.
  intros Htracked Hnodup Hfits.
  pose proof (tracked_clear lo g h Htracked) as Hcleared.
  destruct (clear_consistent lo h g (Tracked_consistent lo g h Htracked))
    as [Hcons Habsent].
  assert (Hstart : allAbsent engine (Grid.clear g) h bodies)
    by (intros x _ _; apply Habsent).
  destruct (update_ok lo engine true bodies (Grid.clear g) h Hcons Hfits
              (conj Hnodup Hstart))
    as (g' & h' & Hupd & Hcons' & _ & Hplaced & Hun & _).
  assert (Htracked' : Tracked lo g' h')
    by (by eapply tracked_forced).
  assert (Hregion : ∀ x, regionOf (Grid.clear g) (h x) = regionOf g (h x)).
  { intros x. destruct (clear_spec g) as (_ & _ & _ & _ & Hw & Hh).
    unfold regionOf, Grid._getRegion. by rewrite Hw, Hh. }
  exists g', h'. split; [done|]. split; [done|]. split; [|split].
  - intros x Hx Hin. destruct (Hplaced x Hx) as [Hr Hregd].
    { unfold processed. by rewrite Hin, andb_false_r. }
    rewrite Hregion in Hr. split; [done|].
    intros k. rewrite (Hregd k). unfold occupies. rewrite Hr. split.
    + intros (r & c & [= <-] & Hc & Hk). by exists c.
    + intros (c & Hc & Hk). by exists (regionOf g (h x)), c.
  - intros x Hout k. destruct (Hun x) as [_ Hb].
    { intros Hx. unfold processed. rewrite (Hout Hx). apply andb_false_r. }
    rewrite Hb. apply Habsent.
  - intros a b Hab Hst.
    destruct Hcons' as [[Hids Hbook _ _] _].
    apply (book_count h' g' Hbook). split; [|done].
    intros Heq. by apply Hids in Heq.
Qed.

(** The small world, cleared and rebuilt. *)
Lemma clear_then_forced_update_rebuilds_witness :
  ∃ g' h',
    Grid.update (Grid.clear Demo.first.1) Demo.first.2 [0%nat; 1%nat]
      Demo.engine true = Some (g', h')
    ∧ Tracked 0 g' h'
    ∧ Body.region (h' 0%nat) = Some (Region.mk 0 2 0 0).
Proof.
  destruct (clear_then_forced_update_rebuilds 0 Demo.first.1 Demo.first.2
              [0%nat; 1%nat] Demo.engine)
    as (g' & h' & Hupd & Htracked & Hplaced & _).
  - exact Demo_first_tracked.
  - apply NoDup_cons. split; [|apply NoDup_singleton].
    intros Hin. apply list_elem_of_singleton in Hin. lia.
  - intros body Hin _.
    apply elem_of_cons in Hin as [->|Hin];
      [apply Demo_rows; vm_compute; reflexivity|].
    apply list_elem_of_singleton in Hin as ->.
    apply Demo_rows; vm_compute; reflexivity.
  - exists g', h'. split; [exact Hupd|]. split; [exact Htracked|].
    destruct (Hplaced 0%nat) as [Hregion _].
    + apply elem_of_cons. by left.
    + vm_compute. reflexivity.
    + rewrite Hregion. vm_compute. reflexivity.
Defined.

(** ** Updates that change nothing, and what an update writes *)

Section Idle.

Variable engine : Engine.t.

Implicit Types (g : Grid.t) (h : Heap) (bodies : list ref).

(** The loop over bodies that are all skipped. *)
Lemma updateBodies_skipped (forceUpdate : bool) bodies g h (ch : bool) :
  (∀ x, x ∈ bodies → processed engine forceUpdate (h x) = false) →
  forM (Grid.updateBody engine forceUpdate) (g, h, ch) bodies
  = Some (g, h, ch).
Proof.
  induction bodies as [|body bodies IH]; intros Hskip; [done|].
  cbn [forM]. rewrite updateBody_eq.
  rewrite (Hskip body) by (apply elem_of_cons; by left). cbn [negb].
  apply IH. intros x Hx. apply Hskip. apply elem_of_cons. by right.
Qed.

End Idle.

(** X13. An update without [forceUpdate] in which every body that is processed
    is recorded in the region of its current bounds (it has not moved, or
    it has moved inside its cells) returns with the bodies, the buckets,
    the pool, the pair table and the list of active pairs as they were.
    An update, forced or not, in which every body is skipped (asleep and
    not forced, or outside the world) returns the grid exactly as it
    was. *)
Theorem update_idle (g : Grid.t) (h : Heap) (bodies : list ref)
    (engine : Engine.t) :
  ((∀ x, x ∈ bodies → processed engine false (h x) = true →
         Body.region (h x) = Some (regionOf g (h x))) →
   ∃ g', Grid.update g h bodies engine false = Some (g', h)
     ∧ Grid.buckets g' = Grid.buckets g
     ∧ Grid.freeBuckets g' = Grid.freeBuckets g
     ∧ Grid.pairs g' = Grid.pairs g
     ∧ Grid.pairsList g' = Grid.pairsList g)
  ∧ (∀ forceUpdate : bool,
       (∀ x, x ∈ bodies → processed engine forceUpdate (h x) = false) →
       Grid.update g h bodies engine forceUpdate = Some (g, h)).
Proof.
  split.
  - intros Hsame.
    destruct (updateBodies_idle engine bodies g h false Hsame)
      as (g' & Hloop & Hb & Hf & Hp & Hl & _).
    exists g'. split; [|done].
    unfold Grid.update, Grid.updateBodies. by rewrite Hloop.
  - intros forceUpdate Hskip.
    unfold Grid.update, Grid.updateBodies.
    by rewrite updateBodies_skipped.
Qed.

(** Body [0] of the small world moves inside its cells; body [2] is
    outside the world. *)
Lemma update_idle_witness :
  (∃ g', Grid.update Demo.first.1 Scene.jitter [0%nat; 1%nat]
           Demo.engine false = Some (g', Scene.jitter)
     ∧ Grid.buckets g' = Grid.buckets Demo.first.1)
  ∧ Grid.update Demo.first.1 Demo.first.2 [2%nat] Demo.engine false
    = Some (Demo.first.1, Demo.first.2).
Proof.
  split.
  - destruct (update_idle Demo.first.1 Scene.jitter [0%nat; 1%nat]
                Demo.engine) as [Hidle _].
    destruct Hidle as (g' & Hupd & Hb & _).
    + intros x Hx _.
      apply elem_of_cons in Hx as [->|Hx]; [vm_compute; reflexivity|].
      apply list_elem_of_singleton in Hx as ->. vm_compute. reflexivity.
    + exists g'. split; [exact Hupd|exact Hb].
  - destruct (update_idle Demo.first.1 Demo.first.2 [2%nat] Demo.engine)
      as [_ Hskip].
    apply Hskip. intros x Hx. apply list_elem_of_singleton in Hx as ->.
    vm_compute. reflexivity.
Defined.

(** X14. [Grid.update], forced or not and in any state of the grid, writes
    nothing to a body but its [region] slot: ids, static and sleeping
    flags and bounds are as before; a body that is not in the list, or
    that is skipped, is not written at all; the region of a body that is
    processed becomes the region of its bounds.  The cell sizes of the
    grid do not change. *)
Theorem update_writes_only_regions (g : Grid.t) (h : Heap)
    (bodies : list ref) (engine : Engine.t) (forceUpdate : bool)
    (g' : Grid.t) (h' : Heap) :
  Grid.update g h bodies engine forceUpdate = Some (g', h') →
  (∀ x, sameBody (h x) (h' x))
  ∧ (∀ x, x ∉ bodies → h' x = h x)
  ∧ (∀ x, processed engine forceUpdate (h x) = false → h' x = h x)
  ∧ (∀ x, x ∈ bodies → processed engine forceUpdate (h x) = true →
          Body.region (h' x) = Some (regionOf g (h x)))
  ∧ Grid.bucketWidth g' = Grid.bucketWidth g
  ∧ Grid.bucketHeight g' = Grid.bucketHeight g.
Proof.
  intros Hupd.
  apply update_any in Hupd as (_ & _ & Hsame & Hun & Hregion & Hw & Hh).
  split; [done|]. split; [|split; [|done]].
  - intros x Hx. by destruct (Hun x) as [Heq _]; [intros ?|].
  - intros x Hx. by destruct (Hun x) as [Heq _]; [intros _|].
Qed.

(** The second update of the small world. *)
Lemma update_writes_only_regions_witness :
  Body.bounds (Demo.second.2 0%nat) = RegionSpec.box 50 0 100 40
  ∧ Body.region (Demo.second.2 0%nat) = Some (Region.mk 1 2 0 0)
  ∧ Demo.second.2 2%nat = Demo.first.2 2%nat.
Proof.
  destruct (update_writes_only_regions _ _ _ _ _ _ _ Demo_second_eq)
    as (Hsame & Hout & _ & Hregion & _).
  split; [|split].
  - destruct (Hsame 0%nat) as (_ & _ & _ & ->). reflexivity.
  - rewrite Hregion.
    + vm_compute. reflexivity.
    + apply elem_of_cons. by left.
    + vm_compute. reflexivity.
  - rewrite Hout.
    + reflexivity.
    + intros Hin. apply elem_of_cons in Hin as [Hin|Hin]; [lia|].
      apply list_elem_of_singleton in Hin. lia.
Defined.

(** ** An update that throws *)

Section Throws.

Implicit Types (g : Grid.t) (h : Heap) (body : ref).

(** One turn of the loops over the cells changes no bucket but the one of
    its cell. *)
Lemma updateCell_other_keys h body (forceUpdate createRegion : bool)
    (newRegion bodyRegion : Region.t) g cell g' :
  Grid.updateCell h body forceUpdate createRegion newRegion bodyRegion g cell
    = Some g' →
  ∀ k, k ≠ cellId cell → Grid.buckets g' !! k = Grid.buckets g !! k.
Proof.
  destruct cell as [col row]. unfold Grid.updateCell, cellId. cbn [fst snd].
  set (id := Grid._getBucketId col row).
  set (rm := negb (Grid.isInside col row newRegion)
             && Grid.isInside col row bodyRegion).
  set (ad := createRegion
             || Grid.isInside col row newRegion
                && negb (Grid.isInside col row bodyRegion)
             || forceUpdate).
  clearbody rm ad.
  assert (Hremove : ∀ g1,
    (if rm then
       match Grid.buckets g !! id with
       | Some bucket => Grid._bucketRemoveBody h g id bucket body
       | None => Some g
       end
     else Some g) = Some g1 →
    ∀ k, k ≠ id → Grid.buckets g1 !! k = Grid.buckets g !! k).
  { intros g1. destruct rm; [|by intros [= <-]].
    destruct (Grid.buckets g !! id) as [bucket|]; [|by intros [= <-]].
    unfold Grid._bucketRemoveBody.
    destruct (Grid.swapRemove _ _) as [bucket'|]; [|done].
    intros [= <-] k Hk. cbn. by rewrite lookup_insert_ne. }
  destruct (if rm then _ else _) as [g1|]; [|done].
  specialize (Hremove g1 eq_refl).
  destruct ad; [|intros [= <-]; done].
  destruct (Grid.buckets g1 !! id) as [bucket|] eqn:Hk1.
  - intros [= <-] k Hk. cbn. rewrite lookup_insert_ne by done. by apply Hremove.
  - unfold Grid._createBucket.
    destruct (reverse (Grid.freeBuckets g1)) as [|popped rest];
      intros [= <-] k Hk; cbn; rewrite !lookup_insert_ne by done;
      by apply Hremove.
Qed.

(** The loops over the cells throw when the body has to be removed from
    a cell whose bucket is empty. *)
Lemma updateCells_throw h body (forceUpdate createRegion : bool)
    (newRegion bodyRegion : Region.t) (cs : list (Z * Z)) g c :
  NoDup (cellId <$> cs) → c ∈ cs →
  removes newRegion bodyRegion c = true →
  Grid.buckets g !! cellId c = Some [] →
  forM (Grid.updateCell h body forceUpdate createRegion newRegion bodyRegion)
       g cs = None.
Proof.
  revert g. induction cs as [|c0 cs IH]; intros g Hnodup Hin Hrem Hempty.
  - by apply elem_of_nil in Hin.
  - rewrite fmap_cons in Hnodup. apply NoDup_cons in Hnodup as [Hfresh Hnodup].
    cbn [forM]. apply elem_of_cons in Hin as [<-|Hin].
    + assert (Hstep : Grid.updateCell h body forceUpdate createRegion
                        newRegion bodyRegion g c = None); [|by rewrite Hstep].
      destruct c as [col row]. unfold Grid.updateCell.
      unfold removes, cellId in Hrem, Hempty. cbn [fst snd] in Hrem, Hempty.
      by rewrite Hrem, Hempty.
    + destruct (Grid.updateCell h body forceUpdate createRegion newRegion
                  bodyRegion g c0) as [g1|] eqn:Hstep; [|done].
      apply IH; [done..|].
      rewrite (updateCell_other_keys _ _ _ _ _ _ _ _ _ Hstep); [done|].
      intros Heq. apply Hfresh. rewrite <- Heq.
      apply list_elem_of_fmap. by exists c.
Qed.

Lemma Demo_move_id h (b x : ref) bounds :
  Body.id (Demo.move h b bounds x) = Body.id (h x).
Proof. unfold Demo.move. by case_decide. Qed.

End Throws.

(** X6. [Grid.update] without [forceUpdate] throws when the first body it
    processes has left a cell of its recorded region whose bucket is
    registered and empty: [Grid._bucketRemoveBody] is called on the empty
    array.  (The rows of both regions lie in one window of the width of
    the stride.) *)
Theorem update_throws_on_empty_bucket (lo : Z) (g : Grid.t) (h : Heap)
    (body : ref) (bodies : list ref) (engine : Engine.t)
    (r : Region.t) (c : Z * Z) :
  processed engine false (h body) = true →
  Body.region (h body) = Some r →
  rowsWithin lo r → rowsWithin lo (regionOf g (h body)) →
  inside c r → ¬ inside c (regionOf g (h body)) →
  Grid.buckets g !! cellId c = Some [] →
  Grid.update g h (body :: bodies) engine false = None.
Proof.
  intros Hproc Hregion Hrows Hrows' Hold Hnew Hempty.
  unfold Grid.update, Grid.updateBodies. cbn [forM].
  rewrite updateBody_eq. rewrite Hproc. cbn [negb]. cbv zeta.
  rewrite Hregion.
  assert (Hchanged : regionChanged false (Some r) (regionOf g (h body))
                     = true).
  { unfold regionChanged.
    destruct (Grid._isSameRegion (Some r) (Some (regionOf g (h body))))
      eqn:Hsame; [|by rewrite orb_true_r].
    apply isSameRegion_eq in Hsame. by rewrite <- Hsame in Hnew. }
  rewrite Hchanged.
  rewrite (updateCells_throw _ _ _ _ _ _ _ _ c); [done| | | |done].
  - apply (NoDup_cellIds lo). by apply regionUnion_rows.
  - apply elem_of_cells. by apply inside_regionUnion_r.
  - change (default (regionOf g (h body)) (Some r)) with r. unfold removes.
    unfold inside in Hold, Hnew. rewrite Hold.
    by destruct (Grid.isInside c.1 c.2 (regionOf g (h body))).
Qed.

(** Body [0] is registered in the cell [(0, 0)]; the grid is cleared and
    body [1] is registered in that cell without [forceUpdate] and then
    moves away; when body [0] moves away too, the update throws. *)
Lemma update_throws_on_empty_bucket_witness :
  Reachable Scene.emptied.1 Scene.moved
  ∧ Grid.update Scene.emptied.1 Scene.moved [0%nat] Demo.engine false = None.
Proof.
  split.
  - eapply reach_external; [|intros x; apply Demo_move_id].
    eapply reach_update;
      [|apply Demo_result_eq; vm_compute; reflexivity].
    eapply reach_external; [|intros x; apply Demo_move_id].
    eapply reach_update;
      [|apply Demo_result_eq; vm_compute; reflexivity].
    apply reach_clear.
    eapply reach_update;
      [|apply Demo_result_eq; vm_compute; reflexivity].
    apply reach_create.
  - apply (update_throws_on_empty_bucket 0 _ _ _ _ _
             (Region.mk 0 0 0 0) (0, 0)).
    + vm_compute. reflexivity.
    + vm_compute. reflexivity.
    + apply Demo_rows. vm_compute. reflexivity.
    + apply Demo_rows. vm_compute. reflexivity.
    + reflexivity.
    + intros Hin. vm_compute in Hin. discriminate.
    + vm_compute. reflexivity.
Defined.

(** ** New buckets *)

(** X12. In every state that a use of the grid reaches, the pooled arrays are
    empty, so the bucket that [Grid._createBucket] registers, popped or
    allocated, is empty: a recycled bucket brings no body of an earlier
    frame with it. *)
Theorem new_buckets_are_empty (g : Grid.t) (h : Heap) :
  Reachable g h →
  (∀ bucket, bucket ∈ Grid.freeBuckets g → bucket = [])
  ∧ ∀ k, (Grid._createBucket g k).2 = []
         ∧ Grid.buckets (Grid._createBucket g k).1 !! k = Some [].
Proof.
  intros Hreach. destruct (Reachable_inv g h Hreach) as [_ Hpool].
  split; [done|]. intros k.
  assert (Hnew : (Grid._createBucket g k).2 = []).
  { unfold Grid._createBucket.
    destruct (reverse (Grid.freeBuckets g)) as [|popped rest] eqn:Hrev;
      [done|]. cbn. apply Hpool.
    rewrite <- (reverse_involutive (Grid.freeBuckets g)), Hrev.
    rewrite reverse_cons, elem_of_app, list_elem_of_singleton. by right. }
  split; [done|]. by rewrite createBucket_registers, Hnew.
Qed.

(** The grid of the small world after [Grid.clear]: three pooled arrays,
    and a new bucket is empty. *)
Lemma new_buckets_are_empty_witness :
  length (Grid.freeBuckets (Grid.clear Demo.first.1)) = 3%nat
  ∧ (Grid._createBucket (Grid.clear Demo.first.1) 5).2 = [].
Proof.
  split; [vm_compute; reflexivity|].
  destruct (new_buckets_are_empty (Grid.clear Demo.first.1) Demo.first.2)
    as [_ Hnew].
  - apply reach_clear.
    eapply reach_update; [apply reach_create|exact Demo_first_eq].
  - apply Hnew.
Defined.

(** ** The order of the bodies *)

Section Order.

Implicit Types (g : Grid.t) (h : Heap) (a b : ref).

(** The number of shared cells depends on the membership in the buckets
    only. *)
Lemma sharedCells_membership g1 g2 a b :
  (∀ x k, x ∈ bucketAt g1 k ↔ x ∈ bucketAt g2 k) →
  sharedCells g1 a b = sharedCells g2 a b.
Proof.
  intros Hsame. unfold sharedCells, sharedIn.
  rewrite <- !(size_dom (D := gset Z)). f_equal.
  apply set_eq. intros k. rewrite !elem_of_dom.
  assert (Hdom : ∀ g, is_Some (filter (λ e : Z * list ref, both a b e.2)
                                 (Grid.buckets g) !! k)
                      ↔ both a b (bucketAt g k)).
  { intros g. unfold bucketAt. split.
    - intros [bucket Hlook].
      apply map_lookup_filter_Some in Hlook as [Hlook Hboth].
      by rewrite Hlook.
    - intros [Ha Hb].
      destruct (Grid.buckets g !! k) as [bucket|] eqn:Hlook;
        [|by apply not_elem_of_nil in Ha].
      exists bucket. by apply map_lookup_filter_Some. }
  rewrite !Hdom. unfold both. by rewrite !Hsame.
Qed.

(** Two consistent states with the same bodies and the same membership in
    the buckets: a record of the one has the count that the other state
    gives to its key. *)
Lemma pairCount_membership (lo : Z) h1 h2 g1 g2 key record :
  Consistent lo h1 g1 → Consistent lo h2 g2 →
  (∀ x, h2 x = h1 x) →
  (∀ x k, x ∈ bucketAt g1 k ↔ x ∈ bucketAt g2 k) →
  Grid.pairs g1 !! key = Some record →
  pairCount (Grid.pairs g1) key = pairCount (Grid.pairs g2) key.
Proof.
  intros [[_ Hbook1 _ _] _] [[_ Hbook2 _ _] _] Hheap Hsame Hlook.
  destruct (book_wf h1 g1 Hbook1 key record Hlook) as [Hkey Hne].
  set (a := Pair.bodyA record) in *. set (b := Pair.bodyB record) in *.
  assert (Hst : bothStatic h1 a b = false).
  { destruct (bothStatic h1 a b) eqn:Hst; [|done].
    rewrite Hkey in Hlook.
    by rewrite (book_static h1 g1 Hbook1 a b Hst) in Hlook. }
  rewrite Hkey at 1.
  rewrite (book_count h1 g1 Hbook1 a b (conj Hne Hst)).
  rewrite (sharedCells_membership g1 g2 a b Hsame).
  rewrite <- (book_count h2 g2 Hbook2 a b).
  - by rewrite Hkey, !Hheap.
  - unfold counted, bothStatic. by rewrite !Hheap.
Qed.

End Order.

(** X3. In normal operation the result of an update without [forceUpdate]
    does not depend on the order in which the bodies are given, up to the
    order of the arrays: both updates return, with the same bodies, the
    same members in every bucket, the same count under every key and the
    same active pairs. *)
Theorem update_order_irrelevant (lo : Z) (g : Grid.t) (h : Heap)
    (bodies bodies' : list ref) (engine : Engine.t) :
  Tracked lo g h → bodies ≡ₚ bodies' →
  (∀ x, x ∈ bodies → fits lo engine false g h x) →
  allRegistered engine g h bodies →
  ∃ g1 h1 g2 h2,
    Grid.update g h bodies engine false = Some (g1, h1)
    ∧ Grid.update g h bodies' engine false = Some (g2, h2)
    ∧ (∀ x, h2 x = h1 x)
    ∧ (∀ x k, x ∈ bucketAt g1 k ↔ x ∈ bucketAt g2 k)
    ∧ (∀ key, pairCount (Grid.pairs g1) key = pairCount (Grid.pairs g2) key)
    ∧ Grid.pairsList g1 ≡ₚ Grid.pairsList g2.
Proof.
  intros Htracked Hperm Hfits Hreg.
  pose proof (Tracked_consistent lo g h Htracked) as Hcons.
  assert (Hfits' : ∀ x, x ∈ bodies' → fits lo engine false g h x)
    by (intros x Hx; apply Hfits; by rewrite Hperm).
  assert (Hreg' : allRegistered engine g h bodies')
    by (intros x Hx; apply Hreg; by rewrite Hperm).
  destruct (update_ok lo engine false bodies g h Hcons Hfits Hreg)
    as (g1 & h1 & Hupd1 & Hcons1 & Hsame1 & Hplaced1 & Hun1 & _).
  destruct (update_ok lo engine false bodies' g h Hcons Hfits' Hreg')
    as (g2 & h2 & Hupd2 & Hcons2 & Hsame2 & Hplaced2 & Hun2 & _).
  exists g1, h1, g2, h2. split; [done|]. split; [done|].
  assert (Hcases : ∀ x,
    (x ∈ bodies ∧ processed engine false (h x) = true)
    ∨ untouched engine false h bodies x).
  { intros x. destruct (processed engine false (h x)) eqn:Hproc.
    - destruct (decide (x ∈ bodies)); [by left|right]. by intros ?.
    - right. by intros _. }
  assert (Hheap : ∀ x, h2 x = h1 x).
  { intros x. destruct (Hcases x) as [[Hx Hproc]|Hun].
    - destruct (Hplaced1 x Hx Hproc) as [Hr1 _].
      destruct (Hplaced2 x) as [Hr2 _]; [by rewrite <- Hperm|done|].
      destruct (Hsame1 x) as (Hi1 & Hs1 & Hz1 & Hb1).
      destruct (Hsame2 x) as (Hi2 & Hs2 & Hz2 & Hb2).
      destruct (h1 x), (h2 x). cbn in *. congruence.
    - destruct (Hun1 x Hun) as [-> _].
      destruct (Hun2 x) as [-> _]; [|done].
      intros Hx. apply Hun. by rewrite Hperm. }
  assert (Hmembers : ∀ x k, x ∈ bucketAt g1 k ↔ x ∈ bucketAt g2 k).
  { intros x k. destruct (Hcases x) as [[Hx Hproc]|Hun].
    - destruct (Hplaced1 x Hx Hproc) as [Hr1 Hregd1].
      destruct (Hplaced2 x) as [Hr2 Hregd2]; [by rewrite <- Hperm|done|].
      rewrite (Hregd1 k), (Hregd2 k). unfold occupies. by rewrite Hr1, Hr2.
    - destruct (Hun1 x Hun) as [_ ->].
      destruct (Hun2 x) as [_ ->]; [|done].
      intros Hx. apply Hun. by rewrite Hperm. }
  assert (Hcounts : ∀ key,
    pairCount (Grid.pairs g1) key = pairCount (Grid.pairs g2) key).
  { intros key.
    destruct (Grid.pairs g1 !! key) as [record1|] eqn:Hlook1.
    - by apply (pairCount_membership lo h1 h2 g1 g2 key record1).
    - destruct (Grid.pairs g2 !! key) as [record2|] eqn:Hlook2.
      + symmetry.
        apply (pairCount_membership lo h2 h1 g2 g1 key record2);
          [done|done| | |done].
        * intros x. by rewrite Hheap.
        * intros x k. by rewrite Hmembers.
      + unfold pairCount. by rewrite Hlook1, Hlook2. }
  split; [done|]. split; [done|]. split; [done|].
  destruct Hcons1 as [_ (Hnd1 & Hl1 & Hpos1)].
  destruct Hcons2 as [_ (Hnd2 & Hl2 & Hpos2)].
  apply NoDup_Permutation; [done..|].
  intros key. rewrite Hl1, Hl2.
  pose proof (Hcounts key) as Hcount. unfold pairCount in Hcount.
  destruct (Grid.pairs g1 !! key) as [record1|] eqn:Hlook1,
           (Grid.pairs g2 !! key) as [record2|] eqn:Hlook2;
    try (split; by eauto).
  - apply Hpos1 in Hlook1. lia.
  - apply Hpos2 in Hlook2. lia.
Qed.

(** The first update of the small world, with the bodies in either
    order. *)
Lemma update_order_irrelevant_witness :
  ∃ g1 g2 h1 h2,
    Grid.update Demo.grid Demo.heap [0%nat; 1%nat] Demo.engine false
    = Some (g1, h1)
    ∧ Grid.update Demo.grid Demo.heap [1%nat; 0%nat] Demo.engine false
      = Some (g2, h2)
    ∧ Grid.pairsList g1 ≡ₚ Grid.pairsList g2.
Proof.
  assert (Hcreate : Tracked 0 Demo.grid Demo.heap)
    by (apply tracked_create;
        [exact Demo_uniqueIds|exact Demo_noRegion|exact Demo_sized]).
  destruct (update_order_irrelevant 0 Demo.grid Demo.heap
              [0%nat; 1%nat] [1%nat; 0%nat] Demo.engine)
    as (g1 & h1 & g2 & h2 & Hupd1 & Hupd2 & _ & _ & _ & Hlist).
  - exact Hcreate.
  - apply perm_swap.
  - apply Demo_fits; apply Demo_rows; vm_compute; reflexivity.
  - apply Demo_unregistered; [exact Hcreate|exact Demo_noRegion].
  - exists g1, g2, h1, h2.
    split; [exact Hupd1|]. split; [exact Hupd2|exact Hlist].
Defined.

(** ** The list of active pairs at rest *)

(** X4. In every state that a use of the grid reaches (forced updates of
    bodies that are in their buckets and updates after [Grid.clear] of
    bodies that kept their region included), the list of active pairs and
    the pair table agree between two calls: the list names every record
    of the table once, and every record has a positive count. *)
Theorem pairs_list_matches_table (g : Grid.t) (h : Heap) :
  Reachable g h →
  NoDup (Grid.pairsList g)
  ∧ (∀ key, key ∈ Grid.pairsList g ↔ is_Some (Grid.pairs g !! key))
  ∧ (∀ key record, Grid.pairs g !! key = Some record →
       0 < Pair.count record).
Proof.
  intros Hreach. change (Synced g).
  induction Hreach as [options h|g h h' _ IH _|
                       g h bodies engine forceUpdate g' h' _ IH Hupd|
                       g h _ IH].
  - split; [apply NoDup_nil_2|]. split; [|done].
    intros key. split; [by intros ?%elem_of_nil|].
    intros [record Hlook]. unfold Grid.create in Hlook.
    cbn [Grid.pairs] in Hlook. by rewrite lookup_empty in Hlook.
  - done.
  - unfold Grid.update, Grid.updateBodies in Hupd.
    destruct (forM _ _ _) as [[[g1 h1] ch]|] eqn:Hloop; [|done].
    injection Hupd as <- <-.
    apply updateBodies_any in Hloop as (_ & _ & _ & [->|(-> & Hquiet & _)]).
    + apply createActivePairsList_synced.
    + destruct Hquiet as (_ & _ & Hp & Hl & _).
      unfold Synced. by rewrite Hp, Hl.
  - destruct (clear_spec g) as (_ & _ & Hp & Hl & _).
    unfold Synced. rewrite Hp, Hl.
    split; [apply NoDup_nil_2|]. split; [|done].
    intros key. split; [by intros ?%elem_of_nil|].
    intros [record Hlook]. by rewrite lookup_empty in Hlook.
Qed.

(** The small world after the forced update that put body [0] into its
    buckets twice: the pair of the bodies [0] and [1] is listed once, with
    the count [6]. *)
Lemma pairs_list_matches_table_witness :
  Grid.pairs Demo.forced.1 !! (1, 2)
  = Some {| Pair.bodyA := 1%nat; Pair.bodyB := 0%nat; Pair.count := 6 |}
  ∧ (1, 2) ∈ Grid.pairsList Demo.forced.1
  ∧ NoDup (Grid.pairsList Demo.forced.1).
Proof.
  assert (Hlook : Grid.pairs Demo.forced.1 !! (1, 2)
    = Some {| Pair.bodyA := 1%nat; Pair.bodyB := 0%nat; Pair.count := 6 |})
    by (vm_compute; reflexivity).
  destruct (pairs_list_matches_table Demo.forced.1 Demo.forced.2)
    as (Hnodup & Hlist & _).
  - eapply reach_update; [|exact Demo_forced_eq].
    eapply reach_update; [|exact Demo_first_eq]. apply reach_create.
  - split; [exact Hlook|]. split; [|exact Hnodup].
    apply Hlist. eexists. exact Hlook.
Defined.

(** ** Updates with [forceUpdate] *)

Section Forced.

Variable engine : Engine.t.

Implicit Types (g : Grid.t) (h : Heap) (body : ref) (bodies : list ref).

Lemma createBucket_buckets g (k : Z) :
  Grid.buckets (Grid._createBucket g k).1
  = <[k := (Grid._createBucket g k).2]> (Grid.buckets g).
Proof.
  unfold Grid._createBucket.
  by destruct (reverse (Grid.freeBuckets g)).
Qed.





End Forced.


(** ** The buckets that an update rewrites *)

Section Frame.

Variable engine : Engine.t.

Implicit Types (g : Grid.t) (h : Heap) (body : ref) (bodies : list ref).

Lemma updateCells_untouched h body (forceUpdate createRegion : bool)
    (newRegion bodyRegion : Region.t) (cs : list (Z * Z)) g g' (k : Z) :
  forM (Grid.updateCell h body forceUpdate createRegion newRegion bodyRegion)
       g cs = Some g' →
  (∀ c, c ∈ cs → cellId c = k →
        removes newRegion bodyRegion c = false
        ∧ adds forceUpdate createRegion newRegion bodyRegion c = false) →
  Grid.buckets g' !! k = Grid.buckets g !! k.
Proof.
  revert g. induction cs as [|c cs IH]; intros g; cbn [forM].
  - by intros [= <-].
  - destruct (Grid.updateCell h body forceUpdate createRegion newRegion
                bodyRegion g c) as [g1|] eqn:Hstep; [|done].
    intros Hrest Hcond. rewrite (IH g1 Hrest).
    2: { intros c' Hc'. apply Hcond. apply elem_of_cons. by right. }
    destruct (decide (cellId c = k)) as [Hk|Hk].
    + destruct (Hcond c) as [Hrm Had]; [apply elem_of_cons; by left|done|].
      destruct c as [col row]. unfold Grid.updateCell in Hstep.
      unfold removes, adds in Hrm, Had. cbn [fst snd] in Hrm, Had.
      rewrite Hrm, Had in Hstep. by injection Hstep as <-.
    + by apply (updateCell_other_keys _ _ _ _ _ _ _ _ _ Hstep).
Qed.

Lemma updateBody_untouched g h (ch : bool) body g' h' ch' (k : Z) :
  Grid.updateBody engine false (g, h, ch) body = Some (g', h', ch') →
  (processed engine false (h body) = true → stays g h k body) →
  Grid.buckets g' !! k = Grid.buckets g !! k.
Proof.
  rewrite updateBody_eq.
  destruct (processed engine false (h body)); cbn [negb];
    [|by intros [= <- _ _]].
  cbv zeta. intros Hturn Hstays. specialize (Hstays eq_refl).
  destruct (regionChanged false _ _); [|by injection Hturn as <- _ _].
  destruct (forM _ _ _) as [g2|] eqn:Hcells; [|done].
  injection Hturn as <- _ _.
  rewrite (updateCells_untouched _ _ _ _ _ _ _ _ _ k Hcells); [done|].
  intros c Hc Hk. specialize (Hstays c Hk).
  apply elem_of_cells in Hc.
  unfold removes, adds.
  destruct (Body.region (h body)) as [r|] eqn:Hregion.
  - change (default (regionOf g (h body)) (Some r)) with r.
    unfold inside in Hstays.
    destruct (Grid.isInside c.1 c.2 (regionOf g (h body))),
             (Grid.isInside c.1 c.2 r); cbn; try done.
    + by destruct Hstays as [Hs _]; specialize (Hs eq_refl).
    + by destruct Hstays as [_ Hs]; specialize (Hs eq_refl).
  - by destruct Hstays.
Qed.

Lemma updateBodies_untouched bodies g h (ch : bool) g' h' ch' (k : Z) :
  forM (Grid.updateBody engine false) (g, h, ch) bodies
    = Some (g', h', ch') →
  (∀ x, x ∈ bodies → processed engine false (h x) = true → stays g h k x) →
  Grid.buckets g' !! k = Grid.buckets g !! k.
Proof.
  revert g h ch. induction bodies as [|body bodies IH]; intros g h ch.
  - by intros [= <- _ _].
  - cbn [forM].
    destruct (Grid.updateBody engine false (g, h, ch) body)
      as [[[g1 h1] ch1]|] eqn:Hbody; [|done].
    intros Hrest Hstays.
    rewrite (IH g1 h1 ch1 Hrest).
    + apply (updateBody_untouched g h ch body g1 h1 ch1); [done|].
      apply Hstays. apply elem_of_cons. by left.
    + apply updateBody_any in Hbody
        as ((_ & Hw & Hh & _ & _ & Hsame) & Hothers & _ & Hturn & _).
      intros x Hx Hproc.
      rewrite (processed_ext engine false (h x) (h1 x) (Hsame x)) in Hproc.
      assert (Hregion : regionOf g1 (h1 x) = regionOf g (h x)).
      { apply regionOf_ext; [done..|]. by destruct (Hsame x) as (_ & _ & _ & ?). }
      intros c Hc. rewrite Hregion.
      destruct (decide (x = body)) as [->|Hne].
      * rewrite Hproc in Hturn. by rewrite Hturn.
      * rewrite (Hothers x Hne).
        apply (Hstays x); [apply elem_of_cons; by right|done..].
Qed.

End Frame.

(** X21. [Grid.update] without [forceUpdate], in any state of the grid,
    rewrites the bucket of a cell only when a body that it processes
    enters or leaves the cell: the array under a bucket id whose cells no
    processed body enters or leaves is the array it was, with its
    elements in the same order. *)
Theorem update_rewrites_only_changed_cells (g : Grid.t) (h : Heap)
    (bodies : list ref) (engine : Engine.t) (g' : Grid.t) (h' : Heap)
    (k : Z) :
  Grid.update g h bodies engine false = Some (g', h') →
  (∀ x, x ∈ bodies → processed engine false (h x) = true → stays g h k x) →
  Grid.buckets g' !! k = Grid.buckets g !! k.
Proof.
  unfold Grid.update, Grid.updateBodies.
  destruct (forM _ _ _) as [[[g1 h1] ch1]|] eqn:Hloop; [|done].
  intros [= <- _] Hstays.
  rewrite <- (updateBodies_untouched engine bodies g h false g1 h1 ch1 k
                Hloop Hstays).
  destruct ch1; [|done].
  destruct (createActivePairsList_spec g1) as (_ & _ & Hb & _).
  by rewrite Hb.
Qed.

(** In the second update of the small world body [0] leaves the cell
    [(0, 0)] and stays in the cell [(1, 0)], whose bucket is not
    rewritten. *)
Lemma update_rewrites_only_changed_cells_witness :
  Grid.buckets Demo.second.1 !! 1000000000
  = Grid.buckets Demo.first.1 !! 1000000000.
Proof.
  apply (update_rewrites_only_changed_cells _ _ _ _ _ _ _ Demo_second_eq).
  intros x Hx _ c Hc.
  assert (Hnew0 : regionOf Demo.first.1
                    (Demo.move Demo.first.2 0%nat
                       (RegionSpec.box 50 0 100 40) 0%nat)
                  = Region.mk 1 2 0 0) by (vm_compute; reflexivity).
  assert (Hnew1 : regionOf Demo.first.1
                    (Demo.move Demo.first.2 0%nat
                       (RegionSpec.box 50 0 100 40) 1%nat)
                  = Region.mk 0 2 0 0) by (vm_compute; reflexivity).
  assert (Hold0 : Body.region
                    (Demo.move Demo.first.2 0%nat
                       (RegionSpec.box 50 0 100 40) 0%nat)
                  = Some (Region.mk 0 2 0 0)) by (vm_compute; reflexivity).
  assert (Hold1 : Body.region
                    (Demo.move Demo.first.2 0%nat
                       (RegionSpec.box 50 0 100 40) 1%nat)
                  = Some (Region.mk 0 2 0 0)) by (vm_compute; reflexivity).
  destruct c as [col row]. unfold cellId in Hc. cbn [fst snd] in Hc.
  assert (Hexact : Z.abs col <= maxColumn → Z.abs row < stride →
                   col * stride + row = 1000000000)
    by (intros Hcol Hrow; by rewrite <- getBucketId_exact).
  unfold maxColumn, stride in Hexact.
  apply elem_of_cons in Hx as [->|Hx].
  - rewrite Hold0, Hnew0. rewrite !inside_spec. simpl. lia.
  - apply list_elem_of_singleton in Hx as ->.
    rewrite Hold1, Hnew1. rewrite !inside_spec. simpl. lia.
Defined.

(** ** Buckets without repetition *)

Section Orderly.

Variable lo : Z.

Implicit Types (g : Grid.t) (h : Heap) (body : ref) (bucket : list ref).

(** What [Grid._bucketRemoveBody] leaves of an array without repetition
    has no repetition and does not hold the body, whether the body was in
    the array or not. *)
Lemma swapRemove_nodup bucket body bucket' :
  NoDup bucket →
  Grid.swapRemove bucket (Common.indexOf bucket body) = Some bucket' →
  NoDup bucket' ∧ body ∉ bucket'.
Proof.
  intros Hnd Hswap. destruct (decide (body ∈ bucket)) as [Hin|Hnotin].
  - destruct (swapRemove_present bucket body Hnd Hin) as (b' & Hs & Hperm).
    rewrite Hswap in Hs. injection Hs as <-.
    rewrite Hperm in Hnd. by apply NoDup_cons in Hnd as [? ?].
  - induction bucket as [|lastBody rest _] using rev_ind.
    + by rewrite swapRemove_empty in Hswap.
    + rewrite swapRemove_absent in Hswap by done. injection Hswap as <-.
      apply NoDup_app in Hnd as (Hnd & _ & _). split; [done|].
      intros Hin. apply Hnotin. apply elem_of_app. by left.
Qed.

Lemma tidy_notPooled g x : tidy g → notPooled g x.
Proof.
  intros [_ Hpool] bucket Hb. rewrite (Hpool bucket Hb).
  apply not_elem_of_nil.
Qed.

(** One cell: the buckets stay tidy when the body is not in the bucket
    to which it is added. *)
Lemma updateCell_tidy h body (forceUpdate createRegion : bool)
    (newRegion bodyRegion : Region.t) g cell g' :
  tidy g →
  (adds forceUpdate createRegion newRegion bodyRegion cell = true →
   removes newRegion bodyRegion cell = false →
   body ∉ bucketAt g (cellId cell)) →
  Grid.updateCell h body forceUpdate createRegion newRegion bodyRegion g cell
    = Some g' →
  tidy g'
  ∧ (body ∈ bucketAt g' (cellId cell) →
     adds forceUpdate createRegion newRegion bodyRegion cell = true
     ∨ (body ∈ bucketAt g (cellId cell)
        ∧ removes newRegion bodyRegion cell = false)).
Proof.
  intros [Hnd Hpool] Hfresh Hstep.
  pose proof (updateCell_any _ _ _ _ _ _ _ _ _ Hstep)
    as (_ & _ & Hpool' & _).
  destruct cell as [col row]. unfold Grid.updateCell in Hstep.
  unfold removes, adds, cellId in *. cbn [fst snd] in *.
  set (k := Grid._getBucketId col row) in *.
  set (rm := negb (Grid.isInside col row newRegion)
             && Grid.isInside col row bodyRegion) in *.
  set (ad := createRegion
             || Grid.isInside col row newRegion
                && negb (Grid.isInside col row bodyRegion)
             || forceUpdate) in *.
  clearbody rm ad.
  assert (Hremove : ∀ g1,
    (if rm then
       match Grid.buckets g !! k with
       | Some bucket => Grid._bucketRemoveBody h g k bucket body
       | None => Some g
       end
     else Some g) = Some g1 →
    (∀ k' b, Grid.buckets g1 !! k' = Some b → NoDup b)
    ∧ (rm = true → body ∉ bucketAt g1 k)
    ∧ (rm = false → g1 = g)
    ∧ Grid.freeBuckets g1 = Grid.freeBuckets g).
  { intros g1. destruct rm; [|intros [= <-]; done].
    destruct (Grid.buckets g !! k) as [bucket|] eqn:Hk.
    - unfold Grid._bucketRemoveBody.
      destruct (Grid.swapRemove bucket (Common.indexOf bucket body))
        as [bucket'|] eqn:Hswap; [|done].
      intros [= <-].
      apply swapRemove_nodup in Hswap as [Hnd' Hnotin]; [|by eapply Hnd].
      split; [|split; [|done]].
      + intros k' b. cbn. destruct (decide (k' = k)) as [->|Hne].
        * rewrite lookup_insert_eq. by intros [= <-].
        * rewrite lookup_insert_ne by done. apply Hnd.
      + intros _. rewrite bucketAt_set_buckets. by rewrite decide_True.
    - intros [= <-]. split; [done|]. split; [|done].
      intros _. unfold bucketAt. rewrite Hk. apply not_elem_of_nil. }
  destruct (if rm then _ else _) as [g1|]; [|done].
  destruct (Hremove g1 eq_refl) as (Hnd1 & Hrm1 & Hrm0 & Hpool1).
  assert (Hpool2 : ∀ bucket, bucket ∈ Grid.freeBuckets g' → bucket = []).
  { intros bucket Hb. by apply Hpool, Hpool'. }
  destruct ad.
  - assert (Hnotin : body ∉ bucketAt g1 k).
    { destruct rm; [by apply Hrm1|]. rewrite (Hrm0 eq_refl). by apply Hfresh. }
    split; [|by left]. split; [|done].
    destruct (Grid.buckets g1 !! k) as [bucket|] eqn:Hk1.
    + injection Hstep as <-. intros k' b. cbn.
      destruct (decide (k' = k)) as [->|Hne].
      * rewrite lookup_insert_eq. intros [= <-].
        unfold bucketAt in Hnotin. rewrite Hk1 in Hnotin. cbn in Hnotin.
        apply NoDup_app. split; [by eapply Hnd1|].
        split; [|apply NoDup_singleton].
        intros x Hx. rewrite list_elem_of_singleton. by intros ->.
      * rewrite lookup_insert_ne by done. apply Hnd1.
    + destruct (Grid._createBucket g1 k) as [g2 bucket] eqn:Hcreate.
      injection Hstep as <-.
      destruct (createBucket_any h g1 k body g2 bucket Hk1 Hcreate)
        as (_ & _ & Hempty).
      assert (bucket = []) as ->.
      { destruct Hempty as [->|Hin]; [done|]. apply Hpool.
        by rewrite <- Hpool1. }
      pose proof (createBucket_buckets g1 k) as Hb2.
      rewrite Hcreate in Hb2. cbn [fst snd] in Hb2.
      intros k' b. cbn. rewrite Hb2.
      destruct (decide (k' = k)) as [->|Hne].
      * rewrite lookup_insert_eq. intros [= <-]. apply NoDup_singleton.
      * rewrite !lookup_insert_ne by done. apply Hnd1.
  - injection Hstep as <-. split; [done|].
    intros Hin. right.
    destruct rm; [by apply Hrm1 in Hin|]. by rewrite (Hrm0 eq_refl) in Hin.
Qed.

(** The loops over cells with distinct bucket ids. *)
Lemma updateCells_tidy h body (forceUpdate createRegion : bool)
    (newRegion bodyRegion : Region.t) (cs : list (Z * Z)) g g' :
  NoDup (cellId <$> cs) →
  tidy g →
  (∀ c, c ∈ cs →
     adds forceUpdate createRegion newRegion bodyRegion c = true →
     removes newRegion bodyRegion c = false →
     body ∉ bucketAt g (cellId c)) →
  forM (Grid.updateCell h body forceUpdate createRegion newRegion bodyRegion)
       g cs = Some g' →
  tidy g'
  ∧ (∀ c, c ∈ cs → body ∈ bucketAt g' (cellId c) →
       adds forceUpdate createRegion newRegion bodyRegion c = true
       ∨ (body ∈ bucketAt g (cellId c)
          ∧ removes newRegion bodyRegion c = false))
  ∧ (∀ k, k ∉ cellId <$> cs → Grid.buckets g' !! k = Grid.buckets g !! k).
Proof.
  revert g. induction cs as [|c cs IH]; intros g Hnd Htidy Hfresh.
  { intros [= <-]. split; [done|]. split; [|done].
    intros c Hc. by apply elem_of_nil in Hc. }
  cbn [forM].
  destruct (Grid.updateCell h body forceUpdate createRegion newRegion
              bodyRegion g c) as [g1|] eqn:Hstep; [|done].
  intros Hloop.
  rewrite fmap_cons in Hnd. apply NoDup_cons in Hnd as [Hc Hnd].
  pose proof (updateCell_other_keys _ _ _ _ _ _ _ _ _ Hstep) as Hother1.
  apply updateCell_tidy in Hstep as [Htidy1 Hbody1]; [|done|].
  2:{ apply Hfresh. apply elem_of_cons. by left. }
  assert (Hsame : ∀ c', c' ∈ cs →
            bucketAt g1 (cellId c') = bucketAt g (cellId c')).
  { intros c' Hc'. unfold bucketAt. rewrite Hother1; [done|].
    intros Heq. apply Hc. rewrite <- Heq. by apply list_elem_of_fmap_2. }
  apply IH in Hloop as (Htidy2 & Hbody2 & Hother2); [|done|done|].
  2:{ intros c' Hc'. rewrite Hsame by done. apply Hfresh.
      apply elem_of_cons. by right. }
  split; [done|]. split.
  - intros c' Hc'. apply elem_of_cons in Hc' as [->|Hc'].
    + unfold bucketAt at 1. rewrite Hother2 by done. apply Hbody1.
    + rewrite <- (Hsame c' Hc'). by apply Hbody2.
  - intros k Hk. rewrite fmap_cons, not_elem_of_cons in Hk.
    destruct Hk as [Hk1 Hk2]. rewrite Hother2 by done. by apply Hother1.
Qed.

Lemma Orderly_frame h g g' :
  Grid.buckets g' = Grid.buckets g →
  Grid.freeBuckets g' = Grid.freeBuckets g →
  Orderly lo h g → Orderly lo h g'.
Proof.
  intros Hb Hf ([Hnd Hpool] & Hconf & Hrows).
  split; [split|split; [|done]].
  - intros k bucket. rewrite Hb. apply Hnd.
  - intros bucket. rewrite Hf. apply Hpool.
  - intros body k. unfold bucketAt. rewrite Hb. apply Hconf.
Qed.

Variable engine : Engine.t.

(** One turn of the loop over the bodies: the body may have lost its
    buckets; with [forceUpdate] it must be in no bucket. *)
Lemma updateBody_orderly (forceUpdate : bool) g h (ch : bool) body
    g' h' ch' :
  Orderly lo h g →
  fits lo engine forceUpdate g h body →
  (forceUpdate = true → processed engine forceUpdate (h body) = true →
   absent g body) →
  Grid.updateBody engine forceUpdate (g, h, ch) body = Some (g', h', ch') →
  Orderly lo h' g'.
Proof.
  intros Hord Hfits Habsent Hstep.
  pose proof Hord as (Htidy & Hconf & Hrows).
  rewrite updateBody_eq in Hstep.
  destruct (processed engine forceUpdate (h body)) eqn:Hproc; cbn [negb] in Hstep;
    [|by injection Hstep as <- <- <-].
  cbn zeta in Hstep.
  apply (λ H, H Hproc) in Hfits.
  set (newRegion := regionOf g (h body)) in *.
  destruct (regionChanged forceUpdate (Body.region (h body)) newRegion)
    eqn:Hch.
  2:{ injection Hstep as <- <- <-. by apply (Orderly_frame h g). }
  set (old := Body.region (h body)) in *.
  set (union := match old with
                | Some r => if forceUpdate then newRegion
                            else Grid._regionUnion (Grid._union g) newRegion r
                | None => newRegion
                end) in *.
  set (h1 := match old with
             | Some _ => h
             | None => writeRegion h body newRegion
             end) in *.
  set (createRegion := negb (bool_decide (is_Some old))) in *.
  set (bodyRegion := default newRegion old) in *.
  destruct (forM _ _ _) as [g2|] eqn:Hloop; [|done].
  injection Hstep as <- <- <-.
  (* where the body was *)
  assert (Hwas : ∀ k, body ∈ bucketAt g k →
            ∃ c, old = Some bodyRegion ∧ forceUpdate = false
                 ∧ inside c bodyRegion ∧ cellId c = k).
  { intros k Hin. destruct forceUpdate.
    { exfalso. by apply (Habsent eq_refl eq_refl k). }
    destruct (Hconf body k Hin) as (r & c & Hr & Hc & Hk).
    exists c. subst bodyRegion old. rewrite Hr. done. }
  assert (Hunion : rowsWithin lo union).
  { subst union. destruct old as [r|] eqn:Hold; [|done].
    destruct forceUpdate; [done|].
    apply regionUnion_rows; [done|]. by apply (Hrows body). }
  assert (Hcovers : ∀ c, inside c bodyRegion → old = Some bodyRegion →
            forceUpdate = false → inside c union).
  { intros c Hc Hold ->. subst union. rewrite Hold.
    by apply inside_regionUnion_r. }
  assert (Hadds : ∀ c, c ∈ Grid.cells union →
            adds forceUpdate createRegion newRegion bodyRegion c = true →
            inside c newRegion).
  { intros c Hc Had. apply elem_of_cells in Hc.
    subst union createRegion. unfold adds in Had.
    destruct old as [r|]; [|done].
    destruct forceUpdate; [done|].
    rewrite bool_decide_true in Had by done. cbn in Had.
    rewrite orb_false_r in Had. by apply andb_true_iff in Had as [? _]. }
  assert (Hsameid : ∀ c c', inside c union → inside c' union →
            cellId c = cellId c' → c = c').
  { intros c c' Hc Hc'. apply (cellId_inj lo); by eapply inside_rows. }
  pose proof (updateCells_any _ _ _ _ _ _ _ _ _ Hloop)
    as (_ & _ & _ & Hothers).
  apply updateCells_tidy in Hloop as (Htidy2 & Hbody2 & Hother2).
  2:{ by apply (NoDup_cellIds lo). }
  2:{ done. }
  2:{ intros c Hc Had Hrm Hin.
      change (bucketAt (Grid.set_union union (Grid.set_current newRegion g))
                (cellId c)) with (bucketAt g (cellId c)) in Hin.
      destruct (Hwas _ Hin) as (c' & Hold & Hforce & Hc' & Hk).
      apply elem_of_cells in Hc.
      assert (c' = c) as -> by (apply Hsameid; [by apply Hcovers|done..]).
      subst createRegion. unfold adds in Had. rewrite Hold, Hforce in Had.
      rewrite bool_decide_true in Had by done. cbn in Had.
      rewrite orb_false_r in Had. apply andb_true_iff in Had as [_ Had].
      unfold inside in Hc'. by rewrite Hc' in Had. }
  assert (Hheap : ∀ x, x ≠ body → writeRegion h1 body newRegion x = h x).
  { intros x Hx. rewrite writeRegion_other by done. subst h1.
    destruct old; [done|]. by rewrite writeRegion_other. }
  split; [done|]. split.
  - intros x k Hin. destruct (decide (x = body)) as [->|Hne].
    + exists newRegion.
      assert (∃ c, inside c newRegion ∧ cellId c = k) as (c & Hc & Hk).
      { destruct (decide (k ∈ cellId <$> Grid.cells union)) as [Hk|Hk].
        - apply list_elem_of_fmap in Hk as (c & -> & Hc).
          exists c. split; [|done].
          destruct (Hbody2 c Hc Hin) as [Had|[Hin0 Hrm]]; [by apply Hadds|].
          change (bucketAt (Grid.set_union union
                              (Grid.set_current newRegion g)) (cellId c))
            with (bucketAt g (cellId c)) in Hin0.
          destruct (Hwas _ Hin0) as (c' & Hold & Hforce & Hc' & Hk).
          apply elem_of_cells in Hc.
          assert (c' = c) as -> by (apply Hsameid; [by apply Hcovers|done..]).
          unfold removes in Hrm. unfold inside in Hc'. rewrite Hc' in Hrm.
          rewrite andb_true_r in Hrm. by apply negb_false_iff in Hrm.
        - exfalso. unfold bucketAt in Hin. rewrite Hother2 in Hin by done.
          destruct (Hwas k Hin) as (c' & Hold & Hforce & Hc' & Hk').
          apply Hk. rewrite <- Hk'. apply list_elem_of_fmap_2.
          apply elem_of_cells. by apply Hcovers. }
      exists c. split; [apply writeRegion_same|done].
    + apply Hothers in Hin; [|done|].
      2:{ by apply tidy_notPooled. }
      destruct (Hconf x k Hin) as (r & c & Hr & Hc & Hk).
      exists r, c. by rewrite Hheap.
  - intros x r. destruct (decide (x = body)) as [->|Hne].
    + destruct (writeRegion_same h1 body newRegion) as [_ ->].
      by intros [= <-].
    + rewrite Hheap by done. apply Hrows.
Qed.

(** The loop over the bodies. *)
Lemma updateBodies_orderly (forceUpdate : bool) bodies g h (ch : bool)
    g' h' ch' :
  Orderly lo h g →
  (∀ body, body ∈ bodies → fits lo engine forceUpdate g h body) →
  (forceUpdate = true → NoDup bodies ∧ allAbsent engine g h bodies) →
  forM (Grid.updateBody engine forceUpdate) (g, h, ch) bodies
    = Some (g', h', ch') →
  Orderly lo h' g'.
Proof.
  revert g h ch.
  induction bodies as [|b bodies IH]; intros g h ch Hord Hfits Hforce.
  { by intros [= <- <- <-]. }
  cbn [forM].
  destruct (Grid.updateBody engine forceUpdate (g, h, ch) b)
    as [[[g1 h1] ch1]|] eqn:Hstep; [|done].
  intros Hloop.
  pose proof (updateBody_any _ _ _ _ _ _ _ _ _ Hstep)
    as ((_ & Hw & Hh & _ & _ & Hsame) & _ & Hothers & _).
  apply updateBody_orderly in Hstep; [|done| |].
  2:{ apply Hfits. apply elem_of_cons. by left. }
  2:{ intros Hf Hproc. subst forceUpdate.
      destruct (Hforce eq_refl) as [_ Habs]. apply Habs; [|done].
      apply elem_of_cons. by left. }
  apply IH in Hloop; [done|done| |].
  - intros x Hx. apply (fits_ext lo engine forceUpdate g g1 h h1); try done.
    apply Hfits. apply elem_of_cons. by right.
  - intros Hf. destruct (Hforce Hf) as [Hnd Habs].
    apply NoDup_cons in Hnd as [Hb Hnd]. split; [done|].
    intros x Hx Hproc k Hin.
    rewrite (processed_ext _ _ _ _ (Hsame x)) in Hproc.
    apply (Habs x (proj2 (elem_of_cons _ _ _) (or_intror Hx)) Hproc k).
    apply Hothers; [|by apply tidy_notPooled, Hord|done].
    intros ->. done.
Qed.

(** [Grid.update] keeps the state orderly. *)
Lemma update_orderly (forceUpdate : bool) bodies g h g' h' :
  Orderly lo h g →
  (∀ body, body ∈ bodies → fits lo engine forceUpdate g h body) →
  (forceUpdate = true → NoDup bodies ∧ allAbsent engine g h bodies) →
  Grid.update g h bodies engine forceUpdate = Some (g', h') →
  Orderly lo h' g'.
Proof.
  intros Hord Hfits Hforce. unfold Grid.update, Grid.updateBodies.
  destruct (forM _ _ _) as [[[g1 h1] ch1]|] eqn:Hloop; [|done].
  intros [= <- <-].
  pose proof (updateBodies_orderly _ _ _ _ _ _ _ _ Hord Hfits Hforce Hloop)
    as Hord1.
  destruct ch1; [|done].
  destruct (createActivePairsList_spec g1) as (_ & _ & Hb & Hf & _).
  by apply (Orderly_frame h1 g1).
Qed.

End Orderly.

(** The states in which the grid alone writes the region slots are
    orderly. *)
Lemma Regular_orderly (lo : Z) (g : Grid.t) (h : Heap) :
  Regular lo g h → Orderly lo h g.
Proof.
  induction 1 as [options h Hrows
                 | g h h' _ IH Hext
                 | g h bodies engine g' h' _ IH Hfits Hupd
                 | g h _ IH
                 | g h bodies engine g' h' _ IH Hfits Hnd Habs Hupd].
  - split; [split|split; [|done]].
    + intros k bucket. cbn. by rewrite lookup_empty.
    + intros bucket. cbn. by intros ?%elem_of_nil.
    + intros body k. unfold bucketAt. cbn. rewrite lookup_empty.
      by intros ?%elem_of_nil.
  - destruct IH as (Htidy & Hconf & Hrows). split; [done|]. split.
    + intros body k Hin. destruct (Hconf body k Hin) as (r & c & Hr & Hc).
      exists r, c. by rewrite Hext.
    + intros body r. rewrite Hext. apply Hrows.
  - by apply (update_orderly lo engine false bodies g h).
  - destruct IH as ([Hnd Hpool] & Hconf & Hrows).
    destruct (clear_spec g) as (Hb & Hf & _).
    split; [split|split; [|done]].
    + intros k bucket. rewrite Hb. by rewrite lookup_empty.
    + intros bucket. rewrite Hf, elem_of_app. intros [Hin|Hin].
      * by apply Hpool.
      * by apply elem_of_replicate in Hin as [? _].
    + intros body k. unfold bucketAt. rewrite Hb, lookup_empty.
      by intros ?%elem_of_nil.
  - by apply (update_orderly lo engine true bodies g h).
Qed.

(** Normal operation is regular. *)
Lemma Tracked_regular (lo : Z) (g : Grid.t) (h : Heap) :
  Tracked lo g h → Regular lo g h.
Proof.
  induction 1 as [options h Hids Hnone
                 | g h h' _ IH Hext
                 | g h bodies engine g' h' _ IH Hfits Hreg Hupd
                 | g h _ IH
                 | g h bodies engine g' h' _ IH Hfits Hnd Habs Hupd].
  - apply regular_create; [|done]. intros x r. by rewrite Hnone.
  - eapply regular_external; [done|]. intros x. by destruct (Hext x) as (_ & _ & ?).
  - by eapply regular_update.
  - by apply regular_clear.
  - by eapply regular_forced.
Qed.
(** ** Regions that are taller than the stride *)

Section Repeats.

Variable engine : Engine.t.

Implicit Types (g : Grid.t) (h : Heap) (body : ref) (c : Z * Z).

(** The number of times the bucket under [k] holds the body. *)
#[local] Abbreviation occurrences g body k :=
  (length (filter (λ x : ref, x = body) (bucketAt g k))).

Lemma occurrences_push (bucket : list ref) body :
  length (filter (λ x : ref, x = body) (bucket ++ [body]))
  = S (length (filter (λ x : ref, x = body) bucket)).
Proof.
  rewrite filter_app, length_app, filter_cons_True by done. cbn. lia.
Qed.

(** One turn of the loops over the cells of the new region, with
    [forceUpdate]: the body is appended once more. *)
Lemma updateCell_repeats h body (createRegion : bool)
    (newRegion bodyRegion : Region.t) g c :
  inside c newRegion →
  ∃ g',
    Grid.updateCell h body true createRegion newRegion bodyRegion g c
    = Some g'
    ∧ ∀ k, (occurrences g body k + ind (cellId c = k)
            ≤ occurrences g' body k)%nat.
Proof.
  destruct c as [col row]. unfold inside, cellId. cbn [fst snd]. intros Hin.
  unfold Grid.updateCell. rewrite Hin. cbn [negb andb]. rewrite !orb_true_r.
  set (k := Grid._getBucketId col row).
  assert (Hadd : ∀ g2 bucket k',
    Grid.buckets g2 !! k = Some bucket →
    (occurrences g2 body k' + ind (k = k')
     ≤ occurrences (Grid._bucketAddBody h g2 k bucket body) body k')%nat).
  { intros g2 bucket k' Hk. unfold Grid._bucketAddBody.
    rewrite bucketAt_set_buckets. unfold ind.
    destruct (decide (k' = k)) as [->|Hne].
    - rewrite decide_True by done. rewrite occurrences_push.
      unfold bucketAt. rewrite Hk. cbn. lia.
    - rewrite decide_False by done. lia. }
  destruct (Grid.buckets g !! k) as [bucket|] eqn:Hk.
  - eexists. split; [done|]. intros k'. by apply Hadd.
  - pose proof (createBucket_buckets g k) as Hb.
    pose proof (createBucket_registers g k) as Hreg.
    destruct (Grid._createBucket g k) as [g2 bucket]. cbn [fst snd] in *.
    eexists. split; [done|]. intros k'.
    etrans; [|by apply Hadd].
    rewrite (bucketAt_insert g g2 k k' bucket Hb).
    case_decide as Hkk; [|done]. subst k'.
    unfold bucketAt at 1. rewrite Hk. cbn. lia.
Qed.

Lemma updateCells_repeats h body (createRegion : bool)
    (newRegion bodyRegion : Region.t) (cs : list (Z * Z)) g :
  (∀ c, c ∈ cs → inside c newRegion) →
  ∃ g',
    forM (Grid.updateCell h body true createRegion newRegion bodyRegion)
         g cs = Some g'
    ∧ ∀ k, (occurrences g body k
            + length (filter (λ c, cellId c = k) cs)
            ≤ occurrences g' body k)%nat.
Proof.
  revert g. induction cs as [|c cs IH]; intros g Hin.
  - exists g. split; [done|]. intros k. cbn. lia.
  - destruct (updateCell_repeats h body createRegion newRegion bodyRegion g c)
      as (g1 & Hstep & Hocc1); [apply Hin; apply elem_of_cons; by left|].
    destruct (IH g1) as (g' & Hrest & Hocc).
    { intros c' Hc'. apply Hin. apply elem_of_cons. by right. }
    exists g'. split; [cbn [forM]; by rewrite Hstep|].
    intros k. specialize (Hocc1 k). specialize (Hocc k).
    unfold ind in Hocc1. rewrite filter_cons.
    destruct (decide (cellId c = k)); cbn [length]; lia.
Qed.

(** Two cells of a list without repetition. *)
Lemma length_filter_two {A} (P : A → Prop) `{∀ x, Decision (P x)}
    (l : list A) (x y : A) :
  NoDup l → x ∈ l → y ∈ l → x ≠ y → P x → P y →
  (2 ≤ length (filter P l))%nat.
Proof.
  intros Hnd Hx Hy Hne HPx HPy.
  assert (Hsub : [x; y] ⊆+ filter P l).
  { apply NoDup_submseteq.
    - apply NoDup_cons. split; [by intros ?%list_elem_of_singleton|].
      apply NoDup_singleton.
    - intros z Hz. apply list_elem_of_filter.
      apply elem_of_cons in Hz as [->|Hz]; [done|].
      by apply list_elem_of_singleton in Hz as ->. }
  by apply submseteq_length in Hsub.
Qed.

(** An update with [forceUpdate] of a body whose region has two cells
    with the same bucket id puts the body twice into the bucket. *)
Lemma forced_update_repeats g h body c1 c2 :
  Grid.outOfWorld (h body) (Engine.world engine) = false →
  inside c1 (regionOf g (h body)) → inside c2 (regionOf g (h body)) →
  c1 ≠ c2 → cellId c1 = cellId c2 →
  ∃ g' h', Grid.update g h [body] engine true = Some (g', h')
           ∧ ¬ NoDup (bucketAt g' (cellId c1)).
Proof.
  intros Hworld Hc1 Hc2 Hne Hid.
  unfold Grid.update, Grid.updateBodies. cbn [forM].
  rewrite updateBody_eq.
  assert (Hproc : processed engine true (h body) = true).
  { unfold processed. by rewrite Hworld, andb_false_r. }
  rewrite Hproc. cbn [negb]. cbv zeta.
  assert (Hchanged : ∀ old r, regionChanged true old r = true).
  { intros old r. unfold regionChanged. apply orb_true_r. }
  rewrite Hchanged.
  set (newRegion := regionOf g (h body)) in *.
  assert (Hunion : match Body.region (h body) with
                   | Some r => if true then newRegion
                               else Grid._regionUnion
                                      (Grid._union (Grid.set_current newRegion g))
                                      newRegion r
                   | None => newRegion
                   end = newRegion) by (by destruct (Body.region (h body))).
  rewrite Hunion.
  match goal with
  | |- context [forM ?f ?g0 ?cs] =>
      destruct (updateCells_repeats
                  (match Body.region (h body) with
                   | Some _ => h
                   | None => writeRegion h body newRegion
                   end) body
                  (negb (bool_decide (is_Some (Body.region (h body)))))
                  newRegion (default newRegion (Body.region (h body)))
                  cs g0)
        as (g2 & Hcells & Hocc)
  end.
  { intros c Hc. by apply elem_of_cells. }
  rewrite Hcells. eexists _, _. split; [done|].
  destruct (createActivePairsList_spec g2) as (_ & _ & Hb & _).
  unfold bucketAt. rewrite Hb. fold (bucketAt g2 (cellId c1)).
  intros Hnd. specialize (Hocc (cellId c1)).
  pose proof (length_filter_two (λ c, cellId c = cellId c1)
                (Grid.cells newRegion) c1 c2 (NoDup_cells newRegion)
                (proj2 (elem_of_cells _ _) Hc1)
                (proj2 (elem_of_cells _ _) Hc2) Hne eq_refl (eq_sym Hid))
    as Htwo.
  rewrite (length_filter_single _ _ body Hnd) in Hocc by done.
  unfold ind in Hocc. case_decide; lia.
Qed.

End Repeats.

(** C2, as stated, fails.

    - After a first update has put body [0] of the small world into the
      three buckets of its region, an update of body [0] with
      [forceUpdate = true] and unchanged bounds appends it to each of the
      three buckets again.
    - An update with [forceUpdate = true] of a new grid that is given
      body [0] twice puts it twice into each of its buckets.
    - A first update, without [forceUpdate], of a new grid puts a body
      whose region is the column [9007200] and the rows [0] and [1] twice
      into one bucket: the ids of its two cells are both
      [9007200000000000].
    - After the region slot of body [0] has been overwritten, an update
      without [forceUpdate] appends the body to the buckets that hold
      it.
    - An update with [forceUpdate] of a new grid puts a body whose region
      is the columns [0] and [1] and the rows [-1] to [999999999], one row
      more than the stride, twice into one bucket: its cells
      [(0, 999999999)] and [(1, -1)] both have the id [999999999]. *)
Lemma forced_update_duplicates :
  (Reachable Demo.forced.1 Demo.forced.2
   ∧ Body.region (Demo.first.2 0%nat)
     = Some (regionOf Demo.first.1 (Demo.first.2 0%nat))
   ∧ Grid.buckets Demo.first.1 !! 0 = Some [0%nat; 1%nat]
   ∧ Grid.buckets Demo.forced.1 !! 0 = Some [0%nat; 1%nat; 0%nat]
   ∧ ¬ NoDup [0%nat; 1%nat; 0%nat])
  ∧ (Grid.update Demo.grid Demo.heap [0%nat; 0%nat; 1%nat] Demo.engine true
     = Some (Cases.twice.1, Cases.twice.2)
     ∧ Grid.buckets Cases.twice.1 !! 0 = Some [0%nat; 0%nat; 1%nat]
     ∧ ¬ NoDup [0%nat; 0%nat; 1%nat])
  ∧ (Grid.update Demo.grid Cases.farHeap [0%nat; 1%nat] Cases.farEngine false
     = Some (Cases.far.1, Cases.far.2)
     ∧ regionOf Demo.grid (Cases.farHeap 0%nat)
       = Region.mk 9007200 9007200 0 1
     ∧ Grid._getBucketId 9007200 0 = 9007200000000000
     ∧ Grid._getBucketId 9007200 1 = 9007200000000000
     ∧ Grid.buckets Cases.far.1 !! 9007200000000000
       = Some [0%nat; 0%nat; 1%nat; 1%nat]
     ∧ ¬ NoDup [0%nat; 0%nat; 1%nat; 1%nat])
  ∧ (Grid.update Demo.first.1
       (writeRegion Demo.first.2 0%nat (Region.mk 5 5 0 0))
       [0%nat; 1%nat] Demo.engine false
     = Some (Cases.rewritten.1, Cases.rewritten.2)
     ∧ Grid.buckets Cases.rewritten.1 !! 0 = Some [0%nat; 1%nat; 0%nat])
  ∧ (regionOf Demo.grid (Cases.tallHeap 0%nat)
     = Region.mk 0 1 (-1) 999999999
     ∧ Grid._getBucketId 0 999999999 = 999999999
     ∧ Grid._getBucketId 1 (-1) = 999999999
     ∧ ∃ g' h',
         Grid.update Demo.grid Cases.tallHeap [0%nat] Cases.farEngine true
         = Some (g', h')
         ∧ ¬ NoDup (bucketAt g' 999999999)).
Proof.
  assert (Hdup : ∀ (x : ref) l, x ∈ l → ¬ NoDup (x :: l)).
  { intros x l Hin Hnd. by apply NoDup_cons in Hnd as [? _]. }
  split; [|split; [|split; [|split]]].
  - split.
    { eapply reach_update; [|exact Demo_forced_eq].
      eapply reach_update; [|exact Demo_first_eq]. apply reach_create. }
    do 3 (split; [vm_compute; reflexivity|]).
    apply Hdup. apply elem_of_cons. right. apply elem_of_cons. by left.
  - split; [exact Cases_twice_eq|]. split; [vm_compute; reflexivity|].
    apply Hdup. apply elem_of_cons. by left.
  - split; [exact Cases_far_eq|].
    do 4 (split; [vm_compute; reflexivity|]).
    apply Hdup. apply elem_of_cons. by left.
  - split; [exact Cases_rewritten_eq|]. vm_compute. reflexivity.
  - do 3 (split; [vm_compute; reflexivity|]).
    destruct (forced_update_repeats Cases.farEngine Demo.grid Cases.tallHeap
                0%nat (0, 999999999) (1, -1))
      as (g' & h' & Hupd & Hrepeat);
      [vm_compute; reflexivity..|by intros [=]|vm_compute; reflexivity|].
    assert (Hid : cellId (0, 999999999) = 999999999)
      by (vm_compute; reflexivity).
    rewrite Hid in Hrepeat. exists g', h'. split; [exact Hupd|exact Hrepeat].
Qed.

(** C2, amended. No bucket contains a body twice in any state reached
    from a new grid by [Grid.clear], by changes of the bodies that leave
    their region slots alone (ids and flags may change, and two bodies may
    have the same id), by updates without [forceUpdate], also of bodies
    that lost their buckets in a clear, and by updates with [forceUpdate]
    that are given each body once and only bodies that are in no bucket
    (as after [Grid.clear]), as long as the regions of the bodies have
    exact bucket ids (columns up to [9007198] and rows below the stride in
    magnitude) and rows in one window of the width of the stride. *)
Theorem buckets_hold_a_body_once (lo : Z) (g : Grid.t) (h : Heap) :
  Regular lo g h →
  ∀ (k : Z) (bucket : list ref),
    Grid.buckets g !! k = Some bucket → NoDup bucket.
Proof.
  intros Hregular.
  destruct (Regular_orderly lo g h Hregular) as ([Hnodup _] & _).
  exact Hnodup.
Qed.

(** The bucket of the cell [(1, 0)] after the second update of the small
    world; the bucket of the cell [(0, 0)] after the grid was cleared and
    rebuilt by an update with [forceUpdate]; and the bucket of the cell
    [(0, 0)] of the three bodies after the update of body [0], which had
    lost its buckets in the clear. *)
Lemma buckets_hold_a_body_once_witness :
  (Grid.buckets Demo.second.1 !! 1000000000 = Some [0%nat; 1%nat]
   ∧ NoDup [0%nat; 1%nat])
  ∧ (∃ bucket, Grid.buckets Demo.rebuilt.1 !! 0 = Some bucket
       ∧ 0%nat ∈ bucket ∧ NoDup bucket)
  ∧ (Grid.buckets Cases.dropped.1 !! 0 = Some [1%nat] ∧ NoDup [1%nat]).
Proof.
  assert (Hbucket : Grid.buckets Demo.second.1 !! 1000000000
                    = Some [0%nat; 1%nat]) by (vm_compute; reflexivity).
  assert (Hrebuilt : Grid.buckets Demo.rebuilt.1 !! 0
                     = Some [0%nat; 1%nat]) by (vm_compute; reflexivity).
  assert (Hdropped : Grid.buckets Cases.dropped.1 !! 0 = Some [1%nat])
    by (vm_compute; reflexivity).
  split; [|split].
  - split; [exact Hbucket|].
    exact (buckets_hold_a_body_once 0 _ _
             (Tracked_regular 0 _ _ Demo_second_tracked) _ _ Hbucket).
  - exists [0%nat; 1%nat]. split; [exact Hrebuilt|].
    split; [apply elem_of_cons; by left|].
    exact (buckets_hold_a_body_once 0 _ _
             (Tracked_regular 0 _ _ Demo_rebuilt_tracked) _ _ Hrebuilt).
  - split; [exact Hdropped|].
    refine (buckets_hold_a_body_once 0 _ _ _ _ _ Hdropped).
    assert (Hregistered : Regular 0 Cases.registered.1 Cases.registered.2).
    { eapply regular_update; [| |exact Cases_registered_eq].
      - apply regular_create; [|exact Demo_sized]. intros x r.
        by destruct x as [|[|[|x]]].
      - apply fits_forallb. vm_compute. reflexivity. }
    assert (Hrebuilt' : Regular 0 Cases.rebuilt.1 Cases.rebuilt.2).
    { eapply regular_forced;
        [apply regular_clear; exact Hregistered| | | |exact Cases_rebuilt_eq].
      - apply fits_forallb. vm_compute. reflexivity.
      - apply NoDup_cons. split; [|apply NoDup_singleton].
        by intros ?%list_elem_of_singleton.
      - intros body _ _ k. unfold bucketAt.
        destruct (clear_spec Cases.registered.1) as (-> & _).
        rewrite lookup_empty. apply not_elem_of_nil. }
    eapply regular_update; [| |exact Cases_dropped_eq].
    + apply (regular_external 0 _ Cases.rebuilt.2); [exact Hrebuilt'|].
      intros x. unfold Demo.move. by case_decide.
    + apply fits_forallb. vm_compute. reflexivity.
Defined.
